(** * Skull multiplayer server: the per-room game engine

    A shallow embedding of the room engine of [server.js] (the richer of the
    two versions in the repository: the one with turn deadlines, the
    [flip_result] and [penalty] phases and the reconnection path).

    Conventions of the embedding.
    - JavaScript numbers that hold seat indices, bids and counters are [Z];
      the sentinel [-1] is kept as it is in the source.
    - [room.players[i]] is [getP]: [None] stands for [undefined].  A property
      read on [undefined] is a [TypeError]; a handler that throws returns
      [None] (the exception is never caught in the source).
    - A player object is mutated in place in the source; here the seat is
      rewritten inside the [players] list with [updP].
    - [setTimeout] is modelled by two explicit stores in the [World]: the
      pending deadline timers (created by [startTurnTimer], cancelable) and
      the pending presentation delays (never cancelable).
    - [Date.now()] and [Math.random()] are inputs of an event ([now], [rnd]).
    - Template-literal log lines are kept structured ([LogMsg]), one
      constructor per template of the source. *)

From Stdlib Require Import ZArith Lia Ascii String.
From stdpp Require Import base list strings gmap.

Open Scope Z_scope.

(** ** Data model *)

Inductive Card := Rose | Skull.

Inductive Phase :=
| PNone        (* null *)
| Placing | Bidding | Flipping | FlipResult | Penalty | GameOver.

#[global] Instance Card_eq_dec : EqDecision Card.
Proof. solve_decision. Defined.

#[global] Instance Phase_eq_dec : EqDecision Phase.
Proof. solve_decision. Defined.

Record Player := mkPlayer {
  pid : string;            (* [id]: the socket id bound to the seat *)
  name : string;
  cards : list Card;
  hand : list Card;
  stack : list Card;       (* top of the stack = last element (push/pop) *)
  wins : Z;
  eliminated : bool;
  passed : bool;
  connected : bool;
  colorIndex : Z;
  lastChatTime : option Z  (* absent until the first chat message *)
}.

Inductive LogMsg :=
| LGameStarted
| LRound (n : Z)
| LPlaced (who : string)
| LOpened (who : string) (bid : Z)
| LAutoPassed (who : string)
| LBid (who : string) (amount : Z)
| LPassed (who : string)
| LMustFlip (who : string) (bid : Z)
| LSkull (flipper target : string)
| LRose (flipper target : string)
| LWinsPoint (who : string) (w : Z)
| LChooseDiscard (who : string)
| LLoses (who : string) (remaining : Z)
| LEliminated (who : string)
| LWinsGame (who : string)
| LJoined (who : string)
| LChat (who text : string)
| LDoug (who : string)
| LReset
| LDisconnected (who : string).

Module Reveal.
Record t := mk { playerIndex : Z; card : Card; playerName : string }.
End Reveal.
Abbreviation RevealedCard := Reveal.t.

Record Room := mkRoom {
  code : string;
  players : list Player;
  hostId : string;
  started : bool;
  phase : Phase;
  currentPlayer : Z;
  currentBid : Z;
  highestBidder : Z;
  flipsRemaining : Z;
  totalCoastersOnTable : Z;
  roundNum : Z;
  firstPlacement : bool;
  nextRoundStarter : Z;
  penaltyPlayer : Z;
  turnDeadline : Z;
  turnTimer : option nat;     (* handle returned by setTimeout, or null *)
  log : list LogMsg;
  revealedCards : list RevealedCard
}.

(** The closures handed to [startTurnTimer], by the place that builds them. *)
Inductive Callback :=
| CbFirstPlace (firstPlayer : Z)   (* startRound *)
| CbPlacing (next : Z)             (* advancePlacing *)
| CbBid.                           (* startBidTimer *)

(** The closures handed directly to [setTimeout] (presentation delays). *)
Inductive Deferred :=
| DForceBid (next : Z)                          (* advancePlacing, 800 ms *)
| DPenalize (flipperIdx targetPlayerIdx : Z)    (* handleFlip, 1500 ms *)
| DChallengeSuccess (pIdx : Z)                  (* handleFlip, 1200 ms *)
| DStartRound.                                  (* 2000 ms *)

(** The per-viewer projection built by [stateForPlayer]. *)
Module View.
Record player := mkPlayer {
  name : string;
  handCount : Z;
  hand : option (list Card);
  stackCount : Z;
  totalCards : Z;
  wins : Z;
  eliminated : bool;
  passed : bool;
  connected : bool;
  isMe : bool;
  colorIndex : Z
}.
Record t := mk {
  code : string;
  started : bool;
  players : list player;
  hostId : string;
  isHost : bool;
  myIndex : Z;
  phase : Phase;
  currentPlayer : Z;
  currentBid : Z;
  highestBidder : Z;
  flipsRemaining : Z;
  totalCoastersOnTable : Z;
  roundNum : Z;
  firstPlacement : bool;
  log : list LogMsg;
  revealedCards : list RevealedCard;
  penaltyPlayer : Z;
  penaltyCards : option (list Card);
  turnDeadline : Z
}.
End View.

Inductive Emit :=
| EmitGameState (to : string) (v : View.t)
| EmitGameOver (roomCode winnerName : string) (winnerIndex : Z)
| EmitDougLose (roomCode : string).

Record World := mkWorld {
  room : Room;
  timers : list (nat * Callback);   (* pending deadline timers *)
  deferred : list Deferred;         (* pending presentation delays *)
  nextHandle : nat;                 (* next fresh timer handle *)
  outbox : list Emit                (* messages emitted by the running event *)
}.

(** ** Field updates *)

Definition set_pid v (x : Player) := mkPlayer v (name x) (cards x) (hand x) (stack x) (wins x) (eliminated x) (passed x) (connected x) (colorIndex x) (lastChatTime x).
Definition set_cards v (x : Player) := mkPlayer (pid x) (name x) v (hand x) (stack x) (wins x) (eliminated x) (passed x) (connected x) (colorIndex x) (lastChatTime x).
Definition set_hand v (x : Player) := mkPlayer (pid x) (name x) (cards x) v (stack x) (wins x) (eliminated x) (passed x) (connected x) (colorIndex x) (lastChatTime x).
Definition set_stack v (x : Player) := mkPlayer (pid x) (name x) (cards x) (hand x) v (wins x) (eliminated x) (passed x) (connected x) (colorIndex x) (lastChatTime x).
Definition set_wins v (x : Player) := mkPlayer (pid x) (name x) (cards x) (hand x) (stack x) v (eliminated x) (passed x) (connected x) (colorIndex x) (lastChatTime x).
Definition set_eliminated v (x : Player) := mkPlayer (pid x) (name x) (cards x) (hand x) (stack x) (wins x) v (passed x) (connected x) (colorIndex x) (lastChatTime x).
Definition set_passed v (x : Player) := mkPlayer (pid x) (name x) (cards x) (hand x) (stack x) (wins x) (eliminated x) v (connected x) (colorIndex x) (lastChatTime x).
Definition set_connected v (x : Player) := mkPlayer (pid x) (name x) (cards x) (hand x) (stack x) (wins x) (eliminated x) (passed x) v (colorIndex x) (lastChatTime x).
Definition set_lastChatTime v (x : Player) := mkPlayer (pid x) (name x) (cards x) (hand x) (stack x) (wins x) (eliminated x) (passed x) (connected x) (colorIndex x) v.

Definition set_players v (r : Room) := mkRoom (code r) v (hostId r) (started r) (phase r) (currentPlayer r) (currentBid r) (highestBidder r) (flipsRemaining r) (totalCoastersOnTable r) (roundNum r) (firstPlacement r) (nextRoundStarter r) (penaltyPlayer r) (turnDeadline r) (turnTimer r) (log r) (revealedCards r).
Definition set_hostId v (r : Room) := mkRoom (code r) (players r) v (started r) (phase r) (currentPlayer r) (currentBid r) (highestBidder r) (flipsRemaining r) (totalCoastersOnTable r) (roundNum r) (firstPlacement r) (nextRoundStarter r) (penaltyPlayer r) (turnDeadline r) (turnTimer r) (log r) (revealedCards r).
Definition set_started v (r : Room) := mkRoom (code r) (players r) (hostId r) v (phase r) (currentPlayer r) (currentBid r) (highestBidder r) (flipsRemaining r) (totalCoastersOnTable r) (roundNum r) (firstPlacement r) (nextRoundStarter r) (penaltyPlayer r) (turnDeadline r) (turnTimer r) (log r) (revealedCards r).
Definition set_phase v (r : Room) := mkRoom (code r) (players r) (hostId r) (started r) v (currentPlayer r) (currentBid r) (highestBidder r) (flipsRemaining r) (totalCoastersOnTable r) (roundNum r) (firstPlacement r) (nextRoundStarter r) (penaltyPlayer r) (turnDeadline r) (turnTimer r) (log r) (revealedCards r).
Definition set_currentPlayer v (r : Room) := mkRoom (code r) (players r) (hostId r) (started r) (phase r) v (currentBid r) (highestBidder r) (flipsRemaining r) (totalCoastersOnTable r) (roundNum r) (firstPlacement r) (nextRoundStarter r) (penaltyPlayer r) (turnDeadline r) (turnTimer r) (log r) (revealedCards r).
Definition set_currentBid v (r : Room) := mkRoom (code r) (players r) (hostId r) (started r) (phase r) (currentPlayer r) v (highestBidder r) (flipsRemaining r) (totalCoastersOnTable r) (roundNum r) (firstPlacement r) (nextRoundStarter r) (penaltyPlayer r) (turnDeadline r) (turnTimer r) (log r) (revealedCards r).
Definition set_highestBidder v (r : Room) := mkRoom (code r) (players r) (hostId r) (started r) (phase r) (currentPlayer r) (currentBid r) v (flipsRemaining r) (totalCoastersOnTable r) (roundNum r) (firstPlacement r) (nextRoundStarter r) (penaltyPlayer r) (turnDeadline r) (turnTimer r) (log r) (revealedCards r).
Definition set_flipsRemaining v (r : Room) := mkRoom (code r) (players r) (hostId r) (started r) (phase r) (currentPlayer r) (currentBid r) (highestBidder r) v (totalCoastersOnTable r) (roundNum r) (firstPlacement r) (nextRoundStarter r) (penaltyPlayer r) (turnDeadline r) (turnTimer r) (log r) (revealedCards r).
Definition set_totalCoastersOnTable v (r : Room) := mkRoom (code r) (players r) (hostId r) (started r) (phase r) (currentPlayer r) (currentBid r) (highestBidder r) (flipsRemaining r) v (roundNum r) (firstPlacement r) (nextRoundStarter r) (penaltyPlayer r) (turnDeadline r) (turnTimer r) (log r) (revealedCards r).
Definition set_roundNum v (r : Room) := mkRoom (code r) (players r) (hostId r) (started r) (phase r) (currentPlayer r) (currentBid r) (highestBidder r) (flipsRemaining r) (totalCoastersOnTable r) v (firstPlacement r) (nextRoundStarter r) (penaltyPlayer r) (turnDeadline r) (turnTimer r) (log r) (revealedCards r).
Definition set_firstPlacement v (r : Room) := mkRoom (code r) (players r) (hostId r) (started r) (phase r) (currentPlayer r) (currentBid r) (highestBidder r) (flipsRemaining r) (totalCoastersOnTable r) (roundNum r) v (nextRoundStarter r) (penaltyPlayer r) (turnDeadline r) (turnTimer r) (log r) (revealedCards r).
Definition set_nextRoundStarter v (r : Room) := mkRoom (code r) (players r) (hostId r) (started r) (phase r) (currentPlayer r) (currentBid r) (highestBidder r) (flipsRemaining r) (totalCoastersOnTable r) (roundNum r) (firstPlacement r) v (penaltyPlayer r) (turnDeadline r) (turnTimer r) (log r) (revealedCards r).
Definition set_penaltyPlayer v (r : Room) := mkRoom (code r) (players r) (hostId r) (started r) (phase r) (currentPlayer r) (currentBid r) (highestBidder r) (flipsRemaining r) (totalCoastersOnTable r) (roundNum r) (firstPlacement r) (nextRoundStarter r) v (turnDeadline r) (turnTimer r) (log r) (revealedCards r).
Definition set_turnDeadline v (r : Room) := mkRoom (code r) (players r) (hostId r) (started r) (phase r) (currentPlayer r) (currentBid r) (highestBidder r) (flipsRemaining r) (totalCoastersOnTable r) (roundNum r) (firstPlacement r) (nextRoundStarter r) (penaltyPlayer r) v (turnTimer r) (log r) (revealedCards r).
Definition set_turnTimer v (r : Room) := mkRoom (code r) (players r) (hostId r) (started r) (phase r) (currentPlayer r) (currentBid r) (highestBidder r) (flipsRemaining r) (totalCoastersOnTable r) (roundNum r) (firstPlacement r) (nextRoundStarter r) (penaltyPlayer r) (turnDeadline r) v (log r) (revealedCards r).
Definition set_log v (r : Room) := mkRoom (code r) (players r) (hostId r) (started r) (phase r) (currentPlayer r) (currentBid r) (highestBidder r) (flipsRemaining r) (totalCoastersOnTable r) (roundNum r) (firstPlacement r) (nextRoundStarter r) (penaltyPlayer r) (turnDeadline r) (turnTimer r) v (revealedCards r).
Definition set_revealedCards v (r : Room) := mkRoom (code r) (players r) (hostId r) (started r) (phase r) (currentPlayer r) (currentBid r) (highestBidder r) (flipsRemaining r) (totalCoastersOnTable r) (roundNum r) (firstPlacement r) (nextRoundStarter r) (penaltyPlayer r) (turnDeadline r) (turnTimer r) (log r) v.

Definition set_room v (w : World) := mkWorld v (timers w) (deferred w) (nextHandle w) (outbox w).
Definition set_timers v (w : World) := mkWorld (room w) v (deferred w) (nextHandle w) (outbox w).
Definition set_deferred v (w : World) := mkWorld (room w) (timers w) v (nextHandle w) (outbox w).
Definition set_nextHandle v (w : World) := mkWorld (room w) (timers w) (deferred w) v (outbox w).
Definition set_outbox v (w : World) := mkWorld (room w) (timers w) (deferred w) (nextHandle w) v.

(** [room.f = v] inside a handler that holds the world. *)
Definition onRoom (f : Room → Room) (w : World) : World := set_room (f (room w)) w.

(** ** Helpers *)

(** [room.players[i]]; [None] is [undefined]. *)
Definition getP (r : Room) (i : Z) : option Player :=
  if decide (0 ≤ i) then players r !! Z.to_nat i else None.

(** In-place mutation of the seat object [room.players[i]]. *)
Definition updP (i : Z) (f : Player → Player) (r : Room) : Room :=
  set_players (alter f (Z.to_nat i) (players r)) r.

(** [Array.prototype.findIndex]. *)
Definition findIndex {A} (f : A → bool) (l : list A) : Z :=
  match list_find (λ x, f x = true) l with
  | Some (i, _) => Z.of_nat i
  | None => -1
  end.

Definition playerIndex (r : Room) (socketId : string) : Z :=
  findIndex (λ p, bool_decide (pid p = socketId)) (players r).

Definition activePlayers (r : Room) : list Player :=
  List.filter (λ p, negb (eliminated p)) (players r).

(** The loop of [findNextActive] over the remaining values of [i]. *)
Fixpoint findNextActive_loop (r : Room) (from n : Z) (todo : list Z) : option Z :=
  match todo with
  | [] => Some (-1)
  | i :: todo' =>
      let idx := Z.rem (from + i) n in
      p ← getP r idx;
      if negb (eliminated p) then Some idx else findNextActive_loop r from n todo'
  end.

Definition findNextActive (r : Room) (from : Z) : option Z :=
  let n := Z.of_nat (length (players r)) in
  findNextActive_loop r from n (seqZ 0 n).

Fixpoint nextActiveUnpassed_loop (r : Room) (from n : Z) (todo : list Z) : option Z :=
  match todo with
  | [] => Some (-1)
  | i :: todo' =>
      let idx := Z.rem (from + i) n in
      p ← getP r idx;
      if negb (eliminated p) && negb (passed p) then Some idx
      else nextActiveUnpassed_loop r from n todo'
  end.

Definition nextActiveUnpassed (r : Room) (from : Z) : option Z :=
  let n := Z.of_nat (length (players r)) in
  nextActiveUnpassed_loop r from n (seqZ 1 n).

Definition countOnTable (r : Room) : Z :=
  foldl (λ sum p, sum + Z.of_nat (length (stack p))) 0 (players r).

Definition addLog (msg : LogMsg) (r : Room) : Room :=
  let l := log r ++ [msg] in
  set_log (if 100 <? Z.of_nat (length l) then drop 1 l else l) r.

(** [clearTimeout(h)] on the store of pending deadline timers. *)
Definition clearTimeout (h : nat) (ts : list (nat * Callback)) : list (nat * Callback) :=
  List.filter (λ t, negb (Nat.eqb (fst t) h)) ts.

Definition clearTurnTimer (w : World) : World :=
  let w := match turnTimer (room w) with
           | Some h => onRoom (set_turnTimer None) (set_timers (clearTimeout h (timers w)) w)
           | None => w
           end in
  onRoom (set_turnDeadline 0) w.

Definition startTurnTimer (now : Z) (w : World) (seconds : Z) (callback : Callback) : World :=
  let w := clearTurnTimer w in
  let w := onRoom (set_turnDeadline (now + seconds * 1000)) w in
  let h := nextHandle w in
  onRoom (set_turnTimer (Some h))
    (set_nextHandle (S h) (set_timers (timers w ++ [(h, callback)]) w)).

(** ** The state projector *)

Definition projectPlayer (myIdx : Z) (i : nat) (p : Player) : View.player :=
  {| View.name := name p;
     View.handCount := Z.of_nat (length (hand p));
     View.hand := if Z.of_nat i =? myIdx then Some (hand p) else None;
     View.stackCount := Z.of_nat (length (stack p));
     View.totalCards := Z.of_nat (length (cards p));
     View.wins := wins p;
     View.eliminated := eliminated p;
     View.passed := passed p;
     View.connected := connected p;
     View.isMe := Z.of_nat i =? myIdx;
     View.colorIndex := colorIndex p |}.

Definition stateForPlayer (r : Room) (socketId : string) : option View.t :=
  let myIdx := playerIndex r socketId in
  pc ← (if bool_decide (phase r = Penalty) && (penaltyPlayer r =? myIdx)
        then me ← getP r myIdx; Some (Some (cards me))
        else Some None);
  Some {| View.code := code r;
          View.started := started r;
          View.players := imap (projectPlayer myIdx) (players r);
          View.hostId := hostId r;
          View.isHost := bool_decide (socketId = hostId r);
          View.myIndex := myIdx;
          View.phase := phase r;
          View.currentPlayer := currentPlayer r;
          View.currentBid := currentBid r;
          View.highestBidder := highestBidder r;
          View.flipsRemaining := flipsRemaining r;
          View.totalCoastersOnTable := totalCoastersOnTable r;
          View.roundNum := roundNum r;
          View.firstPlacement := firstPlacement r;
          View.log := drop (length (log r) - 40)%nat (log r);
          View.revealedCards := revealedCards r;
          View.penaltyPlayer := penaltyPlayer r;
          View.penaltyCards := pc;
          View.turnDeadline := turnDeadline r |}.

Definition broadcastState (w : World) : option World :=
  vs ← mapM (λ p, v ← stateForPlayer (room w) (pid p); Some (EmitGameState (pid p) v))
            (players (room w));
  Some (set_outbox (outbox w ++ vs) w).

(** ** The round engine *)

Section Engine.

(** The value of [Date.now()] while the event runs. *)
Variable now : Z.
(** The draw of [Math.random()]: [Math.floor(Math.random() * n)] is
    [rnd mod n], any index below [n]. *)
Variable rnd : nat.

Definition schedule (d : Deferred) (w : World) : World :=
  set_deferred (deferred w ++ [d]) w.

Definition gameOver (w : World) (winnerIdx : Z) : option World :=
  let w := clearTurnTimer w in
  let w := onRoom (set_phase GameOver) w in
  winner ← getP (room w) winnerIdx;
  let w := onRoom (addLog (LWinsGame (name winner))) w in
  let w := set_outbox (outbox w ++ [EmitGameOver (code (room w)) (name winner) winnerIdx]) w in
  broadcastState w.

Definition startRound (w : World) : option World :=
  let w := clearTurnTimer w in
  let w := onRoom (λ r,
    set_revealedCards [] (set_firstPlacement true (set_totalCoastersOnTable 0
      (set_flipsRemaining 0 (set_highestBidder (-1) (set_currentBid 0
        (set_phase Placing (set_roundNum (roundNum r + 1) r)))))))) w in
  let w := onRoom (λ r, set_players
    (map (λ p, if eliminated p then p
               else set_passed false (set_stack [] (set_hand (cards p) p)))
         (players r)) r) w in
  let r := room w in
  let rotate := findNextActive r (Z.rem (roundNum r - 1) (Z.of_nat (length (players r)))) in
  first ← (if 0 <=? nextRoundStarter r then
             p ← getP r (nextRoundStarter r);
             if negb (eliminated p) then Some (nextRoundStarter r) else rotate
           else rotate);
  let w := onRoom (set_currentPlayer first) w in
  let w := onRoom (set_nextRoundStarter (-1)) w in
  let w := onRoom (λ r, addLog (LRound (roundNum r)) r) w in
  let w := startTurnTimer now w 20 (CbFirstPlace first) in
  broadcastState w.

Definition startGame (w : World) : option World :=
  let w := onRoom (set_started true) w in
  let w := onRoom (set_roundNum 0) w in
  let w := onRoom (λ r, set_players
    (map (λ p, set_eliminated false (set_wins 0 (set_cards [Rose; Rose; Rose; Skull] p)))
         (players r)) r) w in
  let w := onRoom (addLog LGameStarted) w in
  startRound w.

Definition startFlipping (w : World) : option World :=
  let w := clearTurnTimer w in
  let w := onRoom (set_phase Flipping) w in
  let w := onRoom (λ r, set_flipsRemaining (currentBid r) r) w in
  let w := onRoom (λ r, set_currentPlayer (highestBidder r) r) w in
  let w := onRoom (set_revealedCards []) w in
  bidder ← getP (room w) (highestBidder (room w));
  let w := onRoom (λ r, addLog (LMustFlip (name bidder) (currentBid r)) r) w in
  broadcastState w.

(** The seats still able to act in the bidding: the filter of
    [checkBiddingEnd], also the test of the auto-pass loop. *)
Definition canStillBid (r : Room) (i : nat) (p : Player) : bool :=
  negb (eliminated p) && negb (passed p) && negb (Z.of_nat i =? highestBidder r).

Definition checkBiddingEnd (w : World) : option World :=
  let w := onRoom (λ r, set_totalCoastersOnTable (countOnTable r) r) w in
  let r := room w in
  let active := List.filter (λ ip, canStillBid r (fst ip) (snd ip))
                            (imap (λ i p, (i, p)) (players r)) in
  if (Z.of_nat (length active) =? 0) || (totalCoastersOnTable r <=? currentBid r)
  then startFlipping w
  else broadcastState w.

(** The body of the auto-pass loop of the bid deadline. *)
Definition autoPassAll (r : Room) : Room :=
  let r0 := r in
  let r := set_players
    (imap (λ i p, if canStillBid r0 i p then set_passed true p else p) (players r0)) r0 in
  foldl (λ r m, addLog m r) r
    (concat (imap (λ i p, if canStillBid r0 i p then [LAutoPassed (name p)] else [])
                  (players r0))).

Definition startBidTimer (w : World) : World :=
  startTurnTimer now w 20 CbBid.

Definition players_passed_set_bidder (bidderIdx : Z) (r : Room) : Room :=
  set_players (imap (λ i p, if Z.of_nat i =? bidderIdx then set_passed false p else p)
                    (players r)) r.

Definition handleStartBid (w : World) (pIdx amount : Z) : option World :=
  if negb (bool_decide (phase (room w) = Placing)) then Some w else
  if negb (currentPlayer (room w) =? pIdx) then Some w else
  let p := getP (room w) pIdx in
  if firstPlacement (room w) then Some w else
  let w := onRoom (λ r, set_totalCoastersOnTable (countOnTable r) r) w in
  let maxBid := totalCoastersOnTable (room w) in
  let bidAmount := Z.max 1 (Z.min (if amount =? 0 then 1 else amount) maxBid) in
  let w := onRoom (set_phase Bidding) w in
  let w := onRoom (set_currentBid bidAmount) w in
  let w := onRoom (set_highestBidder pIdx) w in
  let w := onRoom (λ r, set_players (map (set_passed false) (players r)) r) w in
  let w := onRoom (players_passed_set_bidder pIdx) w in
  p ← p;
  let w := onRoom (addLog (LOpened (name p) bidAmount)) w in
  let w := onRoom (set_currentPlayer (-1)) w in
  let w := startBidTimer w in
  checkBiddingEnd w.

Definition advancePlacing (w : World) : option World :=
  n1 ← nextActiveUnpassed (room w) (currentPlayer (room w));
  next ← (if n1 =? -1 then findNextActive (room w) 0 else Some n1);
  let w := onRoom (set_currentPlayer next) w in
  let r := room w in
  let mustBid :=
    match getP r next with
    | Some nextPlayer =>
        negb (eliminated nextPlayer) && (Z.of_nat (length (hand nextPlayer)) =? 0)
        && bool_decide (phase r = Placing) && negb (firstPlacement r)
    | None => false
    end in
  if mustBid then
    let w := clearTurnTimer w in
    w ← broadcastState w;
    Some (schedule (DForceBid next) w)
  else
    let w := startTurnTimer now w 20 (CbPlacing next) in
    broadcastState w.

Definition handlePlace (w : World) (pIdx cardIndex : Z) : option World :=
  if negb (bool_decide (phase (room w) = Placing)) then Some w else
  if negb (currentPlayer (room w) =? pIdx) then Some w else
  p ← getP (room w) pIdx;
  if (cardIndex <? 0) || (Z.of_nat (length (hand p)) <=? cardIndex) then Some w else
  card ← hand p !! Z.to_nat cardIndex;
  let w := onRoom (updP pIdx (λ p,
             set_stack (stack p ++ [card]) (set_hand (delete (Z.to_nat cardIndex) (hand p)) p))) w in
  let w := onRoom (λ r, set_totalCoastersOnTable (countOnTable r) r) w in
  let w := onRoom (addLog (LPlaced (name p))) w in
  let allPlaced := forallb (λ pl, eliminated pl || (0 <? Z.of_nat (length (stack pl))))
                           (players (room w)) in
  let w := if allPlaced then onRoom (set_firstPlacement false) w else w in
  advancePlacing w.

Definition handleRaiseBid (w : World) (pIdx amount : Z) : option World :=
  if negb (bool_decide (phase (room w) = Bidding)) then Some w else
  p ← getP (room w) pIdx;
  if passed p || eliminated p then Some w else
  if pIdx =? highestBidder (room w) then Some w else
  let w := onRoom (λ r, set_totalCoastersOnTable (countOnTable r) r) w in
  if (amount <=? currentBid (room w)) || (totalCoastersOnTable (room w) <? amount) then Some w else
  let w := onRoom (set_currentBid amount) w in
  let w := onRoom (set_highestBidder pIdx) w in
  let w := onRoom (addLog (LBid (name p) amount)) w in
  let w := startBidTimer w in
  checkBiddingEnd w.

Definition handlePass (w : World) (pIdx : Z) : option World :=
  if negb (bool_decide (phase (room w) = Bidding)) then Some w else
  p ← getP (room w) pIdx;
  if passed p || eliminated p then Some w else
  if pIdx =? highestBidder (room w) then Some w else
  let w := onRoom (updP pIdx (set_passed true)) w in
  let w := onRoom (addLog (LPassed (name p))) w in
  checkBiddingEnd w.

Definition handleFlip (w : World) (flipperIdx targetPlayerIdx : Z) : option World :=
  if negb (bool_decide (phase (room w) = Flipping)) then Some w else
  if flipsRemaining (room w) <=? 0 then Some w else
  if negb (flipperIdx =? highestBidder (room w)) then Some w else
  if negb (currentPlayer (room w) =? flipperIdx) then Some w else
  match getP (room w) targetPlayerIdx with
  | None => Some w
  | Some target =>
    if eliminated target || (Z.of_nat (length (stack target)) =? 0) then Some w else
    let flipper := getP (room w) flipperIdx in
    ownStackLeft ← (if negb (targetPlayerIdx =? flipperIdx)
                    then fl ← flipper; Some (0 <? Z.of_nat (length (stack fl)))
                    else Some false);
    if (ownStackLeft : bool) then Some w else
    card ← last (stack target);
    let w := onRoom (updP targetPlayerIdx (λ p, set_stack (removelast (stack p)) p)) w in
    let w := onRoom (λ r, set_totalCoastersOnTable (countOnTable r) r) w in
    let w := onRoom (λ r, set_flipsRemaining (flipsRemaining r - 1) r) w in
    let w := onRoom (λ r, set_revealedCards
               (revealedCards r ++ [Reveal.mk targetPlayerIdx card (name target)]) r) w in
    flipper ← flipper;
    if bool_decide (card = Skull) then
      let w := onRoom (set_phase FlipResult) w in
      let w := onRoom (addLog (LSkull (name flipper) (name target))) w in
      w ← broadcastState w;
      Some (schedule (DPenalize flipperIdx targetPlayerIdx) w)
    else
      let w := onRoom (addLog (LRose (name flipper) (name target))) w in
      if flipsRemaining (room w) <=? 0 then
        let w := onRoom (set_phase FlipResult) w in
        w ← broadcastState w;
        Some (schedule (DChallengeSuccess flipperIdx) w)
      else broadcastState w
  end.

Definition challengeSuccess (w : World) (pIdx : Z) : option World :=
  p ← getP (room w) pIdx;
  let w := onRoom (updP pIdx (λ p, set_wins (wins p + 1) p)) w in
  let w := onRoom (set_nextRoundStarter pIdx) w in
  let w := onRoom (addLog (LWinsPoint (name p) (wins p + 1))) w in
  if 2 <=? wins p + 1 then gameOver w pIdx else
  w ← broadcastState w;
  Some (schedule DStartRound w).

Definition doCardRemoval (w : World) (loserIdx chosenIdx : Z) : option World :=
  p ← getP (room w) loserIdx;
  let n := length (cards p) in
  let w :=
    if 0 <? Z.of_nat n then
      let removeIdx := if (0 <=? chosenIdx) && (chosenIdx <? Z.of_nat n)
                       then Z.to_nat chosenIdx else (rnd mod n)%nat in
      let w := onRoom (updP loserIdx (λ p, set_cards (delete removeIdx (cards p)) p)) w in
      onRoom (addLog (LLoses (name p) (Z.of_nat (n - 1)))) w
    else w in
  p ← getP (room w) loserIdx;
  let w :=
    if Z.of_nat (length (cards p)) =? 0 then
      let w := onRoom (updP loserIdx (λ p,
                 set_stack [] (set_hand [] (set_eliminated true p)))) w in
      onRoom (addLog (LEliminated (name p))) w
    else w in
  let w := onRoom (set_penaltyPlayer (-1)) w in
  let alive := activePlayers (room w) in
  if Z.of_nat (length alive) <=? 1 then
    (* room.players.indexOf(alive[0]): the first non-eliminated seat, or -1 *)
    gameOver w (findIndex (λ pl, negb (eliminated pl)) (players (room w)))
  else
    w ← broadcastState w;
    Some (schedule DStartRound w).

Definition penalize (w : World) (loserIdx skullerIdx : Z) : option World :=
  let w := onRoom (set_nextRoundStarter
             (if loserIdx =? skullerIdx then loserIdx else skullerIdx)) w in
  p ← getP (room w) loserIdx;
  if (loserIdx =? skullerIdx) && (1 <? Z.of_nat (length (cards p))) then
    let w := onRoom (set_phase Penalty) w in
    let w := onRoom (set_penaltyPlayer loserIdx) w in
    let w := onRoom (addLog (LChooseDiscard (name p))) w in
    broadcastState w
  else doCardRemoval w loserIdx (-1).

Definition handlePenaltyDiscard (w : World) (pIdx cardIndex : Z) : option World :=
  if negb (bool_decide (phase (room w) = Penalty)) then Some w else
  if negb (penaltyPlayer (room w) =? pIdx) then Some w else
  p ← getP (room w) pIdx;
  if (cardIndex <? 0) || (Z.of_nat (length (cards p)) <=? cardIndex) then Some w else
  doCardRemoval w pIdx cardIndex.

(** ** Timer and presentation-delay callbacks *)

(** The body of a deadline callback, re-validating before it acts. *)
Definition runCallback (cb : Callback) (w : World) : option World :=
  match cb with
  | CbFirstPlace firstPlayer =>
      if negb (bool_decide (phase (room w) = Placing))
         || negb (currentPlayer (room w) =? firstPlayer) then Some w else
      p ← getP (room w) firstPlayer;
      if 0 <? Z.of_nat (length (hand p)) then handlePlace w firstPlayer 0 else Some w
  | CbPlacing next =>
      if negb (bool_decide (phase (room w) = Placing))
         || negb (currentPlayer (room w) =? next) then Some w else
      let nextPlayer := getP (room w) next in
      autoBid ← (if negb (firstPlacement (room w))
                 then np ← nextPlayer; Some (0 <? Z.of_nat (length (stack np)))
                 else Some false);
      if (autoBid : bool) then handleStartBid w next 1 else
      np ← nextPlayer;
      if 0 <? Z.of_nat (length (hand np)) then handlePlace w next 0 else Some w
  | CbBid =>
      if negb (bool_decide (phase (room w) = Bidding)) then Some w else
      checkBiddingEnd (onRoom autoPassAll w)
  end.

(** Expiry of the [k]-th pending deadline: the wrapper installed by
    [startTurnTimer] forgets the handle and the deadline, then runs the
    callback. *)
Definition fireTimer (w : World) (k : nat) : option World :=
  match timers w !! k with
  | None => Some w
  | Some (_, cb) =>
      let w := set_timers (delete k (timers w)) w in
      let w := onRoom (set_turnTimer None) w in
      let w := onRoom (set_turnDeadline 0) w in
      runCallback cb w
  end.

Definition runDeferred (d : Deferred) (w : World) : option World :=
  match d with
  | DForceBid next =>
      if bool_decide (phase (room w) = Placing) && (currentPlayer (room w) =? next)
      then handleStartBid w next 1 else Some w
  | DPenalize flipperIdx targetPlayerIdx => penalize w flipperIdx targetPlayerIdx
  | DChallengeSuccess pIdx => challengeSuccess w pIdx
  | DStartRound => startRound w
  end.

Definition fireDeferred (w : World) (k : nat) : option World :=
  match deferred w !! k with
  | None => Some w
  | Some d => runDeferred d (set_deferred (delete k (deferred w)) w)
  end.

(** ** Text helpers (ASCII text) *)

Definition isSpace (a : ascii) : bool :=
  let n := nat_of_ascii a in
  (Nat.eqb n 32 || (Nat.leb 9 n && Nat.leb n 13))%bool.

Fixpoint trimStart (s : string) : string :=
  match s with
  | String a s' => if isSpace a then trimStart s' else s
  | EmptyString => EmptyString
  end.

Definition trim (s : string) : string :=
  String.rev (trimStart (String.rev (trimStart s))).

Definition upperChar (a : ascii) : ascii :=
  let n := nat_of_ascii a in
  if (Nat.leb 97 n && Nat.leb n 122)%bool then ascii_of_nat (n - 32) else a.

Definition lowerChar (a : ascii) : ascii :=
  let n := nat_of_ascii a in
  if (Nat.leb 65 n && Nat.leb n 90)%bool then ascii_of_nat (n + 32) else a.

Fixpoint mapChars (f : ascii → ascii) (s : string) : string :=
  match s with
  | String a s' => String (f a) (mapChars f s')
  | EmptyString => EmptyString
  end.

Definition toUpperCase : string → string := mapChars upperChar.
Definition toLowerCase : string → string := mapChars lowerChar.

(** [s.slice(0, n)] *)
Definition slice0 (n : nat) (s : string) : string := substring 0 n s.

(** [s.replace(/c/g, by)] for a single character [c]. *)
Fixpoint replaceAll (c : ascii) (by_ : string) (s : string) : string :=
  match s with
  | String a s' =>
      if Ascii.eqb a c then by_ +:+ replaceAll c by_ s'
      else String a (replaceAll c by_ s')
  | EmptyString => EmptyString
  end.

Definition sanitizeHtml (str : string) : string :=
  replaceAll ">" "&gt;" (replaceAll "<" "&lt;" (replaceAll "&" "&amp;" str)).

(** [s || dflt] on strings: the empty string is falsy. *)
Definition orElse (s dflt : string) : string :=
  if bool_decide (s = "") then dflt else s.

(** ** Socket handlers, for the room the socket is bound to *)

Inductive JoinError := RoomNotFound | GameInProgress | RoomFull | NameTaken.
Inductive JoinReply := JoinOk (roomCode : string) | JoinFail (e : JoinError).

Definition newPlayer (socketId nm : string) (color : Z) : Player :=
  mkPlayer socketId nm [] [] [] 0 false false true color None.

Definition newRoom (roomCode hostId hostName : string) : Room :=
  mkRoom roomCode [newPlayer hostId hostName 0] hostId false PNone 0 0 (-1) 0 0 0 true
         (-1) (-1) 0 None [] [].

(** The part of the [joinRoom] handler that runs once the room is found. *)
Definition joinFound (w : World) (roomCode socketId nm : string)
  : option (JoinReply * World) :=
  let r := room w in
  if started r then
    match list_find (λ p, name p = nm ∧ connected p = false) (players r) with
    | Some (i, existing) =>
        let w := onRoom (updP (Z.of_nat i) (λ p, set_connected true (set_pid socketId p))) w in
        w ← broadcastState w;
        Some (JoinOk roomCode, w)
    | None => Some (JoinFail GameInProgress, w)
    end
  else if 6 <=? Z.of_nat (length (players r)) then Some (JoinFail RoomFull, w)
  else if existsb (λ p, bool_decide (name p = nm)) (players r) then Some (JoinFail NameTaken, w)
  else
    let w := onRoom (λ r, set_players
               (players r ++ [newPlayer socketId nm (Z.of_nat (length (players r)))]) r) w in
    let w := onRoom (addLog (LJoined nm)) w in
    w ← broadcastState w;
    Some (JoinOk roomCode, w).

Definition onStartGame (w : World) (socketId : string) : option World :=
  if started (room w) then Some w else
  if negb (bool_decide (socketId = hostId (room w))) then Some w else
  if Z.of_nat (length (players (room w))) <? 2 then Some w else
  startGame w.

(** The common prologue of the in-game handlers: the room must have
    started and the socket must own a seat. *)
Definition withSeat (w : World) (socketId : string) (k : Z → option World) : option World :=
  if negb (started (room w)) then Some w else
  let pIdx := playerIndex (room w) socketId in
  if pIdx =? -1 then Some w else k pIdx.

Definition onPlaceCard (w : World) (socketId : string) (cardIndex : Z) : option World :=
  withSeat w socketId (λ pIdx, handlePlace w pIdx cardIndex).

Definition onStartBid (w : World) (socketId : string) (amount : Z) : option World :=
  withSeat w socketId (λ pIdx, handleStartBid w pIdx amount).

Definition onRaiseBid (w : World) (socketId : string) (amount : Z) : option World :=
  withSeat w socketId (λ pIdx, handleRaiseBid w pIdx amount).

Definition onPass (w : World) (socketId : string) : option World :=
  withSeat w socketId (λ pIdx, handlePass w pIdx).

Definition onFlipCoaster (w : World) (socketId : string) (targetIdx : Z) : option World :=
  withSeat w socketId (λ pIdx, handleFlip w pIdx targetIdx).

Definition onPenaltyDiscard (w : World) (socketId : string) (cardIndex : Z) : option World :=
  withSeat w socketId (λ pIdx, handlePenaltyDiscard w pIdx cardIndex).

Definition onChatMessage (w : World) (socketId msg : string) : option World :=
  let pIdx := playerIndex (room w) socketId in
  if pIdx =? -1 then Some w else
  p ← getP (room w) pIdx;
  let text := sanitizeHtml (slice0 200 (trim msg)) in
  if bool_decide (text = "") then Some w else
  let limited := match lastChatTime p with
                 | Some t => negb (t =? 0) && (now - t <? 1000)
                 | None => false
                 end in
  if limited then Some w else
  let w := onRoom (updP pIdx (set_lastChatTime (Some now))) w in
  let w := onRoom (addLog (LChat (name p) text)) w in
  broadcastState w.

Definition onDougLose (w : World) (socketId : string) : option World :=
  let pIdx := playerIndex (room w) socketId in
  if pIdx =? -1 then Some w else
  p ← getP (room w) pIdx;
  if negb (bool_decide (toLowerCase (name p) = "pat-wins")) then Some w else
  let w := onRoom (addLog (LDoug (name p))) w in
  let w := set_outbox (outbox w ++ [EmitDougLose (code (room w))]) w in
  broadcastState w.

Definition onPlayAgain (w : World) (socketId : string) : option World :=
  if negb (bool_decide (socketId = hostId (room w))) then Some w else
  let w := onRoom (set_started false) w in
  let w := onRoom (set_phase PNone) w in
  let w := onRoom (set_log []) w in
  let w := onRoom (set_revealedCards []) w in
  let w := onRoom (λ r, set_players
    (map (λ p, set_passed false (set_eliminated false (set_wins 0
                 (set_stack [] (set_hand [] (set_cards [] p))))))
         (players r)) r) w in
  let w := onRoom (addLog LReset) w in
  broadcastState w.

(** In the lobby the seat is removed; a room left empty is dropped from
    the registry by the caller and nothing is broadcast. *)
Definition onDisconnect (w : World) (socketId : string) : option World :=
  let pIdx := playerIndex (room w) socketId in
  if pIdx =? -1 then Some w else
  if negb (started (room w)) then
    let w := onRoom (λ r, set_players (delete (Z.to_nat pIdx) (players r)) r) w in
    match players (room w) with
    | [] => Some w
    | first :: _ =>
        let w := if bool_decide (socketId = hostId (room w))
                 then onRoom (set_hostId (pid first)) w else w in
        broadcastState w
    end
  else
    p ← getP (room w) pIdx;
    let w := onRoom (updP pIdx (set_connected false)) w in
    let w := onRoom (addLog (LDisconnected (name p))) w in
    broadcastState w.

(** ** Events of a room *)

Inductive Event :=
| EJoin (socketId nm : string)
| EStartGame (socketId : string)
| EPlaceCard (socketId : string) (cardIndex : Z)
| EStartBid (socketId : string) (amount : Z)
| ERaiseBid (socketId : string) (amount : Z)
| EPass (socketId : string)
| EFlipCoaster (socketId : string) (targetIdx : Z)
| EPenaltyDiscard (socketId : string) (cardIndex : Z)
| EChatMessage (socketId msg : string)
| EDougLose (socketId : string)
| EPlayAgain (socketId : string)
| EDisconnect (socketId : string)
| ETimer (k : nat)
| EDeferred (k : nat).

Definition dispatch (w : World) (ev : Event) : option World :=
  match ev with
  | EJoin socketId nm => snd <$> joinFound w (code (room w)) socketId nm
  | EStartGame socketId => onStartGame w socketId
  | EPlaceCard socketId cardIndex => onPlaceCard w socketId cardIndex
  | EStartBid socketId amount => onStartBid w socketId amount
  | ERaiseBid socketId amount => onRaiseBid w socketId amount
  | EPass socketId => onPass w socketId
  | EFlipCoaster socketId targetIdx => onFlipCoaster w socketId targetIdx
  | EPenaltyDiscard socketId cardIndex => onPenaltyDiscard w socketId cardIndex
  | EChatMessage socketId msg => onChatMessage w socketId msg
  | EDougLose socketId => onDougLose w socketId
  | EPlayAgain socketId => onPlayAgain w socketId
  | EDisconnect socketId => onDisconnect w socketId
  | ETimer k => fireTimer w k
  | EDeferred k => fireDeferred w k
  end.

(** One event, run to completion; the outbox holds what this event emitted. *)
Definition step (w : World) (ev : Event) : option World :=
  dispatch (set_outbox [] w) ev.

End Engine.

(** ** The room registry *)

Definition joinRoom (rooms : gmap string World) (socketId : string)
    (dataCode dataName : option string)
  : option (JoinReply * gmap string World) :=
  let roomCode := trim (toUpperCase (default "" dataCode)) in
  let nm := orElse (slice0 16 (trim (default "" dataName))) "Player" in
  match rooms !! roomCode with
  | None => Some (JoinFail RoomNotFound, rooms)
  | Some w =>
      res ← joinFound w roomCode socketId nm;
      Some (fst res, <[roomCode := snd res]> rooms)
  end.

(** * Specification-level definitions *)

(** Room creation: a fresh room with the host seated, then the first
    broadcast ([createRoom] handler, for a room code [roomCode] drawn by
    [genCode]). *)
Definition createRoom (roomCode socketId nm : string) : option World :=
  broadcastState
    (mkWorld (newRoom roomCode socketId (orElse (slice0 16 (trim nm)) "Host")) [] [] 0 []).

(** The store of pending deadline timers holds exactly the timer whose
    handle the room remembers. *)
Definition timers_ok (w : World) : Prop :=
  match turnTimer (room w) with
  | Some h => ∃ cb, timers w = [(h, cb)]
  | None => timers w = []
  end.

(** Every world a room can be in: from its creation, by any sequence of
    events, each run to completion. *)
Inductive reachable : World → Prop :=
| reach_create roomCode socketId nm w :
    createRoom roomCode socketId nm = Some w → reachable w
| reach_step now rnd w ev w' :
    reachable w → step now rnd w ev = Some w' → reachable w'.

(** No presentation delay is pending and the timer store is consistent:
    the state of a lobby in which no earlier game is still winding down. *)
Definition quiescent (w : World) : Prop :=
  deferred w = [] ∧ timers_ok w.

Definition isReset (ev : Event) : bool :=
  match ev with EPlayAgain _ => true | _ => false end.

(** The worlds of one game: from the host's accepted start-game in a
    quiescent lobby, through any events (player actions, joins and
    disconnections, expired deadlines and presentation delays, in any
    order) up to a host reset, which ends the game. *)
Inductive inGame : World → Prop :=
| game_start now rnd w socketId w' :
    quiescent w → started (room w) = false →
    step now rnd w (EStartGame socketId) = Some w' →
    started (room w') = true →
    inGame w'
| game_step now rnd w ev w' :
    inGame w → isReset ev = false → step now rnd w ev = Some w' → inGame w'.

(** The condition under which a flip is applied, as the specification
    words it. *)
Definition flipLegal (r : Room) (flipperIdx targetPlayerIdx : Z) : bool :=
  (flipperIdx =? highestBidder r) && (currentPlayer r =? flipperIdx)
  && (0 <? flipsRemaining r)
  && match getP r targetPlayerIdx with
     | Some target => negb (eliminated target) && negb (bool_decide (stack target = []))
     | None => false
     end
  && ((targetPlayerIdx =? flipperIdx)
      || match getP r flipperIdx with
         | Some flipper => bool_decide (stack flipper = [])
         | None => false
         end).

(** The condition under which a raise is accepted, as the specification
    words it. *)
Definition raiseLegal (r : Room) (pIdx amount : Z) : bool :=
  bool_decide (phase r = Bidding)
  && match getP r pIdx with
     | Some p => negb (passed p) && negb (eliminated p)
     | None => false
     end
  && negb (pIdx =? highestBidder r)
  && (currentBid r <? amount) && (amount <=? countOnTable r).

(** The condition under which a pass is applied. *)
Definition passLegal (r : Room) (pIdx : Z) : bool :=
  bool_decide (phase r = Bidding)
  && match getP r pIdx with
     | Some p => negb (passed p) && negb (eliminated p)
     | None => false
     end
  && negb (pIdx =? highestBidder r).

(** The condition under which a token is placed. *)
Definition placeLegal (r : Room) (pIdx cardIndex : Z) : bool :=
  bool_decide (phase r = Placing) && (currentPlayer r =? pIdx)
  && match getP r pIdx with
     | Some p => (0 <=? cardIndex) && (cardIndex <? Z.of_nat (length (hand p)))
     | None => false
     end.

(** The condition under which a penalty discard is applied. *)
Definition discardLegal (r : Room) (pIdx cardIndex : Z) : bool :=
  bool_decide (phase r = Penalty) && (penaltyPlayer r =? pIdx)
  && match getP r pIdx with
     | Some p => (0 <=? cardIndex) && (cardIndex <? Z.of_nat (length (cards p)))
     | None => false
     end.

(** [handlePlace] on the seat: the token leaves the hand for the top of
    the stack. *)
Definition placeToken (k : nat) (card : Card) (p : Player) : Player :=
  set_stack (stack p ++ [card]) (set_hand (delete k (hand p)) p).

(** [doCardRemoval] on the loser's seat: token [k] is removed, and a seat
    left without tokens is eliminated, its hand and stack cleared. *)
Definition afterRemoval (k : nat) (p : Player) : Player :=
  let p := set_cards (delete k (cards p)) p in
  if Z.of_nat (length (cards p)) =? 0
  then set_stack [] (set_hand [] (set_eliminated true p)) else p.

(** Every non-eliminated seat other than the highest bidder has passed. *)
Definition allOthersPassed (r : Room) : Prop :=
  ∀ i p, players r !! i = Some p → eliminated p = false →
         Z.of_nat i ≠ highestBidder r → passed p = true.

(** The state that justified scheduling a deadline callback. *)
Definition justified (cb : Callback) (r : Room) : Prop :=
  match cb with
  | CbFirstPlace seat | CbPlacing seat => phase r = Placing ∧ currentPlayer r = seat
  | CbBid => phase r = Bidding
  end.

(** Number of reveal records of the current flip sequence that belong to
    seat [i]. *)
Definition revealedOf (r : Room) (i : nat) : nat :=
  length (List.filter (λ rc, Reveal.playerIndex rc =? Z.of_nat i) (revealedCards r)).

(** The cached table count agrees with the stacks, in a projected view. *)
Definition viewCacheOk (v : View.t) : Prop :=
  View.totalCoastersOnTable v = foldr (λ vp s, View.stackCount vp + s) 0 (View.players v).

Definition tablePhase (ph : Phase) : bool :=
  match ph with Placing | Bidding | Flipping => true | _ => false end.

(** Presentation delays that resolve a flip sequence (all but the forced
    opening bid). *)
Definition resolution (d : Deferred) : bool :=
  match d with DForceBid _ => false | _ => true end.

Definition pendingRes (w : World) : list Deferred := List.filter resolution (deferred w).

(** Seat [i] exists and is not eliminated. *)
Definition seatOK (r : Room) (i : Z) : Prop :=
  ∃ p, getP r i = Some p ∧ eliminated p = false.

(** Seat [j]'s hand replaced by [h']. *)
Definition replaceHand (j : nat) (h' : list Card) (r : Room) : Room :=
  updP (Z.of_nat j) (set_hand h') r.

(** The reconnection path: the seat is bound to the new connection. *)
Definition rebind (socketId : string) (p : Player) : Player :=
  set_connected true (set_pid socketId p).


(** ** The invariant of a running game *)

(** [|hand| + |stack|], plus the tokens of the seat already revealed in the
    current flip sequence, is [|cards|], for every non-eliminated seat. *)
Definition balanced (r : Room) : Prop :=
  ∀ i p, players r !! i = Some p → eliminated p = false →
    (length (hand p) + length (stack p) + revealedOf r i = length (cards p))%nat.

Definition cacheOk (r : Room) : Prop :=
  totalCoastersOnTable r = countOnTable r.

(** At least two seats are still in the game. *)
Definition twoAlive (r : Room) : Prop := (2 ≤ length (activePlayers r))%nat.

(** *** The game view of a world

    The invariant speaks of the tokens and the elimination flag of each
    seat and of the counters of the round; identities, connection flags,
    wins, pass flags, the log and the deadline timestamp play no part in
    it.  The view keeps exactly what the invariant reads. *)

Record Seat := mkSeat {
  s_cards : list Card;
  s_hand : list Card;
  s_stack : list Card;
  s_elim : bool
}.

Definition seatOf (p : Player) : Seat :=
  mkSeat (cards p) (hand p) (stack p) (eliminated p).

Record Game := mkGame {
  g_seats : list Seat;
  g_started : bool;
  g_phase : Phase;
  g_cur : Z;
  g_bid : Z;
  g_hb : Z;
  g_total : Z;
  g_round : Z;
  g_nrs : Z;
  g_pp : Z;
  g_fp : bool;
  g_rev : list Z;                      (* seat index of each reveal record *)
  g_timer : option nat;
  g_timers : list (nat * Callback);
  g_pending : list Deferred            (* pending resolution delays *)
}.

Definition gameOf (w : World) : Game :=
  let r := room w in
  mkGame (map seatOf (players r)) (started r) (phase r) (currentPlayer r) (currentBid r)
         (highestBidder r) (totalCoastersOnTable r) (roundNum r) (nextRoundStarter r)
         (penaltyPlayer r) (firstPlacement r) (map Reveal.playerIndex (revealedCards r))
         (turnTimer r) (timers w) (pendingRes w).

(** [l[i]] for a JavaScript index. *)
Definition lookupZ {A} (l : list A) (i : Z) : option A :=
  if decide (0 ≤ i) then l !! Z.to_nat i else None.

Definition aliveAt (ss : list Seat) (i : Z) : Prop :=
  ∃ s, lookupZ ss i = Some s ∧ s_elim s = false.

Definition sumStacks (ss : list Seat) : Z :=
  foldl (λ sum s, sum + Z.of_nat (length (s_stack s))) 0 ss.

Definition aliveSeats (ss : list Seat) : list Seat :=
  List.filter (λ s, negb (s_elim s)) ss.

Definition revCount (rev : list Z) (i : nat) : nat :=
  length (List.filter (λ j, j =? Z.of_nat i) rev).

Definition seatsBalanced (ss : list Seat) (rev : list Z) : Prop :=
  ∀ i s, ss !! i = Some s → s_elim s = false →
    (length (s_hand s) + length (s_stack s) + revCount rev i = length (s_cards s))%nat.

Definition timersOk (t : option nat) (ts : list (nat * Callback)) : Prop :=
  match t with
  | Some h => ∃ cb, ts = [(h, cb)]
  | None => ts = []
  end.

(** What holds of the seats and counters in every phase of a game. *)
Record CoreInv (g : Game) : Prop := {
  ci_started : g_started g = true;
  ci_timers : timersOk (g_timer g) (g_timers g);
  ci_round : 0 ≤ g_round g;
  ci_nrs : g_nrs g < Z.of_nat (length (g_seats g));
  ci_cards : ∀ i s, g_seats g !! i = Some s → s_elim s = false → s_cards s ≠ [];
  ci_elim : ∀ i s, g_seats g !! i = Some s → s_elim s = true →
                   s_cards s = [] ∧ s_hand s = [] ∧ s_stack s = []
}.

Definition PhaseInv (g : Game) : Prop :=
  let ss := g_seats g in
  match g_phase g with
  | PNone => False
  | Placing =>
      (2 ≤ length (aliveSeats ss))%nat ∧ g_pending g = [] ∧ g_rev g = []
      ∧ seatsBalanced ss [] ∧ g_total g = sumStacks ss
      ∧ aliveAt ss (g_cur g)
      ∧ (g_fp g = false → ∀ i s, ss !! i = Some s → s_elim s = false → s_stack s ≠ [])
  | Bidding =>
      (2 ≤ length (aliveSeats ss))%nat ∧ g_pending g = [] ∧ g_rev g = []
      ∧ seatsBalanced ss [] ∧ g_total g = sumStacks ss
      ∧ aliveAt ss (g_hb g)
      ∧ 1 ≤ g_bid g ≤ g_total g
      ∧ g_cur g = -1
  | Flipping =>
      (2 ≤ length (aliveSeats ss))%nat ∧ g_pending g = [] ∧ g_timers g = []
      ∧ seatsBalanced ss (g_rev g) ∧ g_total g = sumStacks ss
      ∧ aliveAt ss (g_hb g)
      ∧ g_cur g = g_hb g
  | FlipResult =>
      (2 ≤ length (aliveSeats ss))%nat ∧ g_timers g = []
      ∧ ((∃ t, g_pending g = [DPenalize (g_hb g) t]
               ∧ g_cur g = g_hb g ∧ aliveAt ss (g_hb g)
               ∧ is_Some (lookupZ ss t))
         ∨ (g_pending g = [DChallengeSuccess (g_hb g)] ∧ aliveAt ss (g_hb g))
         ∨ g_pending g = [DStartRound])
  | Penalty =>
      (2 ≤ length (aliveSeats ss))%nat ∧ g_timers g = []
      ∧ ((g_pending g = [] ∧ g_pp g = g_hb g ∧ g_cur g = g_hb g ∧ aliveAt ss (g_hb g))
         ∨ (g_pending g = [DStartRound] ∧ g_pp g = -1))
  | GameOver => g_pending g = [] ∧ g_timers g = []
  end.

Definition GI (g : Game) : Prop := CoreInv g ∧ PhaseInv g.

Definition GInv (w : World) : Prop := GI (gameOf w).

(** *** What the handlers do to one seat, in the game view *)

(** Start of a round: the hand is dealt again from the remaining tokens. *)
Definition resetSeat (s : Seat) : Seat :=
  if s_elim s then s else mkSeat (s_cards s) (s_cards s) [] (s_elim s).

(** [handlePlace]: hand token [k] goes on top of the stack. *)
Definition placeSeat (k : nat) (card : Card) (s : Seat) : Seat :=
  mkSeat (s_cards s) (delete k (s_hand s)) (s_stack s ++ [card]) (s_elim s).

(** [handleFlip]: the top of the stack is taken off. *)
Definition popSeat (s : Seat) : Seat :=
  mkSeat (s_cards s) (s_hand s) (removelast (s_stack s)) (s_elim s).

(** [doCardRemoval]: token [k] is lost for good. *)
Definition removeCard (k : nat) (s : Seat) : Seat :=
  mkSeat (delete k (s_cards s)) (s_hand s) (s_stack s) (s_elim s).

(** [doCardRemoval]: a seat without tokens leaves the game. *)
Definition elimSeat (s : Seat) : Seat := mkSeat (s_cards s) [] [] true.

(** Nothing projected has been emitted yet by the running event. *)
Definition quiet (w : World) : Prop :=
  ∀ to v, EmitGameState to v ∉ outbox w.

(** Every projection in the outbox is the projection of the final room. *)
Definition out_ok (w : World) : Prop :=
  ∀ to v, EmitGameState to v ∈ outbox w → stateForPlayer (room w) to = Some v.

(** ** A concrete session, for the examples *)

Definition runEvents (now : Z) (rnd : nat) (w : World) (evs : list Event) : option World :=
  foldl (λ ow ev, ow ≫= λ w, step now rnd w ev) (Some w) evs.

Definition emptyWorld : World := mkWorld (newRoom "" "" "") [] [] 0 [].

(** Ann creates room ABCD and Bob joins. *)
Definition demoCreated : World :=
  default emptyWorld (createRoom "ABCD" "a" "Ann").

Definition demoLobby : World :=
  default emptyWorld (step 0 0 demoCreated (EJoin "b" "Bob")).

(** Ann starts the game: round 1, her placing turn, a deadline pending. *)
Definition demoPlacing : World :=
  default emptyWorld (step 1000 0 demoLobby (EStartGame "a")).

(** Ann starts; each places the first hand token (a rose); Ann bids 2,
    which is the whole table, so the flipping starts at once. *)
Definition demoFlipping : World :=
  default emptyWorld
    (runEvents 1000 0 demoLobby
       [EStartGame "a"; EPlaceCard "a" 0; EPlaceCard "b" 0; EStartBid "a" 2]).

(** Ann has flipped her own rose: one flip left. *)
Definition demoFlipped : World :=
  default emptyWorld (step 2000 0 demoFlipping (EFlipCoaster "a" 0)).

(** Bob's connection ends during the flipping; the registry holds the room. *)
Definition demoBobLeft : World :=
  default emptyWorld (step 3000 0 demoFlipping (EDisconnect "b")).

(** Both have placed a rose: the first placement round is over. *)
Definition demoAllPlaced : World :=
  default emptyWorld
    (runEvents 1000 0 demoLobby [EStartGame "a"; EPlaceCard "a" 0; EPlaceCard "b" 0]).

(** Ann opens at 1 of the 2 tokens on the table: Bob may still raise. *)
Definition demoBidding : World :=
  default emptyWorld (step 1500 0 demoAllPlaced (EStartBid "a" 1)).

(** After her own rose Ann flips Bob's: the challenge is met, its
    presentation delay is pending. *)
Definition demoFlipResult : World :=
  default emptyWorld (step 2500 0 demoFlipped (EFlipCoaster "a" 1)).

(** Bob chats during Ann's turn, five seconds in. *)
Definition demoChat : World :=
  default emptyWorld (step 5000 0 demoPlacing (EChatMessage "b" " <b>hi</b> ")).

(** Cy joins and wins the first challenge, so that the next-round starter
    is seat 2; the host resets before the next round starts and Cy leaves
    the lobby: two seats are left, the remembered starter is still 2. *)
Definition demoStale : World :=
  default emptyWorld
    (runEvents 1000 0 demoLobby
       [EJoin "c" "Cy"; EStartGame "a";
        EPlaceCard "a" 0; EPlaceCard "b" 0; EPlaceCard "c" 0;
        EPlaceCard "a" 0; EPlaceCard "b" 0; EStartBid "c" 1;
        EPass "a"; EPass "b"; EFlipCoaster "c" 2; EDeferred 0;
        EPlayAgain "a"; EDisconnect "c"]).

(** Ann's bid raised to the whole table, before the end of the bidding is
    re-evaluated. *)
Definition demoBidTwo : World := onRoom (set_currentBid 2) demoBidding.

(** Had Ann hit her own skull: she must choose the token to lose. *)
Definition demoPenalty : World :=
  default emptyWorld (penalize 0 demoFlipResult 0 0).

Definition demoRooms : gmap string World := {[ "ABCD" := demoBobLeft ]}.

(** ** Predicates on seats, for the seat scans *)

(** Seat [i] exists and is eliminated. *)
Definition seatElim (r : Room) (i : Z) : Prop :=
  ∃ p, getP r i = Some p ∧ eliminated p = true.

(** Seat [i] exists and cannot take a placing turn: eliminated or passed. *)
Definition seatBusy (r : Room) (i : Z) : Prop :=
  ∃ p, getP r i = Some p ∧ (eliminated p = true ∨ passed p = true).

(** Seat [i] exists and is neither eliminated nor passed. *)
Definition seatFree (r : Room) (i : Z) : Prop :=
  ∃ p, getP r i = Some p ∧ eliminated p = false ∧ passed p = false.

(** ** Seats, names and host *)

(** The sockets and names of the seats, in seat order, and the host. *)
Definition Seated (ids nms : list string) (h : string) (r : Room) : Prop :=
  map pid (players r) = ids ∧ map name (players r) = nms ∧ hostId r = h.

Definition SeatedW (ids nms : list string) (h : string) (w : World) : Prop :=
  Seated ids nms h (room w).

(** The events that may add or remove a seat. *)
Definition changesSeats (ev : Event) : bool :=
  match ev with EJoin _ _ | EDisconnect _ => true | _ => false end.

Definition isJoin (ev : Event) : bool :=
  match ev with EJoin _ _ => true | _ => false end.

(** ** Structural invariant of a room *)

(** The event log is bounded, the room has at most six seats, and no two
    seats carry the same display name. *)
Definition SInv (r : Room) : Prop :=
  (length (log r) ≤ 100)%nat
  ∧ (length (players r) ≤ 6)%nat
  ∧ NoDup (map name (players r)).

Definition SInvW (w : World) : Prop := SInv (room w).

(** * Basic facts about the helpers *)

(** Conversion hint: when two handler applications are compared, unfold the
    handlers before the bind of the option monad, so that equal bodies are
    compared as they are written rather than after evaluation. *)
Strategy 100 [mbind option_bind fmap option_fmap option_map].

Lemma getP_Some r i p :
  getP r i = Some p ↔ 0 ≤ i ∧ players r !! Z.to_nat i = Some p.
Proof. unfold getP. case_decide; [tauto|]. split; [done|tauto]. Qed.

Lemma getP_of_nat r (i : nat) : getP r (Z.of_nat i) = players r !! i.
Proof. unfold getP. case_decide; [|lia]. by rewrite Nat2Z.id. Qed.

Lemma findIndex_cases {A} (f : A → bool) (l : list A) :
  (findIndex f l = -1 ∧ ∀ x, x ∈ l → f x = false)
  ∨ (∃ (i : nat) x, findIndex f l = Z.of_nat i ∧ l !! i = Some x ∧ f x = true
       ∧ ∀ j y, l !! j = Some y → (j < i)%nat → f y = false).
Proof.
  unfold findIndex. destruct (list_find _ l) as [[i x]|] eqn:E.
  - right. apply list_find_Some in E as (? & ? & Hl). exists i, x. split_and!; try done.
    intros j y Hy Hlt. specialize (Hl j y Hy Hlt). by destruct (f y).
  - left. split; [done|]. rewrite list_find_None, Forall_forall in E.
    intros x Hx. specialize (E x Hx). by destruct (f x).
Qed.

Lemma playerIndex_member r p :
  p ∈ players r → ∃ (i : nat) q, playerIndex r (pid p) = Z.of_nat i ∧ players r !! i = Some q.
Proof.
  intros Hp. unfold playerIndex.
  destruct (findIndex_cases (λ q, bool_decide (pid q = pid p)) (players r))
    as [[_ Hn]|(i & q & -> & Hq & _)]; [|eauto].
  specialize (Hn p Hp). by rewrite bool_decide_eq_false in Hn.
Qed.

Lemma playerIndex_range r sid :
  playerIndex r sid = -1 ∨ ∃ p, getP r (playerIndex r sid) = Some p ∧ pid p = sid.
Proof.
  unfold playerIndex.
  destruct (findIndex_cases (λ q, bool_decide (pid q = sid)) (players r))
    as [[-> _]|(i & q & -> & Hq & Hf & _)]; [by left|right].
  exists q. rewrite getP_of_nat. split; [done|]. by apply bool_decide_eq_true in Hf.
Qed.

(** * The state projector *)

Section Projector.

Lemma findIndex_map {A B} (g : A → B) (f : B → bool) (l : list A) :
  findIndex (λ x, f (g x)) l = findIndex f (map g l).
Proof.
  unfold findIndex. induction l as [|x l IH]; [done|]. simpl.
  repeat case_decide; try done.
  destruct (list_find _ l) as [[??]|], (list_find _ (map g l)) as [[??]|];
    simpl in *; try done; lia.
Qed.

Lemma playerIndex_pids r r' sid :
  map pid (players r') = map pid (players r) → playerIndex r' sid = playerIndex r sid.
Proof.
  intros E.
  pose (f := λ s : string, bool_decide (s = sid)).
  assert (∀ x, playerIndex x sid = findIndex f (map pid (players x)))
    as Hx by (intros x; apply (findIndex_map pid f)).
  by rewrite !Hx, E.
Qed.

Lemma map_alter_same {A B} (g : A → B) (f : A → A) (i : nat) (l : list A) :
  (∀ x, g (f x) = g x) → map g (alter f i l) = map g l.
Proof.
  intros Hf. apply list_eq. intros k. rewrite !list_lookup_fmap.
  destruct (decide (k = i)) as [->|].
  - rewrite list_lookup_alter_eq. destruct (l !! i); simpl; by rewrite ?Hf.
  - by rewrite list_lookup_alter_ne.
Qed.

Lemma playerIndex_updP r i f sid :
  (∀ p, pid (f p) = pid p) → playerIndex (updP i f r) sid = playerIndex r sid.
Proof. intros Hf. apply playerIndex_pids. simpl. by apply map_alter_same. Qed.

Lemma playerIndex_replaceHand j h' r sid :
  playerIndex (replaceHand j h' r) sid = playerIndex r sid.
Proof. by apply playerIndex_updP. Qed.

Lemma stateForPlayer_member r p : p ∈ players r → is_Some (stateForPlayer r (pid p)).
Proof.
  intros (i & q & Hi & Hq)%playerIndex_member. unfold stateForPlayer.
  rewrite Hi, getP_of_nat, Hq. simpl. destruct (_ && _); simpl; eauto.
Qed.

End Projector.

(** C6. The projection shows every seat's counts, wins and flags; it
    carries hand contents only for the viewer's own seat and penalty card
    contents only for the seat resolving a penalty discard in phase
    [penalty]; so replacing another seat's hand by one of the same length
    does not change what the viewer receives.  A viewer seated in the room
    always gets a projection. *)
Theorem projection_hides_other_hands (r : Room) (socketId : string) :
  ((∃ p, p ∈ players r ∧ pid p = socketId) → is_Some (stateForPlayer r socketId))
  ∧ ∀ v, stateForPlayer r socketId = Some v →
    let myIdx := playerIndex r socketId in
    length (View.players v) = length (players r)
    ∧ (∀ i p, players r !! i = Some p →
         ∃ vp, View.players v !! i = Some vp
           ∧ View.handCount vp = Z.of_nat (length (hand p))
           ∧ View.stackCount vp = Z.of_nat (length (stack p))
           ∧ View.totalCards vp = Z.of_nat (length (cards p))
           ∧ View.wins vp = wins p
           ∧ View.connected vp = connected p
           ∧ View.eliminated vp = eliminated p
           ∧ View.passed vp = passed p
           ∧ View.hand vp = (if decide (Z.of_nat i = myIdx) then Some (hand p) else None))
    ∧ (∀ cs, View.penaltyCards v = Some cs ↔
         phase r = Penalty ∧ penaltyPlayer r = myIdx ∧ cards <$> getP r myIdx = Some cs)
    ∧ (∀ j h', Z.of_nat j ≠ myIdx →
         (∀ p, players r !! j = Some p → length h' = length (hand p)) →
         stateForPlayer (replaceHand j h' r) socketId = Some v).
Proof.
  split.
  { intros (p & Hp & <-). by apply stateForPlayer_member. }
  intros v Hv. cbv zeta. unfold stateForPlayer in Hv.
  remember (playerIndex r socketId) as myIdx eqn:HmyIdx.
  assert (∀ j h', Z.of_nat j ≠ myIdx →
            (∀ p, players r !! j = Some p → length h' = length (hand p)) →
            imap (projectPlayer myIdx) (players (replaceHand j h' r))
            = imap (projectPlayer myIdx) (players r)) as Himap.
  { intros j h' Hj Hlen. apply list_eq. intros k. simpl. rewrite !list_lookup_imap.
    destruct (decide (k = j)) as [->|].
    - rewrite Nat2Z.id, list_lookup_alter_eq.
      destruct (players r !! j) as [p|] eqn:Ep; [|done].
      simpl. f_equal. unfold projectPlayer. simpl.
      rewrite (proj2 (Z.eqb_neq _ _)) by done. by rewrite (Hlen p).
    - rewrite Nat2Z.id, list_lookup_alter_ne; done. }
  assert (∀ i p, players r !! i = Some p →
    ∃ vp, imap (projectPlayer myIdx) (players r) !! i = Some vp
           ∧ View.handCount vp = Z.of_nat (length (hand p))
           ∧ View.stackCount vp = Z.of_nat (length (stack p))
           ∧ View.totalCards vp = Z.of_nat (length (cards p))
           ∧ View.wins vp = wins p
           ∧ View.connected vp = connected p
           ∧ View.eliminated vp = eliminated p
           ∧ View.passed vp = passed p
           ∧ View.hand vp = (if decide (Z.of_nat i = myIdx) then Some (hand p) else None))
    as Hseat.
  { intros i p Hp. exists (projectPlayer myIdx i p).
    rewrite list_lookup_imap, Hp. split_and!; try done.
    simpl. destruct (decide (Z.of_nat i = myIdx)) as [Hd|Hd];
      [apply Z.eqb_eq in Hd|apply Z.eqb_neq in Hd]; by rewrite Hd. }
  destruct (bool_decide (phase r = Penalty) && (penaltyPlayer r =? myIdx)) eqn:Epen.
  - pose proof Epen as Epen'. apply andb_true_iff in Epen as [Eph Epp].
    apply bool_decide_eq_true in Eph. apply Z.eqb_eq in Epp.
    destruct (getP r myIdx) as [me|] eqn:Eme; [|done].
    simpl in Hv. injection Hv as <-. simpl. split_and!.
    + by rewrite length_imap.
    + done.
    + intros cs. simpl. split; [by intros [= <-]|by intros (_ & _ & [= <-])].
    + intros j h' Hj Hlen. unfold stateForPlayer.
      rewrite playerIndex_replaceHand, <-HmyIdx.
      assert (getP (replaceHand j h' r) myIdx = Some me) as ->.
      { apply getP_Some in Eme as [? Eme]. apply getP_Some. split; [done|]. simpl.
        rewrite list_lookup_alter_ne; [done|lia]. }
      rewrite Himap by done. simpl. by rewrite Epen'.
  - simpl in Hv. injection Hv as <-. simpl. split_and!.
    + by rewrite length_imap.
    + done.
    + intros cs. split; [done|]. intros (Hph & Hpp & _).
      rewrite Hph, Hpp, Z.eqb_refl, bool_decide_eq_true_2 in Epen; done.
    + intros j h' Hj Hlen. unfold stateForPlayer.
      rewrite playerIndex_replaceHand, <-HmyIdx.
      rewrite Himap by done. simpl. by rewrite Epen.
Qed.

(** * Basic facts about the engine's primitives *)

Lemma broadcastState_spec w :
  ∃ vs, broadcastState w = Some (set_outbox (outbox w ++ vs) w)
        ∧ Forall (λ e, ∃ to v, e = EmitGameState to v
                               ∧ stateForPlayer (room w) to = Some v) vs.
Proof.
  unfold broadcastState.
  destruct (mapM _ (players (room w))) as [vs|] eqn:E.
  - exists vs. split; [done|]. apply mapM_Some in E.
    induction E as [|p e ps es Hpe _ IH]; constructor; [|done].
    destruct (stateForPlayer (room w) (pid p)) as [v|] eqn:Ev; simplify_eq/=. eauto.
  - exfalso. assert (is_Some (mapM (λ p, v ← stateForPlayer (room w) (pid p); Some (EmitGameState (pid p) v)) (players (room w)))) as [? Hs]; [|congruence].
    apply mapM_is_Some, Forall_forall. intros p Hp.
    destruct (stateForPlayer_member _ _ Hp) as [v Hv]. simpl. rewrite Hv. eauto.
Qed.

Lemma getP_updP_eq r i f p :
  getP r i = Some p → getP (updP i f r) i = Some (f p).
Proof.
  intros [? Hp]%getP_Some. apply getP_Some. split; [done|]. simpl.
  by rewrite list_lookup_alter_eq, Hp.
Qed.

Lemma getP_updP_ne r i j f :
  0 ≤ i → j ≠ i → getP (updP i f r) j = getP r j.
Proof.
  intros ? ?. unfold getP. case_decide; [|done]. simpl.
  rewrite list_lookup_alter_ne; [done|lia].
Qed.

Lemma last_nonempty {A} (l : list A) : l ≠ [] → is_Some (last l).
Proof. intros H. destruct (last l) eqn:E; [eauto|]. by apply last_None in E. Qed.


(** * Flipping *)

(** C2. In phase [flipping], a flip requested by a seated player is applied
    exactly when the requester is the highest bidder and the turn owner,
    flips remain, the target seat exists, is not eliminated and has a
    non-empty stack, and the target is the requester's own seat or the
    requester's own stack is empty.  An applied flip pops the top token of
    the target's stack, appends the reveal record and decrements
    [flipsRemaining]; any other request leaves the world unchanged. *)
Theorem flip_applied_iff_legal (w : World) (flipperIdx targetPlayerIdx : Z) (flipper : Player) :
  phase (room w) = Flipping →
  getP (room w) flipperIdx = Some flipper →
  if flipLegal (room w) flipperIdx targetPlayerIdx then
    ∃ w' target card,
      handleFlip w flipperIdx targetPlayerIdx = Some w'
      ∧ getP (room w) targetPlayerIdx = Some target
      ∧ last (stack target) = Some card
      ∧ getP (room w') targetPlayerIdx = Some (set_stack (removelast (stack target)) target)
      ∧ (∀ j, j ≠ targetPlayerIdx → getP (room w') j = getP (room w) j)
      ∧ revealedCards (room w')
        = revealedCards (room w) ++ [Reveal.mk targetPlayerIdx card (name target)]
      ∧ flipsRemaining (room w') = flipsRemaining (room w) - 1
  else handleFlip w flipperIdx targetPlayerIdx = Some w.
Proof.
  intros Hph Hfl. unfold flipLegal, handleFlip. rewrite Hph, Hfl.
  rewrite (bool_decide_eq_true_2 (Flipping = Flipping)) by done. simpl.
  rewrite (Z.leb_antisym 0 (flipsRemaining (room w))).
  destruct (0 <? flipsRemaining (room w)); simpl; [|by rewrite andb_false_r].
  destruct (flipperIdx =? highestBidder (room w)); simpl; [|done].
  destruct (currentPlayer (room w) =? flipperIdx); simpl; [|done].
  destruct (getP (room w) targetPlayerIdx) as [target|] eqn:Htg; simpl; [|done].
  destruct (eliminated target); simpl; [done|].
  destruct (stack target) as [|c0 st0] eqn:Hst.
  { simpl. done. }
  rewrite bool_decide_eq_false_2 by done. 
  replace (Z.of_nat (length (c0 :: st0)) =? 0) with false by (symmetry; apply Z.eqb_neq; simpl; lia).
  simpl negb. cbn [andb orb].
  assert (0 ≤ targetPlayerIdx) as Hnn by (by apply getP_Some in Htg as [? _]).
  assert (∀ r', players r' = alter (λ p, set_stack (removelast (stack p)) p)
                               (Z.to_nat targetPlayerIdx) (players (room w)) →
            getP r' targetPlayerIdx = Some (set_stack (removelast (stack target)) target)
            ∧ ∀ j, j ≠ targetPlayerIdx → getP r' j = getP (room w) j) as Hres.
  { intros r' Hr'. split.
    - apply getP_Some. split; [done|]. rewrite Hr', list_lookup_alter_eq.
      apply getP_Some in Htg as [_ ->]. simpl. by rewrite Hst.
    - intros j Hj. unfold getP. case_decide; [|done]. rewrite Hr'.
      rewrite list_lookup_alter_ne; [done|lia]. }
  destruct (last_nonempty (c0 :: st0)) as [card Hcard]; [done|].
  assert ((if negb (targetPlayerIdx =? flipperIdx)
           then Some (0 <? Z.of_nat (length (stack flipper))) else Some false)
          = Some (negb ((targetPlayerIdx =? flipperIdx) || bool_decide (stack flipper = []))))
    as ->.
  { destruct (targetPlayerIdx =? flipperIdx); simpl; [done|]. f_equal.
    destruct (stack flipper); simpl; [done|].
    apply Z.ltb_lt. lia. }
  destruct ((targetPlayerIdx =? flipperIdx) || bool_decide (stack flipper = [])); simpl; [|done].
  rewrite Hcard. simpl.
  repeat match goal with
  | |- context [broadcastState ?x] =>
      destruct (broadcastState_spec x) as (? & -> & _); simpl
  | |- context [if ?b then _ else _] => destruct b; simpl
  end;
  (eexists _, target, card; split; [reflexivity|]; simpl;
   split_and!; try done; try (by rewrite Hst); by apply Hres).
Qed.

(** * Joining a room *)

(** C9. Replies of join-room, the conditions taken in the order the
    handler (and the specification) lists them: room-not-found for an
    unknown code; in a room that has not started, room-full with 6 seats,
    else name-taken when a seat already has the requested name; in a
    started room, game-in-progress when no disconnected seat has the
    requested name, and otherwise success by rebinding that existing seat
    (only its identity and connected flag change, no seat is added).  The
    room is looked up under the upper-cased, trimmed code. *)
Theorem join_room_replies (rooms : gmap string World) (socketId : string)
    (dataCode dataName : option string) :
  let roomCode := trim (toUpperCase (default "" dataCode)) in
  let nm := orElse (slice0 16 (trim (default "" dataName))) "Player" in
  let reply := joinRoom rooms socketId dataCode dataName in
  (rooms !! roomCode = None → reply = Some (JoinFail RoomNotFound, rooms))
  ∧ ∀ w, rooms !! roomCode = Some w →
    (started (room w) = false → (6 ≤ length (players (room w)))%nat →
       reply = Some (JoinFail RoomFull, rooms))
    ∧ (started (room w) = false → (length (players (room w)) < 6)%nat →
       (∃ p, p ∈ players (room w) ∧ name p = nm) →
       reply = Some (JoinFail NameTaken, rooms))
    ∧ (started (room w) = true →
       (∀ p, p ∈ players (room w) → name p = nm → connected p = true) →
       reply = Some (JoinFail GameInProgress, rooms))
    ∧ (started (room w) = true →
       (∃ p, p ∈ players (room w) ∧ name p = nm ∧ connected p = false) →
       ∃ (i : nat) p w',
         players (room w) !! i = Some p ∧ name p = nm ∧ connected p = false
         ∧ reply = Some (JoinOk roomCode, <[roomCode := w']> rooms)
         ∧ players (room w') = <[i := rebind socketId p]> (players (room w))
         ∧ length (players (room w')) = length (players (room w))
         ∧ cards (rebind socketId p) = cards p ∧ hand (rebind socketId p) = hand p
         ∧ stack (rebind socketId p) = stack p ∧ wins (rebind socketId p) = wins p
         ∧ name (rebind socketId p) = name p
         ∧ pid (rebind socketId p) = socketId ∧ connected (rebind socketId p) = true).
Proof.
  intros roomCode nm reply. subst reply. unfold joinRoom. fold roomCode nm. split.
  { by intros ->. }
  intros w Hw. rewrite Hw. unfold joinFound. split_and!.
  - intros -> Hlen. simpl.
    rewrite (proj2 (Z.leb_le 6 _)) by lia. simpl. by rewrite insert_id.
  - intros -> Hlen (p & Hp & Hnm). simpl.
    rewrite (proj2 (Z.leb_gt 6 _)) by lia.
    assert (existsb (λ p, bool_decide (name p = nm)) (players (room w)) = true) as ->.
    { apply existsb_exists. exists p. split; [by apply list_elem_of_In|].
      by apply bool_decide_eq_true. }
    simpl. by rewrite insert_id.
  - intros -> Hall.
    destruct (list_find _ (players (room w))) as [[i p]|] eqn:E.
    + apply list_find_Some in E as (Hi & [Hnm Hc] & _).
      rewrite (Hall p) in Hc; [done| |done]. by eapply list_elem_of_lookup_2.
    + simpl. by rewrite insert_id.
  - intros -> (p0 & Hp0 & Hnm0 & Hc0).
    destruct (list_find _ (players (room w))) as [[i p]|] eqn:E.
    + apply list_find_Some in E as (Hi & [Hnm Hc] & _).
      destruct (broadcastState_spec
        (onRoom (updP (Z.of_nat i) (λ p, set_connected true (set_pid socketId p))) w))
        as (vs & Hb & _).
      rewrite Hb. simpl. eexists i, p, _. split_and!; try done.
      * simpl. rewrite Nat2Z.id. apply list_eq. intros k.
        destruct (decide (k = i)) as [->|].
        -- rewrite list_lookup_alter_eq, Hi. simpl.
           rewrite list_lookup_insert_eq; [done|]. by eapply lookup_lt_Some.
        -- by rewrite list_lookup_alter_ne, list_lookup_insert_ne.
      * simpl. by rewrite length_alter.
    + exfalso. rewrite list_find_None, Forall_forall in E. by apply (E p0).
Qed.

(** * The turn scheduler: one pending deadline *)

(** Symbolic execution of a handler equation [H : body = Some w']. *)
Ltac exec_in H :=
  cbv zeta beta in H;
  repeat (
    match type of H with
    | Some _ = Some _ => injection H as H; try subst
    | None = Some _ => discriminate H
    | (if ?b then _ else _) = Some _ =>
        let Hb := fresh "Hb" in destruct b eqn:Hb
    | match ?x with _ => _ end = Some _ =>
        let Hm := fresh "Hm" in destruct x eqn:Hm
    | context [if ?b then _ else _] =>
        let Hb := fresh "Hb" in destruct b eqn:Hb
    | (_ ≫= _) = Some _ =>
        let x := fresh "x" in let Hx := fresh "Hx" in
        apply bind_Some in H as (x & Hx & H)
    | (_ <$> _) = Some _ =>
        let x := fresh "x" in let Hx := fresh "Hx" in
        apply fmap_Some in H as (x & Hx & H)
    end; cbv zeta beta in H).

Section TimersOk.

Lemma tok_onRoom f w :
  (∀ r, turnTimer (f r) = turnTimer r) → timers_ok w → timers_ok (onRoom f w).
Proof. unfold timers_ok. simpl. by intros ->. Qed.

Lemma tok_set_outbox o w : timers_ok w → timers_ok (set_outbox o w).
Proof. done. Qed.

Lemma tok_set_deferred d w : timers_ok w → timers_ok (set_deferred d w).
Proof. done. Qed.

Lemma tok_schedule d w : timers_ok w → timers_ok (schedule d w).
Proof. done. Qed.

Lemma clearTurnTimer_timers w : timers_ok w → timers (clearTurnTimer w) = [].
Proof.
  unfold timers_ok, clearTurnTimer. destruct (turnTimer (room w)) as [h|]; simpl; [|done].
  intros [cb ->]. simpl. by rewrite Nat.eqb_refl.
Qed.

Lemma clearTurnTimer_turnTimer w : turnTimer (room (clearTurnTimer w)) = None.
Proof. unfold clearTurnTimer. by destruct (turnTimer (room w)) eqn:E. Qed.

Lemma tok_clear w : timers_ok w → timers_ok (clearTurnTimer w).
Proof.
  intros H. unfold timers_ok. by rewrite clearTurnTimer_turnTimer, clearTurnTimer_timers.
Qed.

Lemma startTurnTimer_timers now w s cb :
  timers_ok w → timers (startTurnTimer now w s cb) = [(nextHandle w, cb)].
Proof.
  unfold timers_ok, startTurnTimer, clearTurnTimer.
  destruct (turnTimer (room w)) as [h|]; simpl.
  - intros [cb0 ->]. simpl. by rewrite Nat.eqb_refl.
  - by intros ->.
Qed.

Lemma tok_start now w s cb : timers_ok w → timers_ok (startTurnTimer now w s cb).
Proof.
  intros H. unfold timers_ok. rewrite startTurnTimer_timers by done.
  unfold startTurnTimer, clearTurnTimer. destruct (turnTimer (room w)); simpl; eauto.
Qed.

Lemma foldl_addLog_frame {A} (proj : Room → A) msgs r :
  (∀ m r, proj (addLog m r) = proj r) →
  proj (foldl (λ r m, addLog m r) r msgs) = proj r.
Proof.
  intros Hp. revert r. induction msgs as [|m msgs IH]; intros r; simpl; [done|].
  by rewrite IH, Hp.
Qed.

Lemma turnTimer_autoPassAll r : turnTimer (autoPassAll r) = turnTimer r.
Proof. unfold autoPassAll. by rewrite (foldl_addLog_frame turnTimer). Qed.

Lemma tok_broadcast w w' : broadcastState w = Some w' → timers_ok w → timers_ok w'.
Proof. destruct (broadcastState_spec w) as (vs & -> & _). by intros [= <-]. Qed.

End TimersOk.

Create HintDb tok discriminated.
#[export] Hint Resolve turnTimer_autoPassAll : tok.
#[export] Hint Resolve tok_onRoom tok_set_outbox tok_set_deferred tok_schedule
  tok_clear tok_start : tok.

#[export] Hint Extern 1 (timers_ok _) =>
  match goal with H : broadcastState _ = Some ?w' |- timers_ok ?w' =>
    eapply tok_broadcast; [exact H|] end : tok.

Ltac tok := eauto 30 with tok.


Lemma tok_gameOver i w w' : gameOver w i = Some w' → timers_ok w → timers_ok w'.
Proof. intros H ?. unfold gameOver in H. exec_in H; tok. Qed.
#[export] Hint Extern 1 (timers_ok _) =>
  match goal with H : gameOver _ _ = Some ?w' |- timers_ok ?w' =>
    eapply tok_gameOver; [exact H|] end : tok.

Lemma tok_startRound now w w' : startRound now w = Some w' → timers_ok w → timers_ok w'.
Proof. intros H ?. unfold startRound in H. exec_in H; tok. Qed.
#[export] Hint Extern 1 (timers_ok _) =>
  match goal with H : startRound _ _ = Some ?w' |- timers_ok ?w' =>
    eapply tok_startRound; [exact H|] end : tok.

Lemma tok_startGame now w w' : startGame now w = Some w' → timers_ok w → timers_ok w'.
Proof. intros H ?. unfold startGame in H. exec_in H; tok. Qed.
#[export] Hint Extern 1 (timers_ok _) =>
  match goal with H : startGame _ _ = Some ?w' |- timers_ok ?w' =>
    eapply tok_startGame; [exact H|] end : tok.

Lemma tok_startFlipping  w w' : startFlipping w = Some w' → timers_ok w → timers_ok w'.
Proof. intros H ?. unfold startFlipping in H. exec_in H; tok. Qed.
#[export] Hint Extern 1 (timers_ok _) =>
  match goal with H : startFlipping _ = Some ?w' |- timers_ok ?w' =>
    eapply tok_startFlipping; [exact H|] end : tok.

Lemma tok_checkBiddingEnd  w w' : checkBiddingEnd w = Some w' → timers_ok w → timers_ok w'.
Proof. intros H ?. unfold checkBiddingEnd in H. exec_in H; tok. Qed.
#[export] Hint Extern 1 (timers_ok _) =>
  match goal with H : checkBiddingEnd _ = Some ?w' |- timers_ok ?w' =>
    eapply tok_checkBiddingEnd; [exact H|] end : tok.

Lemma tok_handleStartBid now p a w w' : handleStartBid now w p a = Some w' → timers_ok w → timers_ok w'.
Proof. intros H ?. unfold handleStartBid, startBidTimer in H. exec_in H; tok. Qed.
#[export] Hint Extern 1 (timers_ok _) =>
  match goal with H : handleStartBid _ _ _ _ = Some ?w' |- timers_ok ?w' =>
    eapply tok_handleStartBid; [exact H|] end : tok.

Lemma tok_advancePlacing now w w' : advancePlacing now w = Some w' → timers_ok w → timers_ok w'.
Proof. intros H ?. unfold advancePlacing in H. exec_in H; tok. Qed.
#[export] Hint Extern 1 (timers_ok _) =>
  match goal with H : advancePlacing _ _ = Some ?w' |- timers_ok ?w' =>
    eapply tok_advancePlacing; [exact H|] end : tok.

Lemma tok_handlePlace now p c w w' : handlePlace now w p c = Some w' → timers_ok w → timers_ok w'.
Proof. intros H ?. unfold handlePlace in H. exec_in H; tok. Qed.
#[export] Hint Extern 1 (timers_ok _) =>
  match goal with H : handlePlace _ _ _ _ = Some ?w' |- timers_ok ?w' =>
    eapply tok_handlePlace; [exact H|] end : tok.

Lemma tok_handleRaiseBid now p a w w' : handleRaiseBid now w p a = Some w' → timers_ok w → timers_ok w'.
Proof. intros H ?. unfold handleRaiseBid, startBidTimer in H. exec_in H; tok. Qed.
#[export] Hint Extern 1 (timers_ok _) =>
  match goal with H : handleRaiseBid _ _ _ _ = Some ?w' |- timers_ok ?w' =>
    eapply tok_handleRaiseBid; [exact H|] end : tok.

Lemma tok_handlePass p w w' : handlePass w p = Some w' → timers_ok w → timers_ok w'.
Proof. intros H ?. unfold handlePass in H. exec_in H; tok. Qed.
#[export] Hint Extern 1 (timers_ok _) =>
  match goal with H : handlePass _ _ = Some ?w' |- timers_ok ?w' =>
    eapply tok_handlePass; [exact H|] end : tok.

Lemma tok_handleFlip f t w w' : handleFlip w f t = Some w' → timers_ok w → timers_ok w'.
Proof. intros H ?. unfold handleFlip in H. exec_in H; tok. Qed.
#[export] Hint Extern 1 (timers_ok _) =>
  match goal with H : handleFlip _ _ _ = Some ?w' |- timers_ok ?w' =>
    eapply tok_handleFlip; [exact H|] end : tok.

Lemma tok_challengeSuccess p w w' : challengeSuccess w p = Some w' → timers_ok w → timers_ok w'.
Proof. intros H ?. unfold challengeSuccess in H. exec_in H; tok. Qed.
#[export] Hint Extern 1 (timers_ok _) =>
  match goal with H : challengeSuccess _ _ = Some ?w' |- timers_ok ?w' =>
    eapply tok_challengeSuccess; [exact H|] end : tok.

Lemma tok_doCardRemoval rnd l c w w' : doCardRemoval rnd w l c = Some w' → timers_ok w → timers_ok w'.
Proof. intros H ?. unfold doCardRemoval in H. exec_in H; tok. Qed.
#[export] Hint Extern 1 (timers_ok _) =>
  match goal with H : doCardRemoval _ _ _ _ = Some ?w' |- timers_ok ?w' =>
    eapply tok_doCardRemoval; [exact H|] end : tok.

Lemma tok_penalize rnd l c w w' : penalize rnd w l c = Some w' → timers_ok w → timers_ok w'.
Proof. intros H ?. unfold penalize in H. exec_in H; tok. Qed.
#[export] Hint Extern 1 (timers_ok _) =>
  match goal with H : penalize _ _ _ _ = Some ?w' |- timers_ok ?w' =>
    eapply tok_penalize; [exact H|] end : tok.

Lemma tok_handlePenaltyDiscard rnd l c w w' : handlePenaltyDiscard rnd w l c = Some w' → timers_ok w → timers_ok w'.
Proof. intros H ?. unfold handlePenaltyDiscard in H. exec_in H; tok. Qed.
#[export] Hint Extern 1 (timers_ok _) =>
  match goal with H : handlePenaltyDiscard _ _ _ _ = Some ?w' |- timers_ok ?w' =>
    eapply tok_handlePenaltyDiscard; [exact H|] end : tok.

Lemma tok_runCallback now cb w w' : runCallback now cb w = Some w' → timers_ok w → timers_ok w'.
Proof. intros H ?. unfold runCallback in H. exec_in H; tok. Qed.
#[export] Hint Extern 1 (timers_ok _) =>
  match goal with H : runCallback _ _ _ = Some ?w' |- timers_ok ?w' =>
    eapply tok_runCallback; [exact H|] end : tok.

Lemma tok_runDeferred now rnd d w w' : runDeferred now rnd d w = Some w' → timers_ok w → timers_ok w'.
Proof. intros H ?. unfold runDeferred in H. exec_in H; tok. Qed.
#[export] Hint Extern 1 (timers_ok _) =>
  match goal with H : runDeferred _ _ _ _ = Some ?w' |- timers_ok ?w' =>
    eapply tok_runDeferred; [exact H|] end : tok.

Lemma tok_fireDeferred now rnd k w w' : fireDeferred now rnd w k = Some w' → timers_ok w → timers_ok w'.
Proof. intros H ?. unfold fireDeferred in H. exec_in H; tok. Qed.
#[export] Hint Extern 1 (timers_ok _) =>
  match goal with H : fireDeferred _ _ _ _ = Some ?w' |- timers_ok ?w' =>
    eapply tok_fireDeferred; [exact H|] end : tok.

Lemma tok_onStartGame now sid w w' : onStartGame now w sid = Some w' → timers_ok w → timers_ok w'.
Proof. intros H ?. unfold onStartGame in H. exec_in H; tok. Qed.
#[export] Hint Extern 1 (timers_ok _) =>
  match goal with H : onStartGame _ _ _ = Some ?w' |- timers_ok ?w' =>
    eapply tok_onStartGame; [exact H|] end : tok.

Lemma tok_onPlaceCard now sid c w w' : onPlaceCard now w sid c = Some w' → timers_ok w → timers_ok w'.
Proof. intros H ?. unfold onPlaceCard, withSeat in H. exec_in H; tok. Qed.
#[export] Hint Extern 1 (timers_ok _) =>
  match goal with H : onPlaceCard _ _ _ _ = Some ?w' |- timers_ok ?w' =>
    eapply tok_onPlaceCard; [exact H|] end : tok.

Lemma tok_onStartBid now sid c w w' : onStartBid now w sid c = Some w' → timers_ok w → timers_ok w'.
Proof. intros H ?. unfold onStartBid, withSeat in H. exec_in H; tok. Qed.
#[export] Hint Extern 1 (timers_ok _) =>
  match goal with H : onStartBid _ _ _ _ = Some ?w' |- timers_ok ?w' =>
    eapply tok_onStartBid; [exact H|] end : tok.

Lemma tok_onRaiseBid now sid c w w' : onRaiseBid now w sid c = Some w' → timers_ok w → timers_ok w'.
Proof. intros H ?. unfold onRaiseBid, withSeat in H. exec_in H; tok. Qed.
#[export] Hint Extern 1 (timers_ok _) =>
  match goal with H : onRaiseBid _ _ _ _ = Some ?w' |- timers_ok ?w' =>
    eapply tok_onRaiseBid; [exact H|] end : tok.

Lemma tok_onPass sid w w' : onPass w sid = Some w' → timers_ok w → timers_ok w'.
Proof. intros H ?. unfold onPass, withSeat in H. exec_in H; tok. Qed.
#[export] Hint Extern 1 (timers_ok _) =>
  match goal with H : onPass _ _ = Some ?w' |- timers_ok ?w' =>
    eapply tok_onPass; [exact H|] end : tok.

Lemma tok_onFlipCoaster sid c w w' : onFlipCoaster w sid c = Some w' → timers_ok w → timers_ok w'.
Proof. intros H ?. unfold onFlipCoaster, withSeat in H. exec_in H; tok. Qed.
#[export] Hint Extern 1 (timers_ok _) =>
  match goal with H : onFlipCoaster _ _ _ = Some ?w' |- timers_ok ?w' =>
    eapply tok_onFlipCoaster; [exact H|] end : tok.

Lemma tok_onPenaltyDiscard rnd sid c w w' : onPenaltyDiscard rnd w sid c = Some w' → timers_ok w → timers_ok w'.
Proof. intros H ?. unfold onPenaltyDiscard, withSeat in H. exec_in H; tok. Qed.
#[export] Hint Extern 1 (timers_ok _) =>
  match goal with H : onPenaltyDiscard _ _ _ _ = Some ?w' |- timers_ok ?w' =>
    eapply tok_onPenaltyDiscard; [exact H|] end : tok.

Lemma tok_onChatMessage now sid c w w' : onChatMessage now w sid c = Some w' → timers_ok w → timers_ok w'.
Proof. intros H ?. unfold onChatMessage in H. exec_in H; tok. Qed.
#[export] Hint Extern 1 (timers_ok _) =>
  match goal with H : onChatMessage _ _ _ _ = Some ?w' |- timers_ok ?w' =>
    eapply tok_onChatMessage; [exact H|] end : tok.

Lemma tok_onDougLose sid w w' : onDougLose w sid = Some w' → timers_ok w → timers_ok w'.
Proof. intros H ?. unfold onDougLose in H. exec_in H; tok. Qed.
#[export] Hint Extern 1 (timers_ok _) =>
  match goal with H : onDougLose _ _ = Some ?w' |- timers_ok ?w' =>
    eapply tok_onDougLose; [exact H|] end : tok.

Lemma tok_onPlayAgain sid w w' : onPlayAgain w sid = Some w' → timers_ok w → timers_ok w'.
Proof. intros H ?. unfold onPlayAgain in H. exec_in H; tok. Qed.
#[export] Hint Extern 1 (timers_ok _) =>
  match goal with H : onPlayAgain _ _ = Some ?w' |- timers_ok ?w' =>
    eapply tok_onPlayAgain; [exact H|] end : tok.

Lemma tok_onDisconnect sid w w' : onDisconnect w sid = Some w' → timers_ok w → timers_ok w'.
Proof. intros H ?. unfold onDisconnect in H. exec_in H; tok. Qed.
#[export] Hint Extern 1 (timers_ok _) =>
  match goal with H : onDisconnect _ _ = Some ?w' |- timers_ok ?w' =>
    eapply tok_onDisconnect; [exact H|] end : tok.

Lemma tok_fireTimer now w k w' : fireTimer now w k = Some w' → timers_ok w → timers_ok w'.
Proof.
  intros H Hok. unfold fireTimer in H.
  destruct (timers w !! k) as [[h cb]|] eqn:Hk; [|by simplify_eq].
  cbv zeta in H. eapply tok_runCallback; [exact H|].
  assert (delete k (timers w) = []) as Hdel.
  { unfold timers_ok in Hok. destruct (turnTimer (room w)).
    - destruct Hok as [cb' Hts]. rewrite Hts in Hk |- *. by destruct k as [|[|k]].
    - by rewrite Hok in Hk. }
  unfold timers_ok. simpl. by rewrite Hdel.
Qed.
#[export] Hint Extern 1 (timers_ok _) =>
  match goal with H : fireTimer _ _ _ = Some ?w' |- timers_ok ?w' =>
    eapply tok_fireTimer; [exact H|] end : tok.

Lemma tok_joinFound w c sid nm res :
  joinFound w c sid nm = Some res → timers_ok w → timers_ok (snd res).
Proof. intros H ?. unfold joinFound in H. exec_in H; simpl; tok. Qed.

Lemma tok_step now rnd w ev w' : step now rnd w ev = Some w' → timers_ok w → timers_ok w'.
Proof.
  intros H Hok. unfold step in H. apply (tok_set_outbox []) in Hok.
  destruct ev; simpl in H; try (by tok).
  apply fmap_Some in H as (res & H & ->). by eapply tok_joinFound.
Qed.

Lemma reachable_timers_ok w : reachable w → timers_ok w.
Proof.
  induction 1 as [c sid nm w H|now rnd w ev w' _ IH H].
  - unfold createRoom in H. eapply tok_broadcast; [exact H|]. done.
  - by eapply tok_step.
Qed.

(** C7. A room has at most one pending deadline at any time: starting a
    deadline cancels the pending one, so that only the new one is pending;
    and a deadline callback that runs when the phase or the turn owner is
    no longer the one it was scheduled for changes nothing (the expiry
    itself only forgets the expired handle and its timestamp). *)
Theorem one_deadline_and_stale_noop :
  (∀ w, reachable w → (length (timers w) ≤ 1)%nat)
  ∧ (∀ now w seconds cb, timers_ok w →
       timers (startTurnTimer now w seconds cb) = [(nextHandle w, cb)])
  ∧ (∀ now w cb, ¬ justified cb (room w) → runCallback now cb w = Some w)
  ∧ (∀ now w k h cb, reachable w → timers w !! k = Some (h, cb) →
       ¬ justified cb (room w) →
       fireTimer now w k
       = Some (onRoom (set_turnDeadline 0) (onRoom (set_turnTimer None) (set_timers [] w)))).
Proof.
  split_and!.
  - intros w Hw%reachable_timers_ok. unfold timers_ok in Hw.
    destruct (turnTimer (room w)); [destruct Hw as [cb ->]|rewrite Hw]; simpl; lia.
  - intros. by apply startTurnTimer_timers.
  - intros now w cb Hst. unfold runCallback, justified in *. destruct cb.
    + destruct (decide (phase (room w) = Placing)) as [Hp|Hp].
      * rewrite (bool_decide_eq_true_2 _ Hp). simpl.
        destruct (currentPlayer (room w) =? firstPlayer) eqn:E; [|done].
        apply Z.eqb_eq in E. tauto.
      * by rewrite (bool_decide_eq_false_2 _ Hp).
    + destruct (decide (phase (room w) = Placing)) as [Hp|Hp].
      * rewrite (bool_decide_eq_true_2 _ Hp). simpl.
        destruct (currentPlayer (room w) =? next) eqn:E; [|done].
        apply Z.eqb_eq in E. tauto.
      * by rewrite (bool_decide_eq_false_2 _ Hp).
    + by rewrite (bool_decide_eq_false_2 _ Hst).
  - intros now w k h cb Hw%reachable_timers_ok Hk Hst. unfold fireTimer. rewrite Hk.
    cbv zeta.
    assert (delete k (timers w) = []) as ->.
    { unfold timers_ok in Hw. destruct (turnTimer (room w)).
      - destruct Hw as [cb' Hts]. rewrite Hts in Hk |- *. by destruct k as [|[|k]].
      - by rewrite Hw in Hk. }
    unfold runCallback, justified in *. destruct cb; simpl.
    + destruct (decide (phase (room w) = Placing)) as [Hp|Hp].
      * rewrite (bool_decide_eq_true_2 _ Hp). simpl.
        destruct (currentPlayer (room w) =? firstPlayer) eqn:E; [|done].
        apply Z.eqb_eq in E. tauto.
      * by rewrite (bool_decide_eq_false_2 _ Hp).
    + destruct (decide (phase (room w) = Placing)) as [Hp|Hp].
      * rewrite (bool_decide_eq_true_2 _ Hp). simpl.
        destruct (currentPlayer (room w) =? next) eqn:E; [|done].
        apply Z.eqb_eq in E. tauto.
      * by rewrite (bool_decide_eq_false_2 _ Hp).
    + by rewrite (bool_decide_eq_false_2 _ Hst).
Qed.

(** * What an event emits *)

Section Outbox.

Lemma quiet_onRoom f w : quiet w → quiet (onRoom f w).
Proof. done. Qed.
Lemma quiet_set_deferred d w : quiet w → quiet (set_deferred d w).
Proof. done. Qed.
Lemma quiet_set_timers d w : quiet w → quiet (set_timers d w).
Proof. done. Qed.
Lemma quiet_schedule d w : quiet w → quiet (schedule d w).
Proof. done. Qed.
Lemma quiet_clear w : quiet w → quiet (clearTurnTimer w).
Proof. unfold clearTurnTimer. by destruct (turnTimer (room w)). Qed.
Lemma quiet_start now w s cb : quiet w → quiet (startTurnTimer now w s cb).
Proof. unfold startTurnTimer, clearTurnTimer. by destruct (turnTimer (room w)). Qed.
Lemma quiet_gameOver c n i w :
  quiet w → quiet (set_outbox (outbox w ++ [EmitGameOver c n i]) w).
Proof.
  intros H to v. simpl. rewrite elem_of_app, list_elem_of_singleton.
  intros [?|?]; [by eapply H|done].
Qed.
Lemma quiet_dougLose c w :
  quiet w → quiet (set_outbox (outbox w ++ [EmitDougLose c]) w).
Proof.
  intros H to v. simpl. rewrite elem_of_app, list_elem_of_singleton.
  intros [?|?]; [by eapply H|done].
Qed.
Lemma quiet_nil w : quiet (set_outbox [] w).
Proof. intros to v. simpl. apply not_elem_of_nil. Qed.

Lemma out_ok_quiet w : quiet w → out_ok w.
Proof. intros H to v Hin. by apply H in Hin. Qed.
Lemma out_ok_schedule d w : out_ok w → out_ok (schedule d w).
Proof. done. Qed.
Lemma out_ok_broadcast w w' : broadcastState w = Some w' → quiet w → out_ok w'.
Proof.
  destruct (broadcastState_spec w) as (vs & -> & Hvs). intros [= <-] Hq to v. simpl.
  rewrite elem_of_app. intros [Hin|Hin]; [by apply Hq in Hin|].
  rewrite Forall_forall in Hvs. apply Hvs in Hin as (to' & v' & [= -> ->] & ?). done.
Qed.

End Outbox.

Create HintDb bok discriminated.
#[export] Hint Resolve quiet_onRoom quiet_set_deferred quiet_set_timers quiet_schedule
  quiet_clear quiet_start quiet_gameOver quiet_dougLose quiet_nil
  out_ok_schedule : bok.
#[export] Hint Immediate out_ok_quiet : bok.

#[export] Hint Extern 1 (out_ok _) =>
  match goal with H : broadcastState _ = Some ?w' |- out_ok ?w' =>
    eapply out_ok_broadcast; [exact H|] end : bok.

Ltac bok := eauto 30 with bok.

Lemma bok_gameOver i w w' : gameOver w i = Some w' → quiet w → out_ok w'.
Proof. intros H ?. unfold gameOver in H. exec_in H; bok. Qed.
#[export] Hint Extern 1 (out_ok _) =>
  match goal with H : gameOver _ _ = Some ?w' |- out_ok ?w' =>
    eapply bok_gameOver; [exact H|] end : bok.

Lemma bok_startRound now w w' : startRound now w = Some w' → quiet w → out_ok w'.
Proof. intros H ?. unfold startRound in H. exec_in H; bok. Qed.
#[export] Hint Extern 1 (out_ok _) =>
  match goal with H : startRound _ _ = Some ?w' |- out_ok ?w' =>
    eapply bok_startRound; [exact H|] end : bok.

Lemma bok_startGame now w w' : startGame now w = Some w' → quiet w → out_ok w'.
Proof. intros H ?. unfold startGame in H. exec_in H; bok. Qed.
#[export] Hint Extern 1 (out_ok _) =>
  match goal with H : startGame _ _ = Some ?w' |- out_ok ?w' =>
    eapply bok_startGame; [exact H|] end : bok.

Lemma bok_startFlipping  w w' : startFlipping w = Some w' → quiet w → out_ok w'.
Proof. intros H ?. unfold startFlipping in H. exec_in H; bok. Qed.
#[export] Hint Extern 1 (out_ok _) =>
  match goal with H : startFlipping _ = Some ?w' |- out_ok ?w' =>
    eapply bok_startFlipping; [exact H|] end : bok.

Lemma bok_checkBiddingEnd  w w' : checkBiddingEnd w = Some w' → quiet w → out_ok w'.
Proof. intros H ?. unfold checkBiddingEnd in H. exec_in H; bok. Qed.
#[export] Hint Extern 1 (out_ok _) =>
  match goal with H : checkBiddingEnd _ = Some ?w' |- out_ok ?w' =>
    eapply bok_checkBiddingEnd; [exact H|] end : bok.

Lemma bok_handleStartBid now p a w w' : handleStartBid now w p a = Some w' → quiet w → out_ok w'.
Proof. intros H ?. unfold handleStartBid, startBidTimer in H. exec_in H; bok. Qed.
#[export] Hint Extern 1 (out_ok _) =>
  match goal with H : handleStartBid _ _ _ _ = Some ?w' |- out_ok ?w' =>
    eapply bok_handleStartBid; [exact H|] end : bok.

Lemma bok_advancePlacing now w w' : advancePlacing now w = Some w' → quiet w → out_ok w'.
Proof. intros H ?. unfold advancePlacing in H. exec_in H; bok. Qed.
#[export] Hint Extern 1 (out_ok _) =>
  match goal with H : advancePlacing _ _ = Some ?w' |- out_ok ?w' =>
    eapply bok_advancePlacing; [exact H|] end : bok.

Lemma bok_handlePlace now p c w w' : handlePlace now w p c = Some w' → quiet w → out_ok w'.
Proof. intros H ?. unfold handlePlace in H. exec_in H; bok. Qed.
#[export] Hint Extern 1 (out_ok _) =>
  match goal with H : handlePlace _ _ _ _ = Some ?w' |- out_ok ?w' =>
    eapply bok_handlePlace; [exact H|] end : bok.

Lemma bok_handleRaiseBid now p a w w' : handleRaiseBid now w p a = Some w' → quiet w → out_ok w'.
Proof. intros H ?. unfold handleRaiseBid, startBidTimer in H. exec_in H; bok. Qed.
#[export] Hint Extern 1 (out_ok _) =>
  match goal with H : handleRaiseBid _ _ _ _ = Some ?w' |- out_ok ?w' =>
    eapply bok_handleRaiseBid; [exact H|] end : bok.

Lemma bok_handlePass p w w' : handlePass w p = Some w' → quiet w → out_ok w'.
Proof. intros H ?. unfold handlePass in H. exec_in H; bok. Qed.
#[export] Hint Extern 1 (out_ok _) =>
  match goal with H : handlePass _ _ = Some ?w' |- out_ok ?w' =>
    eapply bok_handlePass; [exact H|] end : bok.

Lemma bok_handleFlip f t w w' : handleFlip w f t = Some w' → quiet w → out_ok w'.
Proof. intros H ?. unfold handleFlip in H. exec_in H; bok. Qed.
#[export] Hint Extern 1 (out_ok _) =>
  match goal with H : handleFlip _ _ _ = Some ?w' |- out_ok ?w' =>
    eapply bok_handleFlip; [exact H|] end : bok.

Lemma bok_challengeSuccess p w w' : challengeSuccess w p = Some w' → quiet w → out_ok w'.
Proof. intros H ?. unfold challengeSuccess in H. exec_in H; bok. Qed.
#[export] Hint Extern 1 (out_ok _) =>
  match goal with H : challengeSuccess _ _ = Some ?w' |- out_ok ?w' =>
    eapply bok_challengeSuccess; [exact H|] end : bok.

Lemma bok_doCardRemoval rnd l c w w' : doCardRemoval rnd w l c = Some w' → quiet w → out_ok w'.
Proof. intros H ?. unfold doCardRemoval in H. exec_in H; bok. Qed.
#[export] Hint Extern 1 (out_ok _) =>
  match goal with H : doCardRemoval _ _ _ _ = Some ?w' |- out_ok ?w' =>
    eapply bok_doCardRemoval; [exact H|] end : bok.

Lemma bok_penalize rnd l c w w' : penalize rnd w l c = Some w' → quiet w → out_ok w'.
Proof. intros H ?. unfold penalize in H. exec_in H; bok. Qed.
#[export] Hint Extern 1 (out_ok _) =>
  match goal with H : penalize _ _ _ _ = Some ?w' |- out_ok ?w' =>
    eapply bok_penalize; [exact H|] end : bok.

Lemma bok_handlePenaltyDiscard rnd l c w w' : handlePenaltyDiscard rnd w l c = Some w' → quiet w → out_ok w'.
Proof. intros H ?. unfold handlePenaltyDiscard in H. exec_in H; bok. Qed.
#[export] Hint Extern 1 (out_ok _) =>
  match goal with H : handlePenaltyDiscard _ _ _ _ = Some ?w' |- out_ok ?w' =>
    eapply bok_handlePenaltyDiscard; [exact H|] end : bok.

Lemma bok_runCallback now cb w w' : runCallback now cb w = Some w' → quiet w → out_ok w'.
Proof. intros H ?. unfold runCallback in H. exec_in H; bok. Qed.
#[export] Hint Extern 1 (out_ok _) =>
  match goal with H : runCallback _ _ _ = Some ?w' |- out_ok ?w' =>
    eapply bok_runCallback; [exact H|] end : bok.

Lemma bok_fireTimer now k w w' : fireTimer now w k = Some w' → quiet w → out_ok w'.
Proof. intros H ?. unfold fireTimer in H. exec_in H; bok. Qed.
#[export] Hint Extern 1 (out_ok _) =>
  match goal with H : fireTimer _ _ _ = Some ?w' |- out_ok ?w' =>
    eapply bok_fireTimer; [exact H|] end : bok.

Lemma bok_runDeferred now rnd d w w' : runDeferred now rnd d w = Some w' → quiet w → out_ok w'.
Proof. intros H ?. unfold runDeferred in H. exec_in H; bok. Qed.
#[export] Hint Extern 1 (out_ok _) =>
  match goal with H : runDeferred _ _ _ _ = Some ?w' |- out_ok ?w' =>
    eapply bok_runDeferred; [exact H|] end : bok.

Lemma bok_fireDeferred now rnd k w w' : fireDeferred now rnd w k = Some w' → quiet w → out_ok w'.
Proof. intros H ?. unfold fireDeferred in H. exec_in H; bok. Qed.
#[export] Hint Extern 1 (out_ok _) =>
  match goal with H : fireDeferred _ _ _ _ = Some ?w' |- out_ok ?w' =>
    eapply bok_fireDeferred; [exact H|] end : bok.

Lemma bok_onStartGame now sid w w' : onStartGame now w sid = Some w' → quiet w → out_ok w'.
Proof. intros H ?. unfold onStartGame in H. exec_in H; bok. Qed.
#[export] Hint Extern 1 (out_ok _) =>
  match goal with H : onStartGame _ _ _ = Some ?w' |- out_ok ?w' =>
    eapply bok_onStartGame; [exact H|] end : bok.

Lemma bok_onPlaceCard now sid c w w' : onPlaceCard now w sid c = Some w' → quiet w → out_ok w'.
Proof. intros H ?. unfold onPlaceCard, withSeat in H. exec_in H; bok. Qed.
#[export] Hint Extern 1 (out_ok _) =>
  match goal with H : onPlaceCard _ _ _ _ = Some ?w' |- out_ok ?w' =>
    eapply bok_onPlaceCard; [exact H|] end : bok.

Lemma bok_onStartBid now sid c w w' : onStartBid now w sid c = Some w' → quiet w → out_ok w'.
Proof. intros H ?. unfold onStartBid, withSeat in H. exec_in H; bok. Qed.
#[export] Hint Extern 1 (out_ok _) =>
  match goal with H : onStartBid _ _ _ _ = Some ?w' |- out_ok ?w' =>
    eapply bok_onStartBid; [exact H|] end : bok.

Lemma bok_onRaiseBid now sid c w w' : onRaiseBid now w sid c = Some w' → quiet w → out_ok w'.
Proof. intros H ?. unfold onRaiseBid, withSeat in H. exec_in H; bok. Qed.
#[export] Hint Extern 1 (out_ok _) =>
  match goal with H : onRaiseBid _ _ _ _ = Some ?w' |- out_ok ?w' =>
    eapply bok_onRaiseBid; [exact H|] end : bok.

Lemma bok_onPass sid w w' : onPass w sid = Some w' → quiet w → out_ok w'.
Proof. intros H ?. unfold onPass, withSeat in H. exec_in H; bok. Qed.
#[export] Hint Extern 1 (out_ok _) =>
  match goal with H : onPass _ _ = Some ?w' |- out_ok ?w' =>
    eapply bok_onPass; [exact H|] end : bok.

Lemma bok_onFlipCoaster sid c w w' : onFlipCoaster w sid c = Some w' → quiet w → out_ok w'.
Proof. intros H ?. unfold onFlipCoaster, withSeat in H. exec_in H; bok. Qed.
#[export] Hint Extern 1 (out_ok _) =>
  match goal with H : onFlipCoaster _ _ _ = Some ?w' |- out_ok ?w' =>
    eapply bok_onFlipCoaster; [exact H|] end : bok.

Lemma bok_onPenaltyDiscard rnd sid c w w' : onPenaltyDiscard rnd w sid c = Some w' → quiet w → out_ok w'.
Proof. intros H ?. unfold onPenaltyDiscard, withSeat in H. exec_in H; bok. Qed.
#[export] Hint Extern 1 (out_ok _) =>
  match goal with H : onPenaltyDiscard _ _ _ _ = Some ?w' |- out_ok ?w' =>
    eapply bok_onPenaltyDiscard; [exact H|] end : bok.

Lemma bok_onChatMessage now sid c w w' : onChatMessage now w sid c = Some w' → quiet w → out_ok w'.
Proof. intros H ?. unfold onChatMessage in H. exec_in H; bok. Qed.
#[export] Hint Extern 1 (out_ok _) =>
  match goal with H : onChatMessage _ _ _ _ = Some ?w' |- out_ok ?w' =>
    eapply bok_onChatMessage; [exact H|] end : bok.

Lemma bok_onDougLose sid w w' : onDougLose w sid = Some w' → quiet w → out_ok w'.
Proof. intros H ?. unfold onDougLose in H. exec_in H; bok. Qed.
#[export] Hint Extern 1 (out_ok _) =>
  match goal with H : onDougLose _ _ = Some ?w' |- out_ok ?w' =>
    eapply bok_onDougLose; [exact H|] end : bok.

Lemma bok_onPlayAgain sid w w' : onPlayAgain w sid = Some w' → quiet w → out_ok w'.
Proof. intros H ?. unfold onPlayAgain in H. exec_in H; bok. Qed.
#[export] Hint Extern 1 (out_ok _) =>
  match goal with H : onPlayAgain _ _ = Some ?w' |- out_ok ?w' =>
    eapply bok_onPlayAgain; [exact H|] end : bok.

Lemma bok_onDisconnect sid w w' : onDisconnect w sid = Some w' → quiet w → out_ok w'.
Proof. intros H ?. unfold onDisconnect in H. exec_in H; bok. Qed.
#[export] Hint Extern 1 (out_ok _) =>
  match goal with H : onDisconnect _ _ = Some ?w' |- out_ok ?w' =>
    eapply bok_onDisconnect; [exact H|] end : bok.

Lemma bok_joinFound w c sid nm res :
  joinFound w c sid nm = Some res → quiet w → out_ok (snd res).
Proof. intros H ?. unfold joinFound in H. exec_in H; simpl; bok. Qed.

(** Whatever an event emits as a projection is the projection of the room
    the event leaves behind. *)
Lemma step_out_ok now rnd w ev w' : step now rnd w ev = Some w' → out_ok w'.
Proof.
  intros H. unfold step in H. pose proof (quiet_nil w) as Hq.
  destruct ev; simpl in H; try (by bok).
  apply fmap_Some in H as (res & H & ->). by eapply bok_joinFound.
Qed.

(** * Examples on the concrete session *)

Example demoFlipping_summary :
  phase (room demoFlipping) = Flipping
  ∧ flipsRemaining (room demoFlipping) = 2
  ∧ map (λ p, (length (cards p), length (hand p), length (stack p))) (players (room demoFlipping))
    = [(4, 3, 1); (4, 3, 1)]%nat.
Proof. vm_compute. done. Qed.

Lemma flip_applied_example :
  if flipLegal (room demoFlipping) 0 0 then
    ∃ w' target card,
      handleFlip demoFlipping 0 0 = Some w'
      ∧ getP (room demoFlipping) 0 = Some target
      ∧ last (stack target) = Some card
      ∧ getP (room w') 0 = Some (set_stack (removelast (stack target)) target)
      ∧ (∀ j, j ≠ 0 → getP (room w') j = getP (room demoFlipping) j)
      ∧ revealedCards (room w')
        = revealedCards (room demoFlipping) ++ [Reveal.mk 0 card (name target)]
      ∧ flipsRemaining (room w') = flipsRemaining (room demoFlipping) - 1
  else handleFlip demoFlipping 0 0 = Some demoFlipping.
Proof.
  apply (flip_applied_iff_legal demoFlipping 0 0
           (mkPlayer "a" "Ann" [Rose; Rose; Rose; Skull] [Rose; Rose; Skull] [Rose]
                     0 false false true 0 None)).
  - vm_compute. reflexivity.
  - vm_compute. reflexivity.
Defined.

Lemma projection_example :
  is_Some (stateForPlayer (room demoFlipping) "a")
  ∧ stateForPlayer (replaceHand 1 [Skull; Rose; Rose] (room demoFlipping)) "a"
    = stateForPlayer (room demoFlipping) "a".
Proof.
  destruct (projection_hides_other_hands (room demoFlipping) "a") as [Hsome Hv].
  assert (is_Some (stateForPlayer (room demoFlipping) "a")) as [v E].
  { apply Hsome.
    exists (mkPlayer "a" "Ann" [Rose; Rose; Rose; Skull] [Rose; Rose; Skull] [Rose]
                     0 false false true 0 None).
    split; [|reflexivity]. vm_compute. left. }
  split; [by exists v|]. rewrite E.
  destruct (Hv v E) as (_ & _ & _ & Hni). apply Hni.
  - vm_compute. discriminate.
  - intros p Hp. vm_compute in Hp. injection Hp as <-. reflexivity.
Defined.

Lemma demoPlacing_reachable : reachable demoPlacing.
Proof.
  apply (reach_step 1000 0 demoLobby (EStartGame "a")); [|vm_compute; reflexivity].
  apply (reach_step 0 0 demoCreated (EJoin "b" "Bob")); [|vm_compute; reflexivity].
  apply (reach_create "ABCD" "a" "Ann"). vm_compute. reflexivity.
Qed.

Lemma one_deadline_example :
  (length (timers demoPlacing) ≤ 1)%nat
  ∧ runCallback 0 (CbPlacing 1) demoPlacing = Some demoPlacing.
Proof.
  destruct one_deadline_and_stale_noop as (H1 & _ & H3 & _). split.
  - apply H1. apply demoPlacing_reachable.
  - apply H3. vm_compute. intros [_ [=]].
Defined.

Lemma join_rebinds_example :
  ∃ (i : nat) p w',
    players (room demoBobLeft) !! i = Some p ∧ name p = "Bob" ∧ connected p = false
    ∧ joinRoom demoRooms "c" (Some " abcd") (Some "Bob ")
      = Some (JoinOk "ABCD", <["ABCD" := w']> demoRooms)
    ∧ players (room w') = <[i := rebind "c" p]> (players (room demoBobLeft))
    ∧ length (players (room w')) = length (players (room demoBobLeft))
    ∧ cards (rebind "c" p) = cards p ∧ hand (rebind "c" p) = hand p
    ∧ stack (rebind "c" p) = stack p ∧ wins (rebind "c" p) = wins p
    ∧ name (rebind "c" p) = name p
    ∧ pid (rebind "c" p) = "c" ∧ connected (rebind "c" p) = true.
Proof.
  destruct (join_room_replies demoRooms "c" (Some " abcd") (Some "Bob ")) as [_ H].
  destruct (H demoBobLeft) as (_ & _ & _ & Hre).
  - vm_compute. reflexivity.
  - apply Hre.
    + vm_compute. reflexivity.
    + exists (mkPlayer "b" "Bob" [Rose; Rose; Rose; Skull] [Rose; Rose; Skull] [Rose]
                       0 false false false 1 None).
      split_and!; [|vm_compute; reflexivity|reflexivity].
      vm_compute. right. left.
Defined.

(** * Text helpers *)

Lemma replaceAll_Forall (P : ascii → Prop) c by_ s :
  Forall P (list_ascii_of_string by_) →
  Forall (λ a, a ≠ c → P a) (list_ascii_of_string s) →
  Forall P (list_ascii_of_string (replaceAll c by_ s)).
Proof.
  intros Hby. induction s as [|a s IH]; simpl; intros Hs; [constructor|].
  inversion Hs as [|?? Ha Hs']; subst.
  destruct (Ascii.eqb a c) eqn:E.
  - assert (∀ t u, list_ascii_of_string (t +:+ u)
                   = list_ascii_of_string t ++ list_ascii_of_string u) as Happ.
    { intros t u. induction t as [|x t IHt]; simpl; [done|]. by rewrite <-IHt. }
    rewrite Happ. apply Forall_app. split; [done|]. by apply IH.
  - simpl. constructor; [|by apply IH]. apply Ha. by apply Ascii.eqb_neq.
Qed.

(** X1. The sanitized text holds no angle bracket: a chat line cannot open or
    close a tag. *)
Theorem sanitizeHtml_no_angle_brackets (str : string) :
  Forall (λ a, a ≠ "<"%char ∧ a ≠ ">"%char) (list_ascii_of_string (sanitizeHtml str)).
Proof.
  unfold sanitizeHtml. apply replaceAll_Forall.
  - repeat constructor; discriminate.
  - eapply Forall_impl.
    + apply (replaceAll_Forall (λ a, a ≠ "<"%char) "<" "&lt;").
      * repeat constructor; discriminate.
      * apply Forall_forall. auto.
    + simpl. auto.
Qed.

Lemma upper_lower_char a : upperChar (lowerChar a) = upperChar a.
Proof. destruct a as [[] [] [] [] [] [] [] []]; reflexivity. Qed.

Lemma upper_upper_char a : upperChar (upperChar a) = upperChar a.
Proof. destruct a as [[] [] [] [] [] [] [] []]; reflexivity. Qed.

Lemma toUpperCase_toLowerCase s : toUpperCase (toLowerCase s) = toUpperCase s.
Proof.
  unfold toUpperCase, toLowerCase. induction s as [|a s IH]; simpl; [done|].
  by rewrite upper_lower_char, IH.
Qed.

Lemma toUpperCase_idem s : toUpperCase (toUpperCase s) = toUpperCase s.
Proof.
  unfold toUpperCase. induction s as [|a s IH]; simpl; [done|].
  by rewrite upper_upper_char, IH.
Qed.

(** X2. The lookup of join-room does not depend on the case in which the code
    is typed. *)
Theorem joinRoom_case_insensitive (rooms : gmap string World) (socketId roomCode : string)
    (dataName : option string) :
  joinRoom rooms socketId (Some (toLowerCase roomCode)) dataName
  = joinRoom rooms socketId (Some roomCode) dataName
  ∧ joinRoom rooms socketId (Some (toUpperCase roomCode)) dataName
    = joinRoom rooms socketId (Some roomCode) dataName.
Proof.
  unfold joinRoom. simpl. by rewrite toUpperCase_toLowerCase, toUpperCase_idem.
Qed.

(** * Scanning for the next seat *)



Lemma getP_in_range r i :
  0 ≤ i < Z.of_nat (length (players r)) → is_Some (getP r i).
Proof.
  intros [? ?]. unfold getP. case_decide; [|lia]. apply lookup_lt_is_Some. lia.
Qed.

Lemma findNextActive_loop_spec r from (k : nat) : ∀ a,
  0 ≤ from + a → (0 < length (players r))%nat →
  let n := Z.of_nat (length (players r)) in
  ∃ res, findNextActive_loop r from n (seqZ a (Z.of_nat k)) = Some res
    ∧ ((res = -1 ∧ ∀ i, a ≤ i < a + Z.of_nat k → seatElim r ((from + i) `mod` n))
       ∨ (∃ i, a ≤ i < a + Z.of_nat k ∧ res = (from + i) `mod` n ∧ seatOK r res
               ∧ ∀ j, a ≤ j < i → seatElim r ((from + j) `mod` n))).
Proof.
  induction k as [|k IH]; intros a Ha Hn n.
  - exists (-1). split; [done|]. left. split; [done|]. intros i Hi. lia.
  - rewrite seqZ_cons by lia. simpl.
    rewrite Z.rem_mod_nonneg by lia.
    destruct (getP_in_range r ((from + a) `mod` n)) as [p Hp].
    { apply Z.mod_pos_bound. lia. }
    rewrite Hp. simpl. destruct (eliminated p) eqn:He; simpl.
    + replace (Z.pred (Z.of_nat (S k))) with (Z.of_nat k) by lia.
      destruct (IH (Z.succ a)) as (res & Hres & Hcase); [lia|done|].
      exists res. split; [done|]. destruct Hcase as [[-> Hall]|(i & Hi & -> & Hok & Hpre)].
      * left. split; [done|]. intros i Hi.
        destruct (decide (i = a)) as [->|]; [by exists p|]. apply Hall. lia.
      * right. exists i. split_and!; [lia|lia|reflexivity|exact Hok|]. intros j Hj.
        destruct (decide (j = a)) as [->|]; [by exists p|]. apply Hpre. lia.
    + exists ((from + a) `mod` n). split; [done|]. right. exists a.
      split_and!; [lia|lia|done|by exists p|]. intros j Hj. lia.
Qed.

Lemma findNextActive_scan (r : Room) (from : Z) :
  0 ≤ from →
  let n := Z.of_nat (length (players r)) in
  ∃ res, findNextActive r from = Some res
    ∧ ((res = -1 ∧ ∀ p, p ∈ players r → eliminated p = true)
       ∨ (∃ i, 0 ≤ i < n ∧ res = (from + i) `mod` n ∧ seatOK r res
               ∧ ∀ j, 0 ≤ j < i → seatElim r ((from + j) `mod` n))).
Proof.
  intros Hfrom n. unfold findNextActive. fold n.
  destruct (players r) as [|p0 ps] eqn:Hps.
  { exists (-1). split; [done|]. left. split; [done|]. intros p Hp. by apply elem_of_nil in Hp. }
  assert (0 < length (players r))%nat as Hlen by (rewrite Hps; simpl; lia).
  destruct (findNextActive_loop_spec r from (length (players r)) 0) as (res & Hres & Hcase);
    [lia|done|].
  rewrite Hps in Hres. exists res. split; [exact Hres|].
  destruct Hcase as [[-> Hall]|(i & Hi & -> & Hok & Hpre)].
  - left. split; [done|]. intros p Hp. rewrite <-Hps in Hp.
    apply list_elem_of_lookup in Hp as [j Hj].
    pose proof (lookup_lt_Some _ _ _ Hj) as Hjlt.
    destruct (Hall ((Z.of_nat j - from) `mod` Z.of_nat (length (players r))))
      as (q & Hq & Hel).
    { pose proof (Z.mod_pos_bound (Z.of_nat j - from) (Z.of_nat (length (players r)))). lia. }
    rewrite Zplus_mod_idemp_r in Hq.
    replace (from + (Z.of_nat j - from)) with (Z.of_nat j) in Hq by lia.
    rewrite Z.mod_small in Hq by lia. rewrite getP_of_nat in Hq. congruence.
  - right. exists i. rewrite Hps in *. split_and!; try done; lia.
Qed.

(** X3. [findNextActive] from a non-negative index: it answers the first
    non-eliminated seat met when walking the seats in a circle from
    [from], and [-1] exactly when every seat is eliminated (also when
    there is no seat). *)
Theorem findNextActive_first_alive (r : Room) (from : Z) :
  0 ≤ from →
  let n := Z.of_nat (length (players r)) in
  ∃ res, findNextActive r from = Some res
    ∧ ((res = -1 ∧ ∀ p, p ∈ players r → eliminated p = true)
       ∨ (∃ i, 0 ≤ i < n ∧ res = (from + i) `mod` n ∧ seatOK r res
               ∧ ∀ j, 0 ≤ j < i → seatElim r ((from + j) `mod` n))).
Proof. exact (findNextActive_scan r from). Qed.


Lemma nextActiveUnpassed_loop_spec r from (k : nat) : ∀ a,
  0 ≤ from + a → (0 < length (players r))%nat →
  let n := Z.of_nat (length (players r)) in
  ∃ res, nextActiveUnpassed_loop r from n (seqZ a (Z.of_nat k)) = Some res
    ∧ ((res = -1 ∧ ∀ i, a ≤ i < a + Z.of_nat k → seatBusy r ((from + i) `mod` n))
       ∨ (∃ i, a ≤ i < a + Z.of_nat k ∧ res = (from + i) `mod` n ∧ seatFree r res
               ∧ ∀ j, a ≤ j < i → seatBusy r ((from + j) `mod` n))).
Proof.
  induction k as [|k IH]; intros a Ha Hn n.
  - exists (-1). split; [done|]. left. split; [done|]. intros i Hi. lia.
  - rewrite seqZ_cons by lia. simpl.
    rewrite Z.rem_mod_nonneg by lia.
    destruct (getP_in_range r ((from + a) `mod` n)) as [p Hp].
    { apply Z.mod_pos_bound. lia. }
    rewrite Hp. simpl.
    destruct (negb (eliminated p) && negb (passed p)) eqn:He; simpl.
    + exists ((from + a) `mod` n). split; [done|]. right. exists a.
      apply andb_true_iff in He as [He1 He2].
      apply negb_true_iff in He1. apply negb_true_iff in He2.
      split_and!; [lia|lia|done|by exists p|]. intros j Hj. lia.
    + assert (seatBusy r ((from + a) `mod` n)) as Hbusy.
      { exists p. split; [done|]. destruct (eliminated p), (passed p); auto; done. }
      replace (Z.pred (Z.of_nat (S k))) with (Z.of_nat k) by lia.
      destruct (IH (Z.succ a)) as (res & Hres & Hcase); [lia|done|].
      exists res. split; [done|]. destruct Hcase as [[-> Hall]|(i & Hi & -> & Hok & Hpre)].
      * left. split; [done|]. intros i Hi.
        destruct (decide (i = a)) as [->|]; [done|]. apply Hall. lia.
      * right. exists i. split_and!; [lia|lia|reflexivity|exact Hok|]. intros j Hj.
        destruct (decide (j = a)) as [->|]; [done|]. apply Hpre. lia.
Qed.

Lemma nextActiveUnpassed_scan (r : Room) (from : Z) :
  -1 ≤ from →
  let n := Z.of_nat (length (players r)) in
  ∃ res, nextActiveUnpassed r from = Some res
    ∧ ((res = -1 ∧ ∀ p, p ∈ players r → eliminated p = true ∨ passed p = true)
       ∨ (∃ i, 1 ≤ i ≤ n ∧ res = (from + i) `mod` n ∧ seatFree r res
               ∧ ∀ j, 1 ≤ j < i → seatBusy r ((from + j) `mod` n))).
Proof.
  intros Hfrom n. unfold nextActiveUnpassed. fold n.
  destruct (players r) as [|p0 ps] eqn:Hps.
  { exists (-1). split; [done|]. left. split; [done|]. intros p Hp. by apply elem_of_nil in Hp. }
  assert (0 < length (players r))%nat as Hlen by (rewrite Hps; simpl; lia).
  destruct (nextActiveUnpassed_loop_spec r from (length (players r)) 1) as (res & Hres & Hcase);
    [lia|done|].
  rewrite Hps in Hres. exists res. split; [exact Hres|].
  destruct Hcase as [[-> Hall]|(i & Hi & -> & Hok & Hpre)].
  - left. split; [done|]. intros p Hp. rewrite <-Hps in Hp.
    apply list_elem_of_lookup in Hp as [j Hj].
    pose proof (lookup_lt_Some _ _ _ Hj) as Hjlt.
    pose proof (Z.mod_pos_bound (Z.of_nat j - from - 1) (Z.of_nat (length (players r)))) as Hb.
    destruct (Hall (1 + (Z.of_nat j - from - 1) `mod` Z.of_nat (length (players r))))
      as (q & Hq & Hel); [lia|].
    replace (from + (1 + (Z.of_nat j - from - 1) `mod` Z.of_nat (length (players r))))
      with ((from + 1) + (Z.of_nat j - from - 1) `mod` Z.of_nat (length (players r))) in Hq by lia.
    rewrite Zplus_mod_idemp_r in Hq.
    replace (from + 1 + (Z.of_nat j - from - 1)) with (Z.of_nat j) in Hq by lia.
    rewrite Z.mod_small in Hq by lia. rewrite getP_of_nat in Hq. congruence.
  - right. exists i. rewrite Hps in *. split_and!; try done; lia.
Qed.

(** X4. [nextActiveUnpassed] after seat [from] (or after the sentinel [-1]):
    it answers the first seat, walking the circle from the seat after
    [from] round to [from] itself, that is neither eliminated nor passed,
    and [-1] exactly when every seat is eliminated or has passed. *)
Theorem nextActiveUnpassed_first_free (r : Room) (from : Z) :
  -1 ≤ from →
  let n := Z.of_nat (length (players r)) in
  ∃ res, nextActiveUnpassed r from = Some res
    ∧ ((res = -1 ∧ ∀ p, p ∈ players r → eliminated p = true ∨ passed p = true)
       ∨ (∃ i, 1 ≤ i ≤ n ∧ res = (from + i) `mod` n ∧ seatFree r res
               ∧ ∀ j, 1 ≤ j < i → seatBusy r ((from + j) `mod` n))).
Proof. exact (nextActiveUnpassed_scan r from). Qed.

(** * Structural invariant: bounded log, six seats, distinct names *)

Section Structural.

Lemma SInv_ext r r' :
  SInv r → map name (players r') = map name (players r) →
  (length (log r') ≤ 100)%nat → SInv r'.
Proof.
  intros (Hl & Hn & Hd) Hnames Hlog. split_and!; [done| |by rewrite Hnames].
  rewrite <-(length_map name), Hnames, length_map. done.
Qed.

Lemma length_log_addLog m r :
  (length (log r) ≤ 100)%nat → (length (log (addLog m r)) ≤ 100)%nat.
Proof.
  intros H. unfold addLog. simpl.
  destruct (100 <? Z.of_nat (length (log r ++ [m]))) eqn:E.
  - rewrite length_drop, length_app. simpl. lia.
  - apply Z.ltb_ge in E. lia.
Qed.

Lemma length_log_autoPassAll r :
  (length (log r) ≤ 100)%nat → (length (log (autoPassAll r)) ≤ 100)%nat.
Proof.
  intros H. unfold autoPassAll.
  set (r0 := set_players _ r). assert (length (log r0) ≤ 100)%nat as H0 by done.
  clearbody r0. revert r0 H0.
  induction (concat _) as [|m msgs IH]; intros r0 H0; simpl; [done|].
  apply IH. by apply length_log_addLog.
Qed.

Lemma names_imap (g : nat → Player → Player) ps :
  (∀ i p, name (g i p) = name p) → map name (imap g ps) = map name ps.
Proof.
  intros Hg. apply list_eq. intros k. rewrite !list_lookup_fmap, list_lookup_imap.
  destruct (ps !! k); simpl; by rewrite ?Hg.
Qed.

Lemma names_map (g : Player → Player) ps :
  (∀ p, name (g p) = name p) → map name (map g ps) = map name ps.
Proof. intros Hg. rewrite map_map. apply map_ext. done. Qed.

Lemma names_autoPassAll r : map name (players (autoPassAll r)) = map name (players r).
Proof.
  unfold autoPassAll. rewrite (foldl_addLog_frame players) by done. simpl.
  apply names_imap. intros i p. by destruct (canStillBid r i p).
Qed.

Lemma SInv_autoPassAll r : SInv r → SInv (autoPassAll r).
Proof.
  intros H. apply (SInv_ext r); [done|apply names_autoPassAll|].
  apply length_log_autoPassAll. apply H.
Qed.

Lemma SInv_delete i r : SInv r → SInv (set_players (delete i (players r)) r).
Proof.
  intros (Hl & Hn & Hd). split_and!; simpl; [done| |].
  - pose proof (sublist_length _ _ (sublist_delete (players r) i)). lia.
  - apply (sublist_NoDup _ (map name (players r))); [exact Hd|].
    apply (fmap_sublist name), sublist_delete.
Qed.

Lemma SInv_push socketId nm r :
  SInv r → (length (players r) < 6)%nat →
  existsb (λ p, bool_decide (name p = nm)) (players r) = false →
  SInv (set_players
          (players r ++ [newPlayer socketId nm (Z.of_nat (length (players r)))]) r).
Proof.
  intros (Hl & Hn & Hd) Hlt Hex. split_and!; simpl; [done| |].
  - rewrite length_app. simpl. lia.
  - rewrite map_app. simpl. apply NoDup_app. split_and!; [done| |apply NoDup_singleton].
    intros x Hx ->%list_elem_of_singleton.
    apply list_elem_of_fmap in Hx as (p & Hp & Hin).
    assert (existsb (λ q, bool_decide (name q = nm)) (players r) = true) as Ht.
    { apply existsb_exists. exists p. split; [by apply list_elem_of_In|].
      by apply bool_decide_eq_true. }
    congruence.
Qed.

Lemma sinv_onRoom f w : (∀ r, SInv r → SInv (f r)) → SInvW w → SInvW (onRoom f w).
Proof. unfold SInvW. simpl. auto. Qed.
Lemma sinv_set_outbox o w : SInvW w → SInvW (set_outbox o w).
Proof. done. Qed.
Lemma sinv_set_deferred d w : SInvW w → SInvW (set_deferred d w).
Proof. done. Qed.
Lemma sinv_set_timers d w : SInvW w → SInvW (set_timers d w).
Proof. done. Qed.
Lemma sinv_schedule d w : SInvW w → SInvW (schedule d w).
Proof. done. Qed.
Lemma sinv_clear w : SInvW w → SInvW (clearTurnTimer w).
Proof. unfold SInvW, clearTurnTimer. by destruct (turnTimer (room w)). Qed.
Lemma sinv_start now w s cb : SInvW w → SInvW (startTurnTimer now w s cb).
Proof. unfold SInvW, startTurnTimer, clearTurnTimer. by destruct (turnTimer (room w)). Qed.
Lemma sinv_broadcast w w' : broadcastState w = Some w' → SInvW w → SInvW w'.
Proof. destruct (broadcastState_spec w) as (vs & -> & _). by intros [= <-]. Qed.

End Structural.

(** A single assignment or in-place seat update keeps the invariant. *)
Ltac sinv_room :=
  match goal with
  | H : SInv ?r |- SInv (autoPassAll ?r) => exact (SInv_autoPassAll r H)
  | H : SInv ?r |- SInv (set_players (delete _ (players ?r)) ?r) =>
      exact (SInv_delete _ r H)
  | H : SInv ?r |- SInv _ =>
      apply (SInv_ext r);
      [ exact H
      | unfold players_passed_set_bidder, updP; simpl; first [ reflexivity
                     | apply map_alter_same; intros; reflexivity
                     | apply names_map; intros ?; simpl;
                       first [ reflexivity
                             | match goal with
                               | |- context [if ?b then _ else _] => by destruct b end ]
                     | apply names_imap; intros ? ?; simpl;
                       first [ reflexivity
                             | match goal with
                               | |- context [if ?b then _ else _] => by destruct b end ] ]
      | unfold players_passed_set_bidder, updP;
        first [ apply H
              | apply length_log_addLog; apply H
              | simpl; lia ] ]
  end.

Create HintDb sinv discriminated.
#[export] Hint Resolve sinv_onRoom sinv_set_outbox sinv_set_deferred sinv_set_timers
  sinv_schedule sinv_clear sinv_start : sinv.
#[export] Hint Extern 1 (SInv _) => sinv_room : sinv.
#[export] Hint Extern 1 (SInvW _) =>
  match goal with H : broadcastState _ = Some ?w' |- SInvW ?w' =>
    eapply sinv_broadcast; [exact H|] end : sinv.

Ltac sinv := eauto 30 with sinv.

Lemma sinv_gameOver i w w' : gameOver w i = Some w' → SInvW w → SInvW w'.
Proof. intros H ?. unfold gameOver in H. exec_in H; sinv. Qed.
#[export] Hint Extern 1 (SInvW _) =>
  match goal with H : gameOver _ _ = Some ?w' |- SInvW ?w' =>
    eapply sinv_gameOver; [exact H|] end : sinv.

Lemma sinv_startRound now w w' : startRound now w = Some w' → SInvW w → SInvW w'.
Proof. intros H ?. unfold startRound in H. exec_in H; sinv. Qed.
#[export] Hint Extern 1 (SInvW _) =>
  match goal with H : startRound _ _ = Some ?w' |- SInvW ?w' =>
    eapply sinv_startRound; [exact H|] end : sinv.

Lemma sinv_startGame now w w' : startGame now w = Some w' → SInvW w → SInvW w'.
Proof. intros H ?. unfold startGame in H. exec_in H; sinv. Qed.
#[export] Hint Extern 1 (SInvW _) =>
  match goal with H : startGame _ _ = Some ?w' |- SInvW ?w' =>
    eapply sinv_startGame; [exact H|] end : sinv.

Lemma sinv_startFlipping  w w' : startFlipping w = Some w' → SInvW w → SInvW w'.
Proof. intros H ?. unfold startFlipping in H. exec_in H; sinv. Qed.
#[export] Hint Extern 1 (SInvW _) =>
  match goal with H : startFlipping _ = Some ?w' |- SInvW ?w' =>
    eapply sinv_startFlipping; [exact H|] end : sinv.

Lemma sinv_checkBiddingEnd  w w' : checkBiddingEnd w = Some w' → SInvW w → SInvW w'.
Proof. intros H ?. unfold checkBiddingEnd in H. exec_in H; sinv. Qed.
#[export] Hint Extern 1 (SInvW _) =>
  match goal with H : checkBiddingEnd _ = Some ?w' |- SInvW ?w' =>
    eapply sinv_checkBiddingEnd; [exact H|] end : sinv.

Lemma sinv_handleStartBid now p a w w' : handleStartBid now w p a = Some w' → SInvW w → SInvW w'.
Proof. intros H ?. unfold handleStartBid, startBidTimer in H. exec_in H; sinv. Qed.
#[export] Hint Extern 1 (SInvW _) =>
  match goal with H : handleStartBid _ _ _ _ = Some ?w' |- SInvW ?w' =>
    eapply sinv_handleStartBid; [exact H|] end : sinv.

Lemma sinv_advancePlacing now w w' : advancePlacing now w = Some w' → SInvW w → SInvW w'.
Proof. intros H ?. unfold advancePlacing in H. exec_in H; sinv. Qed.
#[export] Hint Extern 1 (SInvW _) =>
  match goal with H : advancePlacing _ _ = Some ?w' |- SInvW ?w' =>
    eapply sinv_advancePlacing; [exact H|] end : sinv.

Lemma sinv_handlePlace now p c w w' : handlePlace now w p c = Some w' → SInvW w → SInvW w'.
Proof. intros H ?. unfold handlePlace in H. exec_in H; sinv. Qed.
#[export] Hint Extern 1 (SInvW _) =>
  match goal with H : handlePlace _ _ _ _ = Some ?w' |- SInvW ?w' =>
    eapply sinv_handlePlace; [exact H|] end : sinv.

Lemma sinv_handleRaiseBid now p a w w' : handleRaiseBid now w p a = Some w' → SInvW w → SInvW w'.
Proof. intros H ?. unfold handleRaiseBid, startBidTimer in H. exec_in H; sinv. Qed.
#[export] Hint Extern 1 (SInvW _) =>
  match goal with H : handleRaiseBid _ _ _ _ = Some ?w' |- SInvW ?w' =>
    eapply sinv_handleRaiseBid; [exact H|] end : sinv.

Lemma sinv_handlePass p w w' : handlePass w p = Some w' → SInvW w → SInvW w'.
Proof. intros H ?. unfold handlePass in H. exec_in H; sinv. Qed.
#[export] Hint Extern 1 (SInvW _) =>
  match goal with H : handlePass _ _ = Some ?w' |- SInvW ?w' =>
    eapply sinv_handlePass; [exact H|] end : sinv.

Lemma sinv_handleFlip f t w w' : handleFlip w f t = Some w' → SInvW w → SInvW w'.
Proof. intros H ?. unfold handleFlip in H. exec_in H; sinv. Qed.
#[export] Hint Extern 1 (SInvW _) =>
  match goal with H : handleFlip _ _ _ = Some ?w' |- SInvW ?w' =>
    eapply sinv_handleFlip; [exact H|] end : sinv.

Lemma sinv_challengeSuccess p w w' : challengeSuccess w p = Some w' → SInvW w → SInvW w'.
Proof. intros H ?. unfold challengeSuccess in H. exec_in H; sinv. Qed.
#[export] Hint Extern 1 (SInvW _) =>
  match goal with H : challengeSuccess _ _ = Some ?w' |- SInvW ?w' =>
    eapply sinv_challengeSuccess; [exact H|] end : sinv.

Lemma sinv_doCardRemoval rnd l c w w' : doCardRemoval rnd w l c = Some w' → SInvW w → SInvW w'.
Proof. intros H ?. unfold doCardRemoval in H. exec_in H; sinv. Qed.
#[export] Hint Extern 1 (SInvW _) =>
  match goal with H : doCardRemoval _ _ _ _ = Some ?w' |- SInvW ?w' =>
    eapply sinv_doCardRemoval; [exact H|] end : sinv.

Lemma sinv_penalize rnd l c w w' : penalize rnd w l c = Some w' → SInvW w → SInvW w'.
Proof. intros H ?. unfold penalize in H. exec_in H; sinv. Qed.
#[export] Hint Extern 1 (SInvW _) =>
  match goal with H : penalize _ _ _ _ = Some ?w' |- SInvW ?w' =>
    eapply sinv_penalize; [exact H|] end : sinv.

Lemma sinv_handlePenaltyDiscard rnd l c w w' : handlePenaltyDiscard rnd w l c = Some w' → SInvW w → SInvW w'.
Proof. intros H ?. unfold handlePenaltyDiscard in H. exec_in H; sinv. Qed.
#[export] Hint Extern 1 (SInvW _) =>
  match goal with H : handlePenaltyDiscard _ _ _ _ = Some ?w' |- SInvW ?w' =>
    eapply sinv_handlePenaltyDiscard; [exact H|] end : sinv.

Lemma sinv_runCallback now cb w w' : runCallback now cb w = Some w' → SInvW w → SInvW w'.
Proof. intros H ?. unfold runCallback in H. exec_in H; sinv. Qed.
#[export] Hint Extern 1 (SInvW _) =>
  match goal with H : runCallback _ _ _ = Some ?w' |- SInvW ?w' =>
    eapply sinv_runCallback; [exact H|] end : sinv.

Lemma sinv_fireTimer now k w w' : fireTimer now w k = Some w' → SInvW w → SInvW w'.
Proof. intros H ?. unfold fireTimer in H. exec_in H; sinv. Qed.
#[export] Hint Extern 1 (SInvW _) =>
  match goal with H : fireTimer _ _ _ = Some ?w' |- SInvW ?w' =>
    eapply sinv_fireTimer; [exact H|] end : sinv.

Lemma sinv_runDeferred now rnd d w w' : runDeferred now rnd d w = Some w' → SInvW w → SInvW w'.
Proof. intros H ?. unfold runDeferred in H. exec_in H; sinv. Qed.
#[export] Hint Extern 1 (SInvW _) =>
  match goal with H : runDeferred _ _ _ _ = Some ?w' |- SInvW ?w' =>
    eapply sinv_runDeferred; [exact H|] end : sinv.

Lemma sinv_fireDeferred now rnd k w w' : fireDeferred now rnd w k = Some w' → SInvW w → SInvW w'.
Proof. intros H ?. unfold fireDeferred in H. exec_in H; sinv. Qed.
#[export] Hint Extern 1 (SInvW _) =>
  match goal with H : fireDeferred _ _ _ _ = Some ?w' |- SInvW ?w' =>
    eapply sinv_fireDeferred; [exact H|] end : sinv.

Lemma sinv_onStartGame now sid w w' : onStartGame now w sid = Some w' → SInvW w → SInvW w'.
Proof. intros H ?. unfold onStartGame in H. exec_in H; sinv. Qed.
#[export] Hint Extern 1 (SInvW _) =>
  match goal with H : onStartGame _ _ _ = Some ?w' |- SInvW ?w' =>
    eapply sinv_onStartGame; [exact H|] end : sinv.

Lemma sinv_onPlaceCard now sid c w w' : onPlaceCard now w sid c = Some w' → SInvW w → SInvW w'.
Proof. intros H ?. unfold onPlaceCard, withSeat in H. exec_in H; sinv. Qed.
#[export] Hint Extern 1 (SInvW _) =>
  match goal with H : onPlaceCard _ _ _ _ = Some ?w' |- SInvW ?w' =>
    eapply sinv_onPlaceCard; [exact H|] end : sinv.

Lemma sinv_onStartBid now sid c w w' : onStartBid now w sid c = Some w' → SInvW w → SInvW w'.
Proof. intros H ?. unfold onStartBid, withSeat in H. exec_in H; sinv. Qed.
#[export] Hint Extern 1 (SInvW _) =>
  match goal with H : onStartBid _ _ _ _ = Some ?w' |- SInvW ?w' =>
    eapply sinv_onStartBid; [exact H|] end : sinv.

Lemma sinv_onRaiseBid now sid c w w' : onRaiseBid now w sid c = Some w' → SInvW w → SInvW w'.
Proof. intros H ?. unfold onRaiseBid, withSeat in H. exec_in H; sinv. Qed.
#[export] Hint Extern 1 (SInvW _) =>
  match goal with H : onRaiseBid _ _ _ _ = Some ?w' |- SInvW ?w' =>
    eapply sinv_onRaiseBid; [exact H|] end : sinv.

Lemma sinv_onPass sid w w' : onPass w sid = Some w' → SInvW w → SInvW w'.
Proof. intros H ?. unfold onPass, withSeat in H. exec_in H; sinv. Qed.
#[export] Hint Extern 1 (SInvW _) =>
  match goal with H : onPass _ _ = Some ?w' |- SInvW ?w' =>
    eapply sinv_onPass; [exact H|] end : sinv.

Lemma sinv_onFlipCoaster sid c w w' : onFlipCoaster w sid c = Some w' → SInvW w → SInvW w'.
Proof. intros H ?. unfold onFlipCoaster, withSeat in H. exec_in H; sinv. Qed.
#[export] Hint Extern 1 (SInvW _) =>
  match goal with H : onFlipCoaster _ _ _ = Some ?w' |- SInvW ?w' =>
    eapply sinv_onFlipCoaster; [exact H|] end : sinv.

Lemma sinv_onPenaltyDiscard rnd sid c w w' : onPenaltyDiscard rnd w sid c = Some w' → SInvW w → SInvW w'.
Proof. intros H ?. unfold onPenaltyDiscard, withSeat in H. exec_in H; sinv. Qed.
#[export] Hint Extern 1 (SInvW _) =>
  match goal with H : onPenaltyDiscard _ _ _ _ = Some ?w' |- SInvW ?w' =>
    eapply sinv_onPenaltyDiscard; [exact H|] end : sinv.

Lemma sinv_onChatMessage now sid c w w' : onChatMessage now w sid c = Some w' → SInvW w → SInvW w'.
Proof. intros H ?. unfold onChatMessage in H. exec_in H; sinv. Qed.
#[export] Hint Extern 1 (SInvW _) =>
  match goal with H : onChatMessage _ _ _ _ = Some ?w' |- SInvW ?w' =>
    eapply sinv_onChatMessage; [exact H|] end : sinv.

Lemma sinv_onDougLose sid w w' : onDougLose w sid = Some w' → SInvW w → SInvW w'.
Proof. intros H ?. unfold onDougLose in H. exec_in H; sinv. Qed.
#[export] Hint Extern 1 (SInvW _) =>
  match goal with H : onDougLose _ _ = Some ?w' |- SInvW ?w' =>
    eapply sinv_onDougLose; [exact H|] end : sinv.

Lemma sinv_onPlayAgain sid w w' : onPlayAgain w sid = Some w' → SInvW w → SInvW w'.
Proof. intros H ?. unfold onPlayAgain in H. exec_in H; sinv. Qed.
#[export] Hint Extern 1 (SInvW _) =>
  match goal with H : onPlayAgain _ _ = Some ?w' |- SInvW ?w' =>
    eapply sinv_onPlayAgain; [exact H|] end : sinv.

Lemma sinv_onDisconnect sid w w' : onDisconnect w sid = Some w' → SInvW w → SInvW w'.
Proof. intros H ?. unfold onDisconnect in H. exec_in H; sinv. Qed.
#[export] Hint Extern 1 (SInvW _) =>
  match goal with H : onDisconnect _ _ = Some ?w' |- SInvW ?w' =>
    eapply sinv_onDisconnect; [exact H|] end : sinv.

Lemma sinv_joinFound w c sid nm res :
  joinFound w c sid nm = Some res → SInvW w → SInvW (snd res).
Proof.
  intros H Hw. unfold joinFound in H. exec_in H; simpl; sinv.
  eapply sinv_broadcast; [exact Hx|]. apply sinv_onRoom; [intros; sinv_room|].
  unfold SInvW. simpl. apply SInv_push; [done| |done].
  apply Z.leb_gt in Hb0. lia.
Qed.

Lemma sinv_step now rnd w ev w' : step now rnd w ev = Some w' → SInvW w → SInvW w'.
Proof.
  intros H Hok. unfold step in H. apply (sinv_set_outbox []) in Hok.
  destruct ev; simpl in H; try (by sinv).
  apply fmap_Some in H as (res & H & ->). by eapply sinv_joinFound.
Qed.

(** X5. At every moment of a room's life the event log holds at most 100
    lines, the room has at most six seats and no two seats share a display
    name (so that reconnection by name is unambiguous). *)
Theorem room_stays_well_formed (w : World) :
  reachable w →
  (length (log (room w)) ≤ 100)%nat
  ∧ (length (players (room w)) ≤ 6)%nat
  ∧ NoDup (map name (players (room w))).
Proof.
  induction 1 as [c sid nm w H|now rnd w ev w' _ IH H].
  - unfold createRoom in H. eapply (sinv_broadcast _ w) in H; [exact H|].
    unfold SInvW, SInv. simpl. split_and!; [lia|lia|]. apply NoDup_singleton.
  - by eapply sinv_step.
Qed.
(** * Seats, names and host are stable *)

Section Seated.

Lemma proj_map {B} (g : Player → B) (f : Player → Player) ps :
  (∀ p, g (f p) = g p) → map g (map f ps) = map g ps.
Proof. intros Hf. rewrite map_map. apply map_ext. done. Qed.

Lemma proj_imap {B} (g : Player → B) (f : nat → Player → Player) ps :
  (∀ i p, g (f i p) = g p) → map g (imap f ps) = map g ps.
Proof.
  intros Hf. apply list_eq. intros k. rewrite !list_lookup_fmap, list_lookup_imap.
  destruct (ps !! k); simpl; by rewrite ?Hf.
Qed.

Lemma Seated_autoPassAll ids nms h r : Seated ids nms h r → Seated ids nms h (autoPassAll r).
Proof.
  intros (Hi & Hn & Hh). unfold Seated, autoPassAll.
  rewrite !(foldl_addLog_frame players), (foldl_addLog_frame hostId) by done. simpl.
  split_and!; [rewrite <-Hi|rewrite <-Hn|done];
    apply proj_imap; intros i p; by destruct (canStillBid r i p).
Qed.

Lemma seated_onRoom ids nms h f w :
  (∀ r, Seated ids nms h r → Seated ids nms h (f r)) →
  SeatedW ids nms h w → SeatedW ids nms h (onRoom f w).
Proof. intros Hf. apply Hf. Qed.
Lemma seated_set_outbox ids nms h o w : SeatedW ids nms h w → SeatedW ids nms h (set_outbox o w).
Proof. done. Qed.
Lemma seated_set_deferred ids nms h d w :
  SeatedW ids nms h w → SeatedW ids nms h (set_deferred d w).
Proof. done. Qed.
Lemma seated_set_timers ids nms h d w : SeatedW ids nms h w → SeatedW ids nms h (set_timers d w).
Proof. done. Qed.
Lemma seated_schedule ids nms h d w : SeatedW ids nms h w → SeatedW ids nms h (schedule d w).
Proof. done. Qed.
Lemma seated_clear ids nms h w : SeatedW ids nms h w → SeatedW ids nms h (clearTurnTimer w).
Proof. unfold clearTurnTimer. by destruct (turnTimer (room w)). Qed.
Lemma seated_start ids nms h now w s cb :
  SeatedW ids nms h w → SeatedW ids nms h (startTurnTimer now w s cb).
Proof. unfold startTurnTimer, clearTurnTimer. by destruct (turnTimer (room w)). Qed.
Lemma seated_broadcast ids nms h w w' :
  broadcastState w = Some w' → SeatedW ids nms h w → SeatedW ids nms h w'.
Proof. destruct (broadcastState_spec w) as (vs & -> & _). by intros [= <-]. Qed.

End Seated.

(** A single assignment or in-place seat update keeps ids, names and host. *)
Ltac seated_room :=
  match goal with
  | H : Seated ?ids ?nms ?h ?r |- Seated ?ids ?nms ?h (autoPassAll ?r) =>
      exact (Seated_autoPassAll ids nms h r H)
  | H : Seated ?ids ?nms ?h ?r |- Seated ?ids ?nms ?h _ =>
      let Hi := fresh in let Hn := fresh in let Hh := fresh in
      destruct H as (Hi & Hn & Hh);
      unfold Seated, players_passed_set_bidder, updP; simpl;
      split_and!; [rewrite <-Hi|rewrite <-Hn|exact Hh];
      first [ reflexivity
            | apply map_alter_same; intros; reflexivity
            | apply proj_map; intros ?; simpl;
              first [ reflexivity
                    | match goal with
                      | |- context [if ?b then _ else _] => by destruct b end ]
            | apply proj_imap; intros ? ?; simpl;
              first [ reflexivity
                    | match goal with
                      | |- context [if ?b then _ else _] => by destruct b end ] ]
  end.

Create HintDb seated discriminated.
#[export] Hint Resolve seated_onRoom seated_set_outbox seated_set_deferred seated_set_timers
  seated_schedule seated_clear seated_start : seated.
#[export] Hint Extern 1 (Seated _ _ _ _) => seated_room : seated.
#[export] Hint Extern 1 (SeatedW _ _ _ _) =>
  match goal with H : broadcastState _ = Some ?w' |- SeatedW _ _ _ ?w' =>
    eapply seated_broadcast; [exact H|] end : seated.

Ltac seated := eauto 30 with seated.

Lemma seated_gameOver ids nms h i w w' :
  gameOver w i = Some w' → SeatedW ids nms h w → SeatedW ids nms h w'.
Proof. intros H ?. unfold gameOver in H. exec_in H; seated. Qed.
#[export] Hint Extern 1 (SeatedW _ _ _ _) =>
  match goal with H : gameOver _ _ = Some ?w' |- SeatedW _ _ _ ?w' =>
    eapply seated_gameOver; [exact H|] end : seated.

Lemma seated_startRound ids nms h now w w' :
  startRound now w = Some w' → SeatedW ids nms h w → SeatedW ids nms h w'.
Proof. intros H ?. unfold startRound in H. exec_in H; seated. Qed.
#[export] Hint Extern 1 (SeatedW _ _ _ _) =>
  match goal with H : startRound _ _ = Some ?w' |- SeatedW _ _ _ ?w' =>
    eapply seated_startRound; [exact H|] end : seated.

Lemma seated_startGame ids nms h now w w' :
  startGame now w = Some w' → SeatedW ids nms h w → SeatedW ids nms h w'.
Proof. intros H ?. unfold startGame in H. exec_in H; seated. Qed.
#[export] Hint Extern 1 (SeatedW _ _ _ _) =>
  match goal with H : startGame _ _ = Some ?w' |- SeatedW _ _ _ ?w' =>
    eapply seated_startGame; [exact H|] end : seated.

Lemma seated_startFlipping ids nms h  w w' :
  startFlipping w = Some w' → SeatedW ids nms h w → SeatedW ids nms h w'.
Proof. intros H ?. unfold startFlipping in H. exec_in H; seated. Qed.
#[export] Hint Extern 1 (SeatedW _ _ _ _) =>
  match goal with H : startFlipping _ = Some ?w' |- SeatedW _ _ _ ?w' =>
    eapply seated_startFlipping; [exact H|] end : seated.

Lemma seated_checkBiddingEnd ids nms h  w w' :
  checkBiddingEnd w = Some w' → SeatedW ids nms h w → SeatedW ids nms h w'.
Proof. intros H ?. unfold checkBiddingEnd in H. exec_in H; seated. Qed.
#[export] Hint Extern 1 (SeatedW _ _ _ _) =>
  match goal with H : checkBiddingEnd _ = Some ?w' |- SeatedW _ _ _ ?w' =>
    eapply seated_checkBiddingEnd; [exact H|] end : seated.

Lemma seated_handleStartBid ids nms h now p a w w' :
  handleStartBid now w p a = Some w' → SeatedW ids nms h w → SeatedW ids nms h w'.
Proof. intros H ?. unfold handleStartBid, startBidTimer in H. exec_in H; seated. Qed.
#[export] Hint Extern 1 (SeatedW _ _ _ _) =>
  match goal with H : handleStartBid _ _ _ _ = Some ?w' |- SeatedW _ _ _ ?w' =>
    eapply seated_handleStartBid; [exact H|] end : seated.

Lemma seated_advancePlacing ids nms h now w w' :
  advancePlacing now w = Some w' → SeatedW ids nms h w → SeatedW ids nms h w'.
Proof. intros H ?. unfold advancePlacing in H. exec_in H; seated. Qed.
#[export] Hint Extern 1 (SeatedW _ _ _ _) =>
  match goal with H : advancePlacing _ _ = Some ?w' |- SeatedW _ _ _ ?w' =>
    eapply seated_advancePlacing; [exact H|] end : seated.

Lemma seated_handlePlace ids nms h now p c w w' :
  handlePlace now w p c = Some w' → SeatedW ids nms h w → SeatedW ids nms h w'.
Proof. intros H ?. unfold handlePlace in H. exec_in H; seated. Qed.
#[export] Hint Extern 1 (SeatedW _ _ _ _) =>
  match goal with H : handlePlace _ _ _ _ = Some ?w' |- SeatedW _ _ _ ?w' =>
    eapply seated_handlePlace; [exact H|] end : seated.

Lemma seated_handleRaiseBid ids nms h now p a w w' :
  handleRaiseBid now w p a = Some w' → SeatedW ids nms h w → SeatedW ids nms h w'.
Proof. intros H ?. unfold handleRaiseBid, startBidTimer in H. exec_in H; seated. Qed.
#[export] Hint Extern 1 (SeatedW _ _ _ _) =>
  match goal with H : handleRaiseBid _ _ _ _ = Some ?w' |- SeatedW _ _ _ ?w' =>
    eapply seated_handleRaiseBid; [exact H|] end : seated.

Lemma seated_handlePass ids nms h p w w' :
  handlePass w p = Some w' → SeatedW ids nms h w → SeatedW ids nms h w'.
Proof. intros H ?. unfold handlePass in H. exec_in H; seated. Qed.
#[export] Hint Extern 1 (SeatedW _ _ _ _) =>
  match goal with H : handlePass _ _ = Some ?w' |- SeatedW _ _ _ ?w' =>
    eapply seated_handlePass; [exact H|] end : seated.

Lemma seated_handleFlip ids nms h f t w w' :
  handleFlip w f t = Some w' → SeatedW ids nms h w → SeatedW ids nms h w'.
Proof. intros H ?. unfold handleFlip in H. exec_in H; seated. Qed.
#[export] Hint Extern 1 (SeatedW _ _ _ _) =>
  match goal with H : handleFlip _ _ _ = Some ?w' |- SeatedW _ _ _ ?w' =>
    eapply seated_handleFlip; [exact H|] end : seated.

Lemma seated_challengeSuccess ids nms h p w w' :
  challengeSuccess w p = Some w' → SeatedW ids nms h w → SeatedW ids nms h w'.
Proof. intros H ?. unfold challengeSuccess in H. exec_in H; seated. Qed.
#[export] Hint Extern 1 (SeatedW _ _ _ _) =>
  match goal with H : challengeSuccess _ _ = Some ?w' |- SeatedW _ _ _ ?w' =>
    eapply seated_challengeSuccess; [exact H|] end : seated.

Lemma seated_doCardRemoval ids nms h rnd l c w w' :
  doCardRemoval rnd w l c = Some w' → SeatedW ids nms h w → SeatedW ids nms h w'.
Proof. intros H ?. unfold doCardRemoval in H. exec_in H; seated. Qed.
#[export] Hint Extern 1 (SeatedW _ _ _ _) =>
  match goal with H : doCardRemoval _ _ _ _ = Some ?w' |- SeatedW _ _ _ ?w' =>
    eapply seated_doCardRemoval; [exact H|] end : seated.

Lemma seated_penalize ids nms h rnd l c w w' :
  penalize rnd w l c = Some w' → SeatedW ids nms h w → SeatedW ids nms h w'.
Proof. intros H ?. unfold penalize in H. exec_in H; seated. Qed.
#[export] Hint Extern 1 (SeatedW _ _ _ _) =>
  match goal with H : penalize _ _ _ _ = Some ?w' |- SeatedW _ _ _ ?w' =>
    eapply seated_penalize; [exact H|] end : seated.

Lemma seated_handlePenaltyDiscard ids nms h rnd l c w w' :
  handlePenaltyDiscard rnd w l c = Some w' → SeatedW ids nms h w → SeatedW ids nms h w'.
Proof. intros H ?. unfold handlePenaltyDiscard in H. exec_in H; seated. Qed.
#[export] Hint Extern 1 (SeatedW _ _ _ _) =>
  match goal with H : handlePenaltyDiscard _ _ _ _ = Some ?w' |- SeatedW _ _ _ ?w' =>
    eapply seated_handlePenaltyDiscard; [exact H|] end : seated.

Lemma seated_runCallback ids nms h now cb w w' :
  runCallback now cb w = Some w' → SeatedW ids nms h w → SeatedW ids nms h w'.
Proof. intros H ?. unfold runCallback in H. exec_in H; seated. Qed.
#[export] Hint Extern 1 (SeatedW _ _ _ _) =>
  match goal with H : runCallback _ _ _ = Some ?w' |- SeatedW _ _ _ ?w' =>
    eapply seated_runCallback; [exact H|] end : seated.

Lemma seated_runDeferred ids nms h now rnd d w w' :
  runDeferred now rnd d w = Some w' → SeatedW ids nms h w → SeatedW ids nms h w'.
Proof. intros H ?. unfold runDeferred in H. exec_in H; seated. Qed.
#[export] Hint Extern 1 (SeatedW _ _ _ _) =>
  match goal with H : runDeferred _ _ _ _ = Some ?w' |- SeatedW _ _ _ ?w' =>
    eapply seated_runDeferred; [exact H|] end : seated.

Lemma seated_fireDeferred ids nms h now rnd k w w' :
  fireDeferred now rnd w k = Some w' → SeatedW ids nms h w → SeatedW ids nms h w'.
Proof. intros H ?. unfold fireDeferred in H. exec_in H; seated. Qed.
#[export] Hint Extern 1 (SeatedW _ _ _ _) =>
  match goal with H : fireDeferred _ _ _ _ = Some ?w' |- SeatedW _ _ _ ?w' =>
    eapply seated_fireDeferred; [exact H|] end : seated.

Lemma seated_onStartGame ids nms h now sid w w' :
  onStartGame now w sid = Some w' → SeatedW ids nms h w → SeatedW ids nms h w'.
Proof. intros H ?. unfold onStartGame in H. exec_in H; seated. Qed.
#[export] Hint Extern 1 (SeatedW _ _ _ _) =>
  match goal with H : onStartGame _ _ _ = Some ?w' |- SeatedW _ _ _ ?w' =>
    eapply seated_onStartGame; [exact H|] end : seated.

Lemma seated_onPlaceCard ids nms h now sid c w w' :
  onPlaceCard now w sid c = Some w' → SeatedW ids nms h w → SeatedW ids nms h w'.
Proof. intros H ?. unfold onPlaceCard, withSeat in H. exec_in H; seated. Qed.
#[export] Hint Extern 1 (SeatedW _ _ _ _) =>
  match goal with H : onPlaceCard _ _ _ _ = Some ?w' |- SeatedW _ _ _ ?w' =>
    eapply seated_onPlaceCard; [exact H|] end : seated.

Lemma seated_onStartBid ids nms h now sid c w w' :
  onStartBid now w sid c = Some w' → SeatedW ids nms h w → SeatedW ids nms h w'.
Proof. intros H ?. unfold onStartBid, withSeat in H. exec_in H; seated. Qed.
#[export] Hint Extern 1 (SeatedW _ _ _ _) =>
  match goal with H : onStartBid _ _ _ _ = Some ?w' |- SeatedW _ _ _ ?w' =>
    eapply seated_onStartBid; [exact H|] end : seated.

Lemma seated_onRaiseBid ids nms h now sid c w w' :
  onRaiseBid now w sid c = Some w' → SeatedW ids nms h w → SeatedW ids nms h w'.
Proof. intros H ?. unfold onRaiseBid, withSeat in H. exec_in H; seated. Qed.
#[export] Hint Extern 1 (SeatedW _ _ _ _) =>
  match goal with H : onRaiseBid _ _ _ _ = Some ?w' |- SeatedW _ _ _ ?w' =>
    eapply seated_onRaiseBid; [exact H|] end : seated.

Lemma seated_onPass ids nms h sid w w' :
  onPass w sid = Some w' → SeatedW ids nms h w → SeatedW ids nms h w'.
Proof. intros H ?. unfold onPass, withSeat in H. exec_in H; seated. Qed.
#[export] Hint Extern 1 (SeatedW _ _ _ _) =>
  match goal with H : onPass _ _ = Some ?w' |- SeatedW _ _ _ ?w' =>
    eapply seated_onPass; [exact H|] end : seated.

Lemma seated_onFlipCoaster ids nms h sid c w w' :
  onFlipCoaster w sid c = Some w' → SeatedW ids nms h w → SeatedW ids nms h w'.
Proof. intros H ?. unfold onFlipCoaster, withSeat in H. exec_in H; seated. Qed.
#[export] Hint Extern 1 (SeatedW _ _ _ _) =>
  match goal with H : onFlipCoaster _ _ _ = Some ?w' |- SeatedW _ _ _ ?w' =>
    eapply seated_onFlipCoaster; [exact H|] end : seated.

Lemma seated_onPenaltyDiscard ids nms h rnd sid c w w' :
  onPenaltyDiscard rnd w sid c = Some w' → SeatedW ids nms h w → SeatedW ids nms h w'.
Proof. intros H ?. unfold onPenaltyDiscard, withSeat in H. exec_in H; seated. Qed.
#[export] Hint Extern 1 (SeatedW _ _ _ _) =>
  match goal with H : onPenaltyDiscard _ _ _ _ = Some ?w' |- SeatedW _ _ _ ?w' =>
    eapply seated_onPenaltyDiscard; [exact H|] end : seated.

Lemma seated_onChatMessage ids nms h now sid c w w' :
  onChatMessage now w sid c = Some w' → SeatedW ids nms h w → SeatedW ids nms h w'.
Proof. intros H ?. unfold onChatMessage in H. exec_in H; seated. Qed.
#[export] Hint Extern 1 (SeatedW _ _ _ _) =>
  match goal with H : onChatMessage _ _ _ _ = Some ?w' |- SeatedW _ _ _ ?w' =>
    eapply seated_onChatMessage; [exact H|] end : seated.

Lemma seated_onDougLose ids nms h sid w w' :
  onDougLose w sid = Some w' → SeatedW ids nms h w → SeatedW ids nms h w'.
Proof. intros H ?. unfold onDougLose in H. exec_in H; seated. Qed.
#[export] Hint Extern 1 (SeatedW _ _ _ _) =>
  match goal with H : onDougLose _ _ = Some ?w' |- SeatedW _ _ _ ?w' =>
    eapply seated_onDougLose; [exact H|] end : seated.

Lemma seated_onPlayAgain ids nms h sid w w' :
  onPlayAgain w sid = Some w' → SeatedW ids nms h w → SeatedW ids nms h w'.
Proof. intros H ?. unfold onPlayAgain in H. exec_in H; seated. Qed.
#[export] Hint Extern 1 (SeatedW _ _ _ _) =>
  match goal with H : onPlayAgain _ _ = Some ?w' |- SeatedW _ _ _ ?w' =>
    eapply seated_onPlayAgain; [exact H|] end : seated.

Lemma seated_fireTimer ids nms h now k w w' :
  fireTimer now w k = Some w' → SeatedW ids nms h w → SeatedW ids nms h w'.
Proof. intros H ?. unfold fireTimer in H. exec_in H; seated. Qed.
#[export] Hint Extern 1 (SeatedW _ _ _ _) =>
  match goal with H : fireTimer _ _ _ = Some ?w' |- SeatedW _ _ _ ?w' =>
    eapply seated_fireTimer; [exact H|] end : seated.

Lemma seated_onDisconnect ids nms h sid w w' :
  started (room w) = true →
  onDisconnect w sid = Some w' → SeatedW ids nms h w → SeatedW ids nms h w'.
Proof.
  intros Hst H ?. unfold onDisconnect in H. rewrite Hst in H. cbn [negb] in H.
  exec_in H; seated.
Qed.

Lemma names_joinFound w c sid nm res :
  started (room w) = true → joinFound w c sid nm = Some res →
  map name (players (room (snd res))) = map name (players (room w))
  ∧ hostId (room (snd res)) = hostId (room w).
Proof.
  intros Hst H. unfold joinFound in H. cbv zeta in H. rewrite Hst in H.
  destruct (list_find _ _) as [[i existing]|]; [|by simplify_eq].
  apply bind_Some in H as (w1 & Hb & [= <-]).
  destruct (broadcastState_spec (onRoom (updP (Z.of_nat i)
              (λ p, set_connected true (set_pid sid p))) w)) as (vs & Hb' & _).
  rewrite Hb' in Hb. injection Hb as <-. cbn. split; [|done].
  by apply map_alter_same.
Qed.

(** X24. Seats, names and host are stable: in a started room no event
    adds, removes, renames or reorders a seat or changes the host, and in a
    lobby only a join or a disconnection does; the sockets bound to the
    seats change only by a join (a reconnection). *)
Theorem seats_change_only_by_join_and_leave now rnd w ev w' :
  step now rnd w ev = Some w' →
  started (room w) = true ∨ changesSeats ev = false →
  map name (players (room w')) = map name (players (room w))
  ∧ hostId (room w') = hostId (room w)
  ∧ (isJoin ev = false → map pid (players (room w')) = map pid (players (room w))).
Proof.
  intros H Hcase. unfold step in H.
  assert (SeatedW (map pid (players (room w))) (map name (players (room w)))
                  (hostId (room w)) (set_outbox [] w)) as Hs by done.
  destruct ev; cbn [dispatch] in H;
    try (assert (SeatedW (map pid (players (room w))) (map name (players (room w)))
                         (hostId (room w)) w') as (? & ? & ?) by seated; done).
  - destruct Hcase as [Hst|?]; [|done].
    apply fmap_Some in H as (res & H & ->).
    destruct (names_joinFound (set_outbox [] w) _ _ _ _ Hst H) as [? ?]. done.
  - destruct Hcase as [Hst|?]; [|done].
    destruct (seated_onDisconnect _ _ _ _ (set_outbox [] w) _ Hst H Hs) as (? & ? & ?). done.
Qed.
(** * The invariant of a running game *)

Arguments clearTurnTimer : simpl never.
Arguments startTurnTimer : simpl never.
Arguments getP : simpl never.
Arguments countOnTable : simpl never.
Arguments broadcastState : simpl never.
Arguments findNextActive : simpl never.
Arguments nextActiveUnpassed : simpl never.
Arguments activePlayers : simpl never.
Arguments autoPassAll : simpl never.
Arguments findIndex : simpl never.
Arguments playerIndex : simpl never.
Arguments revealedOf : simpl never.
Arguments pendingRes : simpl never.
Arguments aliveSeats : simpl never.
Arguments sumStacks : simpl never.
Arguments lookupZ : simpl never.
Arguments revCount : simpl never.

Section WorldProjections.

Lemma room_clear w :
  room (clearTurnTimer w) = set_turnDeadline 0 (set_turnTimer None (room w)).
Proof.
  unfold clearTurnTimer. destruct w as [r ts ds nh ob]. simpl.
  destruct r as [? ? ? ? ? ? ? ? ? ? ? ? ? ? ? [h|] ? ?]; reflexivity.
Qed.

Lemma deferred_clear w : deferred (clearTurnTimer w) = deferred w.
Proof. unfold clearTurnTimer. by destruct (turnTimer (room w)). Qed.

Lemma nextHandle_clear w : nextHandle (clearTurnTimer w) = nextHandle w.
Proof. unfold clearTurnTimer. by destruct (turnTimer (room w)). Qed.

Lemma outbox_clear w : outbox (clearTurnTimer w) = outbox w.
Proof. unfold clearTurnTimer. by destruct (turnTimer (room w)). Qed.

Lemma room_start now w s cb :
  room (startTurnTimer now w s cb)
  = set_turnTimer (Some (nextHandle w)) (set_turnDeadline (now + s * 1000) (room w)).
Proof.
  unfold startTurnTimer. cbv zeta.
  cbn [room onRoom set_room set_nextHandle set_timers nextHandle].
  rewrite room_clear, nextHandle_clear. by destruct (room w).
Qed.

Lemma deferred_start now w s cb : deferred (startTurnTimer now w s cb) = deferred w.
Proof. unfold startTurnTimer. simpl. apply deferred_clear. Qed.

Lemma outbox_start now w s cb : outbox (startTurnTimer now w s cb) = outbox w.
Proof. unfold startTurnTimer. simpl. apply outbox_clear. Qed.

Lemma pendingRes_clear w : pendingRes (clearTurnTimer w) = pendingRes w.
Proof. unfold pendingRes. by rewrite deferred_clear. Qed.

Lemma pendingRes_start now w s cb : pendingRes (startTurnTimer now w s cb) = pendingRes w.
Proof. unfold pendingRes. by rewrite deferred_start. Qed.

Lemma pendingRes_onRoom f w : pendingRes (onRoom f w) = pendingRes w.
Proof. done. Qed.

Lemma pendingRes_set_outbox o w : pendingRes (set_outbox o w) = pendingRes w.
Proof. done. Qed.

Lemma pendingRes_set_timers o w : pendingRes (set_timers o w) = pendingRes w.
Proof. done. Qed.

Lemma pendingRes_schedule d w :
  pendingRes (schedule d w) = pendingRes w ++ (if resolution d then [d] else []).
Proof.
  unfold pendingRes, schedule. simpl. rewrite List.filter_app. simpl.
  by destruct (resolution d).
Qed.

Lemma filter_res_delete (l : list Deferred) k d :
  l !! k = Some d →
  (resolution d = false → List.filter resolution (delete k l) = List.filter resolution l)
  ∧ (resolution d = true → ∀ d', List.filter resolution l = [d'] →
       d' = d ∧ List.filter resolution (delete k l) = [])
  ∧ (List.filter resolution l = [] → resolution d = false).
Proof.
  revert k. induction l as [|x l IH]; intros k Hk; [done|].
  destruct k as [|k]; simpl in *.
  - injection Hk as ->. split_and!.
    + by intros ->.
    + intros -> d' Hd'. injection Hd' as -> Hl. done.
    + destruct (resolution d); [done|done].
  - destruct (IH k Hk) as (IH1 & IH2 & IH3). split_and!.
    + intros Hd. by rewrite (IH1 Hd).
    + intros Hd d' Hd'. destruct (resolution x) eqn:Ex.
      * injection Hd' as -> Hl. apply IH3 in Hl. congruence.
      * by apply IH2.
    + destruct (resolution x); [done|]. apply IH3.
Qed.

Lemma pendingRes_delete_other w k d :
  deferred w !! k = Some d → resolution d = false →
  pendingRes (set_deferred (delete k (deferred w)) w) = pendingRes w.
Proof. intros Hk Hd. unfold pendingRes. simpl. by apply (filter_res_delete _ k d). Qed.

Lemma pendingRes_delete_res w k d d' :
  deferred w !! k = Some d → resolution d = true → pendingRes w = [d'] →
  d' = d ∧ pendingRes (set_deferred (delete k (deferred w)) w) = [].
Proof. intros Hk Hd Hp. unfold pendingRes in *. simpl. by apply (filter_res_delete _ k d). Qed.

Lemma pendingRes_nil_other w k d :
  deferred w !! k = Some d → pendingRes w = [] → resolution d = false.
Proof. intros Hk Hp. by apply (filter_res_delete _ k d Hk). Qed.

Lemma nextHandle_start now w s cb :
  nextHandle (startTurnTimer now w s cb) = S (nextHandle w).
Proof. unfold startTurnTimer, clearTurnTimer. by destruct (turnTimer (room w)). Qed.

End WorldProjections.

Create Rewrite HintDb wsimp.
#[export] Hint Rewrite room_clear deferred_clear nextHandle_clear outbox_clear
  room_start deferred_start outbox_start nextHandle_start pendingRes_clear
  pendingRes_start pendingRes_onRoom pendingRes_set_outbox pendingRes_set_timers
  pendingRes_schedule : wsimp.

Lemma room_set_room v w : room (set_room v w) = v.
Proof. done. Qed.

Lemma timers_set_room v w : timers (set_room v w) = timers w.
Proof. done. Qed.

Lemma deferred_set_room v w : deferred (set_room v w) = deferred w.
Proof. done. Qed.

Lemma nextHandle_set_room v w : nextHandle (set_room v w) = nextHandle w.
Proof. done. Qed.

Lemma outbox_set_room v w : outbox (set_room v w) = outbox w.
Proof. done. Qed.

Lemma room_set_timers v w : room (set_timers v w) = room w.
Proof. done. Qed.

Lemma timers_set_timers v w : timers (set_timers v w) = v.
Proof. done. Qed.

Lemma deferred_set_timers v w : deferred (set_timers v w) = deferred w.
Proof. done. Qed.

Lemma nextHandle_set_timers v w : nextHandle (set_timers v w) = nextHandle w.
Proof. done. Qed.

Lemma outbox_set_timers v w : outbox (set_timers v w) = outbox w.
Proof. done. Qed.

Lemma room_set_deferred v w : room (set_deferred v w) = room w.
Proof. done. Qed.

Lemma timers_set_deferred v w : timers (set_deferred v w) = timers w.
Proof. done. Qed.

Lemma deferred_set_deferred v w : deferred (set_deferred v w) = v.
Proof. done. Qed.

Lemma nextHandle_set_deferred v w : nextHandle (set_deferred v w) = nextHandle w.
Proof. done. Qed.

Lemma outbox_set_deferred v w : outbox (set_deferred v w) = outbox w.
Proof. done. Qed.

Lemma room_set_nextHandle v w : room (set_nextHandle v w) = room w.
Proof. done. Qed.

Lemma timers_set_nextHandle v w : timers (set_nextHandle v w) = timers w.
Proof. done. Qed.

Lemma deferred_set_nextHandle v w : deferred (set_nextHandle v w) = deferred w.
Proof. done. Qed.

Lemma nextHandle_set_nextHandle v w : nextHandle (set_nextHandle v w) = v.
Proof. done. Qed.

Lemma outbox_set_nextHandle v w : outbox (set_nextHandle v w) = outbox w.
Proof. done. Qed.

Lemma room_set_outbox v w : room (set_outbox v w) = room w.
Proof. done. Qed.

Lemma timers_set_outbox v w : timers (set_outbox v w) = timers w.
Proof. done. Qed.

Lemma deferred_set_outbox v w : deferred (set_outbox v w) = deferred w.
Proof. done. Qed.

Lemma nextHandle_set_outbox v w : nextHandle (set_outbox v w) = nextHandle w.
Proof. done. Qed.

Lemma outbox_set_outbox v w : outbox (set_outbox v w) = v.
Proof. done. Qed.

Lemma room_onRoom f w : room (onRoom f w) = f (room w).
Proof. done. Qed.

Lemma timers_onRoom f w : timers (onRoom f w) = timers w.
Proof. done. Qed.

Lemma deferred_onRoom f w : deferred (onRoom f w) = deferred w.
Proof. done. Qed.

Lemma nextHandle_onRoom f w : nextHandle (onRoom f w) = nextHandle w.
Proof. done. Qed.

Lemma outbox_onRoom f w : outbox (onRoom f w) = outbox w.
Proof. done. Qed.

Lemma room_schedule d w : room (schedule d w) = room w.
Proof. done. Qed.

Lemma timers_schedule d w : timers (schedule d w) = timers w.
Proof. done. Qed.

Lemma deferred_schedule d w : deferred (schedule d w) = deferred w ++ [d].
Proof. done. Qed.

Lemma nextHandle_schedule d w : nextHandle (schedule d w) = nextHandle w.
Proof. done. Qed.

Lemma outbox_schedule d w : outbox (schedule d w) = outbox w.
Proof. done. Qed.

#[export] Hint Rewrite room_set_room timers_set_room deferred_set_room
  nextHandle_set_room outbox_set_room room_set_timers timers_set_timers
  deferred_set_timers nextHandle_set_timers outbox_set_timers room_set_deferred
  timers_set_deferred deferred_set_deferred nextHandle_set_deferred outbox_set_deferred
  room_set_nextHandle timers_set_nextHandle deferred_set_nextHandle
  nextHandle_set_nextHandle outbox_set_nextHandle room_set_outbox timers_set_outbox
  deferred_set_outbox nextHandle_set_outbox outbox_set_outbox room_onRoom timers_onRoom
  deferred_onRoom nextHandle_onRoom outbox_onRoom room_schedule timers_schedule
  deferred_schedule nextHandle_schedule outbox_schedule : wsimp.

(** Projections are pushed through the world operations by rewriting;
    [cbn] then only computes on rooms. *)
Ltac wsimpl :=
  repeat (progress (autorewrite with wsimp;
                    rewrite ?startTurnTimer_timers, ?clearTurnTimer_timers by tok;
                    cbn)).
Tactic Notation "wsimpl" "in" hyp(H) :=
  repeat (progress (autorewrite with wsimp in H;
                    rewrite ?startTurnTimer_timers, ?clearTurnTimer_timers in H by tok;
                    cbn in H)).

Section Bridging.

Lemma getP_lookupZ r i : getP r i = lookupZ (players r) i.
Proof. reflexivity. Qed.

Lemma lookupZ_map {A B} (f : A → B) l i : lookupZ (map f l) i = f <$> lookupZ l i.
Proof. unfold lookupZ. case_decide; [|done]. apply list_lookup_fmap. Qed.

Lemma lookupZ_of_nat {A} (l : list A) (i : nat) : lookupZ l (Z.of_nat i) = l !! i.
Proof. unfold lookupZ. case_decide; [|lia]. by rewrite Nat2Z.id. Qed.

Lemma lookupZ_Some {A} (l : list A) i x :
  lookupZ l i = Some x ↔ 0 ≤ i ∧ l !! Z.to_nat i = Some x.
Proof. unfold lookupZ. case_decide; [tauto|]. split; [done|tauto]. Qed.

Lemma lookupZ_lt {A} (l : list A) i x :
  lookupZ l i = Some x → 0 ≤ i < Z.of_nat (length l).
Proof. intros [? H%lookup_lt_Some]%lookupZ_Some. lia. Qed.

Lemma lookupZ_is_Some {A} (l : list A) i :
  0 ≤ i < Z.of_nat (length l) → is_Some (lookupZ l i).
Proof. intros [? ?]. unfold lookupZ. case_decide; [|lia]. apply lookup_lt_is_Some. lia. Qed.

Lemma sumStacks_foldl (ss : list Seat) a :
  foldl (λ sum s, sum + Z.of_nat (length (s_stack s))) a ss = a + sumStacks ss.
Proof.
  unfold sumStacks. revert a. induction ss as [|s ss IH]; intros a; simpl; [lia|].
  rewrite IH, (IH (0 + _)). lia.
Qed.

Lemma sumStacks_cons s ss : sumStacks (s :: ss) = Z.of_nat (length (s_stack s)) + sumStacks ss.
Proof. unfold sumStacks at 1. simpl. by rewrite sumStacks_foldl. Qed.

Lemma sumStacks_nonneg ss : 0 ≤ sumStacks ss.
Proof. induction ss as [|s ss IH]; [done|]. rewrite sumStacks_cons. lia. Qed.

Lemma countOnTable_seats r : countOnTable r = sumStacks (map seatOf (players r)).
Proof.
  unfold countOnTable, sumStacks. generalize 0.
  induction (players r) as [|p ps IH]; intros a; simpl; [done|]. apply IH.
Qed.

Lemma activePlayers_seats r :
  length (activePlayers r) = length (aliveSeats (map seatOf (players r))).
Proof.
  unfold activePlayers, aliveSeats. induction (players r) as [|p ps IH]; simpl; [done|].
  destruct (eliminated p); simpl; by rewrite IH.
Qed.

Lemma revealedOf_rev r i :
  revealedOf r i = revCount (map Reveal.playerIndex (revealedCards r)) i.
Proof.
  unfold revealedOf, revCount. induction (revealedCards r) as [|x l IH]; simpl; [done|].
  destruct (Reveal.playerIndex x =? Z.of_nat i); simpl; by rewrite IH.
Qed.

Lemma seats_alter (f : Player → Player) (g : Seat → Seat) i ps :
  (∀ p, seatOf (f p) = g (seatOf p)) →
  map seatOf (alter f i ps) = alter g i (map seatOf ps).
Proof.
  intros Hf. apply list_eq. intros k. rewrite list_lookup_fmap.
  destruct (decide (k = i)) as [->|].
  - rewrite !list_lookup_alter_eq, list_lookup_fmap. destruct (ps !! i); simpl; by rewrite ?Hf.
  - rewrite !list_lookup_alter_ne by done. by rewrite list_lookup_fmap.
Qed.

Lemma seats_alter_same (f : Player → Player) i ps :
  (∀ p, seatOf (f p) = seatOf p) → map seatOf (alter f i ps) = map seatOf ps.
Proof. intros Hf. by apply map_alter_same. Qed.

Lemma seats_map (f : Player → Player) (g : Seat → Seat) ps :
  (∀ p, seatOf (f p) = g (seatOf p)) → map seatOf (map f ps) = map g (map seatOf ps).
Proof. intros Hf. rewrite !map_map. apply map_ext. done. Qed.

Lemma seats_map_same (f : Player → Player) ps :
  (∀ p, seatOf (f p) = seatOf p) → map seatOf (map f ps) = map seatOf ps.
Proof. intros Hf. rewrite map_map. apply map_ext. done. Qed.

Lemma seats_imap_same (f : nat → Player → Player) ps :
  (∀ i p, seatOf (f i p) = seatOf p) → map seatOf (imap f ps) = map seatOf ps.
Proof.
  intros Hf. apply list_eq. intros k. rewrite !list_lookup_fmap, list_lookup_imap.
  destruct (ps !! k); simpl; by rewrite ?Hf.
Qed.

End Bridging.

#[export] Hint Rewrite getP_lookupZ countOnTable_seats activePlayers_seats
  revealedOf_rev @lookupZ_map : wsimp.

Ltac bcast :=
  match goal with |- context [broadcastState ?x] =>
    let vs := fresh "vs" in
    destruct (broadcastState_spec x) as (vs & -> & _) end.

Lemma timers_ok_gameOf w : timers_ok w ↔ timersOk (g_timer (gameOf w)) (g_timers (gameOf w)).
Proof. reflexivity. Qed.

Lemma ginv_gameOver w i :
  CoreInv (gameOf w) → pendingRes w = [] → is_Some (getP (room w) i) →
  ∃ w', gameOver w i = Some w' ∧ GInv w' ∧ phase (room w') = GameOver.
Proof.
  intros Hc Hp [winner Hw]. unfold gameOver. cbv zeta.
  wsimpl. rewrite getP_lookupZ in Hw. rewrite Hw. cbn. bcast.
  eexists. split; [reflexivity|]. split; [|by wsimpl].
  unfold GInv, gameOf. wsimpl.
  rewrite clearTurnTimer_timers by apply Hc.
  destruct Hc as [? ? ? ? ? ?]. split; [by constructor|]. by cbn.
Qed.

Lemma aliveSeats_map_length (f : Seat → Seat) ss :
  (∀ s, s_elim (f s) = s_elim s) →
  length (aliveSeats (map f ss)) = length (aliveSeats ss).
Proof.
  intros Hf. unfold aliveSeats. induction ss as [|s ss IH]; simpl; [done|].
  rewrite Hf. destruct (s_elim s); simpl; by rewrite IH.
Qed.

Lemma aliveSeats_exists ss :
  (0 < length (aliveSeats ss))%nat → ∃ s, s ∈ ss ∧ s_elim s = false.
Proof.
  unfold aliveSeats. induction ss as [|s ss IH]; simpl; [lia|].
  destruct (s_elim s) eqn:E; simpl.
  - intros (s' & ? & ?)%IH. exists s'. split; [by right|done].
  - intros _. exists s. split; [by left|done].
Qed.

Lemma seatOK_aliveAt r i : seatOK r i ↔ aliveAt (map seatOf (players r)) i.
Proof.
  unfold seatOK, aliveAt. rewrite getP_lookupZ. setoid_rewrite lookupZ_map. split.
  - intros (p & -> & ?). by exists (seatOf p).
  - intros (s & Hs & ?). destruct (lookupZ (players r) i) as [p|]; [|done].
    simplify_eq/=. by exists p.
Qed.

Lemma seats_reset ps :
  map seatOf (map (λ p, if eliminated p then p
                        else set_passed false (set_stack [] (set_hand (cards p) p))) ps)
  = map resetSeat (map seatOf ps).
Proof.
  apply seats_map. intros p. unfold resetSeat, seatOf. cbn.
  destruct (eliminated p) eqn:E; cbn; by rewrite ?E.
Qed.

Lemma findNextActive_alive r from :
  0 ≤ from → (0 < length (aliveSeats (map seatOf (players r))))%nat →
  ∃ res, findNextActive r from = Some res ∧ aliveAt (map seatOf (players r)) res.
Proof.
  intros Hf Ha. destruct (findNextActive_scan r from Hf) as (res & Hres & Hcase).
  exists res. split; [done|]. destruct Hcase as [[_ Hall]|(i & _ & _ & Hok & _)].
  - exfalso. apply aliveSeats_exists in Ha as (s & Hs & He).
    apply list_elem_of_fmap in Hs as (p & -> & Hp). apply Hall in Hp. cbn in He. congruence.
  - by apply seatOK_aliveAt.
Qed.

Lemma sumStacks_reset ss :
  (∀ (i : nat) s, ss !! i = Some s → s_elim s = true → s_stack s = []) →
  sumStacks (map resetSeat ss) = 0.
Proof.
  induction ss as [|s ss IH]; intros H; [done|].
  change (map resetSeat (s :: ss)) with (resetSeat s :: map resetSeat ss).
  rewrite sumStacks_cons, IH by (intros i s'; apply (H (S i))).
  unfold resetSeat. destruct (s_elim s) eqn:E; cbn; [|done].
  by rewrite (H 0%nat s eq_refl E).
Qed.

Lemma bind_Some_eq {A B} (f : A → option B) x : Some x ≫= f = f x.
Proof. done. Qed.

Lemma ginv_startRound now w :
  CoreInv (gameOf w) → (2 ≤ length (activePlayers (room w)))%nat → pendingRes w = [] →
  ∃ w', startRound now w = Some w' ∧ GInv w' ∧ phase (room w') = Placing.
Proof.
  intros Hc Ha Hp. unfold startRound. cbv zeta.
  assert (timers_ok w) as Htok by (by destruct Hc).
  rewrite activePlayers_seats in Ha.
  set (r1 := room (onRoom _ (onRoom _ (clearTurnTimer w)))).
  assert (map seatOf (players r1) = map resetSeat (map seatOf (players (room w)))) as Hseats.
  { unfold r1. wsimpl. apply seats_reset. }
  assert (nextRoundStarter r1 = nextRoundStarter (room w)) as Hnrs by (unfold r1; by wsimpl).
  assert (roundNum r1 = roundNum (room w) + 1) as Hrn by (unfold r1; by wsimpl).
  assert (length (aliveSeats (map seatOf (players r1))) = length (aliveSeats (map seatOf (players (room w)))))
    as Hal.
  { rewrite Hseats. apply aliveSeats_map_length. intros s. unfold resetSeat.
    by destruct (s_elim s) eqn:E. }
  clearbody r1.
  match goal with |- ∃ w', (?m ≫= _) = _ ∧ _ =>
    assert (∃ first, m = Some first ∧ aliveAt (map seatOf (players r1)) first)
      as (first & -> & Hfirst) end.
  { destruct (findNextActive_alive r1
                ((roundNum r1 - 1) `rem` Z.of_nat (length (players r1)))) as (res & Hres & Hok).
    { apply Z.rem_nonneg; [|destruct Hc; cbn in *; lia].
      intros Hz. rewrite <-(length_map seatOf) in Hz. destruct (map seatOf (players r1)); [|done].
      unfold aliveSeats in *. cbn in Hal. lia. }
    { lia. }
    destruct (0 <=? nextRoundStarter r1) eqn:E; [|by exists res].
    destruct (getP r1 (nextRoundStarter r1)) as [p|] eqn:Hg.
    - cbn. destruct (eliminated p) eqn:Ee; cbn; [by exists res|].
      exists (nextRoundStarter r1). split; [done|]. apply seatOK_aliveAt. by exists p.
    - exfalso. destruct (getP_in_range r1 (nextRoundStarter r1)) as [? ?]; [|congruence].
      apply Z.leb_le in E. split; [done|]. rewrite <-(length_map seatOf), Hseats.
      rewrite !length_map, Hnrs. destruct Hc. cbn in *. by rewrite length_map in *. }
  rewrite bind_Some_eq. cbv beta. bcast. eexists. split; [reflexivity|]. split; [|by wsimpl].
  unfold GInv, gameOf. wsimpl.
  rewrite seats_reset in *. rewrite Hseats in Hfirst.
  destruct Hc as [Hst Htm Hrd Hn Hcards Helim]. cbn in *.
  split; [constructor; cbn|cbn].
  - done.
  - eauto.
  - lia.
  - lia.
  - intros i s' Hs' He. apply list_lookup_fmap_Some in Hs' as (s & -> & Hs).
    unfold resetSeat in *. destruct (s_elim s) eqn:E; cbn in *; [congruence|eauto].
  - intros i s' Hs' He. apply list_lookup_fmap_Some in Hs' as (s & -> & Hs).
    unfold resetSeat in *. destruct (s_elim s) eqn:E; cbn in *; [eauto|congruence].
  - split_and!; try done.
    + rewrite aliveSeats_map_length; [done|]. intros s. unfold resetSeat.
      by destruct (s_elim s) eqn:E.
    + intros i s' Hs' He. apply list_lookup_fmap_Some in Hs' as (s & -> & Hs).
      unfold resetSeat, revCount in *. destruct (s_elim s) eqn:E; cbn in *; [congruence|]. lia.
    + symmetry. apply sumStacks_reset. intros i s Hs E.
      by destruct (Helim i s Hs E) as (_ & _ & ->).
Qed.

Lemma CoreInv_same_seats g g' :
  CoreInv g → g_seats g' = g_seats g → g_started g' = g_started g →
  timersOk (g_timer g') (g_timers g') →
  g_round g' = g_round g → g_nrs g' < Z.of_nat (length (g_seats g)) → CoreInv g'.
Proof.
  intros [? ? ? ? ? ?] Hs Hst Ht Hr Hn.
  constructor; rewrite ?Hs, ?Hst, ?Hr; auto.
Qed.

Ltac core_same Hc :=
  eapply (CoreInv_same_seats _ _ Hc); cbn;
  [try done|try done|first [apply Hc|eauto]|try done|try (apply Hc); try lia].

Lemma ginv_startFlipping w :
  GInv w → phase (room w) = Bidding →
  ∃ w', startFlipping w = Some w' ∧ GInv w' ∧ phase (room w') = Flipping.
Proof.
  intros [Hc Hp] Hph. unfold PhaseInv in Hp. cbn in Hp. rewrite Hph in Hp.
  destruct Hp as (Ha & Hpend & Hrev & Hbal & Htot & Hhb & Hbid & Hcur).
  assert (timers_ok w) as Htok by (by destruct Hc).
  unfold startFlipping. cbv zeta. wsimpl.
  pose proof Hhb as (s & Hs & He). rewrite lookupZ_map in Hs.
  destruct (lookupZ (players (room w)) (highestBidder (room w))) as [bidder|] eqn:Hb; [|done].
  rewrite bind_Some_eq. cbv beta. bcast.
  eexists. split; [reflexivity|]. split; [|by wsimpl].
  unfold GInv, gameOf. wsimpl.
  split; [core_same Hc|]. by cbn.
Qed.

Lemma ginv_recount w :
  GInv w → tablePhase (phase (room w)) = true →
  GInv (onRoom (λ r, set_totalCoastersOnTable (countOnTable r) r) w).
Proof.
  intros [Hc Hp] Hph. unfold GInv, gameOf. wsimpl.
  split; [core_same Hc|].
  unfold PhaseInv in *. cbn in *.
  destruct (phase (room w)); try done; intuition (try lia).
Qed.

Lemma ginv_broadcast_id w :
  GInv w → ∃ w', broadcastState w = Some w' ∧ GInv w' ∧ phase (room w') = phase (room w).
Proof. intros H. bcast. eexists. split; [reflexivity|]. by split. Qed.

Lemma ginv_checkBiddingEnd w :
  GInv w → phase (room w) = Bidding →
  ∃ w', checkBiddingEnd w = Some w' ∧ GInv w'.
Proof.
  intros Hg Hph. unfold checkBiddingEnd. cbv zeta.
  pose proof (ginv_recount w Hg) as HX. rewrite Hph in HX. specialize (HX eq_refl).
  set (X := onRoom _ w) in *.
  assert (phase (room X) = Bidding) as HphX by done.
  clearbody X.
  match goal with |- context [if ?b then _ else _] => destruct b end.
  - destruct (ginv_startFlipping X HX HphX) as (w' & -> & ? & _). eauto.
  - destruct (ginv_broadcast_id X HX) as (w' & -> & ? & _). eauto.
Qed.

(** Early returns of a handler: the world is left as it is. *)
Ltac early :=
  lazymatch goal with
  | |- ∃ w', (if negb ?b then Some ?w else _) = Some w' ∧ _ =>
      destruct b eqn:?; cbn [negb]; [|by (eexists; split; [reflexivity|])]
  | |- ∃ w', (if ?b then Some ?w else _) = Some w' ∧ _ =>
      destruct b eqn:?; [by (eexists; split; [reflexivity|])|]
  end.

Ltac getp H :=
  lazymatch goal with
  | |- ∃ w', (getP ?r ?i ≫= _) = Some w' ∧ _ =>
      rewrite H, bind_Some_eq; cbv beta
  end.

Lemma ginv_handlePass w i :
  GInv w → is_Some (getP (room w) i) → ∃ w', handlePass w i = Some w' ∧ GInv w'.
Proof.
  intros Hg [p Hp]. unfold handlePass.
  early. getp Hp. early. early. cbv zeta.
  apply ginv_checkBiddingEnd; [|by wsimpl; eapply bool_decide_eq_true_1].
  unfold GInv, gameOf. wsimpl. unfold updP. cbn.
  rewrite seats_alter_same by done. exact Hg.
Qed.

Lemma ginv_tok w : GInv w → timers_ok w.
Proof. intros [Hc _]. apply Hc. Qed.

Lemma aliveAt_seats r i p :
  getP r i = Some p → eliminated p = false → aliveAt (map seatOf (players r)) i.
Proof. intros Hp He. apply seatOK_aliveAt. by exists p. Qed.

Lemma ginv_handleRaiseBid now w i amount :
  GInv w → is_Some (getP (room w) i) → ∃ w', handleRaiseBid now w i amount = Some w' ∧ GInv w'.
Proof.
  intros Hg [p Hp]. pose proof (ginv_tok w Hg) as Htok. unfold handleRaiseBid, startBidTimer.
  early. getp Hp. early. early. cbv zeta.
  apply bool_decide_eq_true_1 in Heqb.
  pose proof (ginv_recount w Hg) as HX. rewrite Heqb in HX. specialize (HX eq_refl).
  wsimpl.
  match goal with |- context [if ?b then _ else _] => destruct b eqn:Hb end.
  { eexists. split; [reflexivity|done]. }
  apply ginv_checkBiddingEnd; [|by wsimpl].
  unfold GInv, gameOf. wsimpl.
  destruct Hg as [Hc Hph]. split; [core_same Hc|].
  unfold PhaseInv in *. cbn in *. rewrite Heqb in *.
  apply orb_false_iff in Heqb0 as [_ He]. apply orb_false_iff in Hb as [Hb1 Hb2].
  destruct Hph as (? & ? & ? & ? & Htot & ? & ? & ?). split_and!; try done.
  - by apply (aliveAt_seats _ _ p).
  - lia.
  - lia.
Qed.

Lemma sumStacks_pos ss :
  (∀ (i : nat) s, ss !! i = Some s → s_elim s = false → s_stack s ≠ []) →
  (0 < length (aliveSeats ss))%nat → 1 ≤ sumStacks ss.
Proof.
  induction ss as [|s ss IH]; intros H Ha; [unfold aliveSeats in Ha; cbn in Ha; lia|].
  rewrite sumStacks_cons. pose proof (sumStacks_nonneg ss).
  unfold aliveSeats in Ha. cbn in Ha. destruct (s_elim s) eqn:E; cbn in Ha.
  - enough (1 ≤ sumStacks ss) by lia. apply IH; [|done].
    intros i s'. apply (H (S i)).
  - specialize (H 0%nat s eq_refl E). destruct (s_stack s); [done|]. cbn. lia.
Qed.

Lemma ginv_handleStartBid now w i amount :
  GInv w → ∃ w', handleStartBid now w i amount = Some w' ∧ GInv w'.
Proof.
  intros Hg. pose proof (ginv_tok w Hg) as Htok. unfold handleStartBid, startBidTimer.
  early. early. cbv zeta. early.
  apply bool_decide_eq_true_1 in Heqb. apply Z.eqb_eq in Heqb0.
  destruct Hg as [Hc Hph]. unfold PhaseInv in Hph. cbn in Hph. rewrite Heqb in Hph.
  destruct Hph as (Ha & Hpend & Hrev & Hbal & Htot & Hcur & Hfp).
  pose proof Hcur as (s & Hs & He). rewrite lookupZ_map, Heqb0 in Hs.
  rewrite getP_lookupZ.
  destruct (lookupZ (players (room w)) i) as [p|] eqn:Hp; [|done].
  rewrite bind_Some_eq. cbv beta.
  apply ginv_checkBiddingEnd; [|by wsimpl].
  unfold GInv, gameOf. wsimpl. unfold players_passed_set_bidder. cbn.
  rewrite seats_imap_same, seats_map_same by (intros; try case_match; done).
  split; [core_same Hc|].
  unfold PhaseInv. cbn.
  pose proof (sumStacks_pos _ (Hfp Heqb1) ltac:(lia)).
  split_and!; try done; try lia.
  rewrite <-Heqb0. done.
Qed.

Lemma nextSeat_alive r from :
  -1 ≤ from → (0 < length (aliveSeats (map seatOf (players r))))%nat →
  ∃ next, aliveAt (map seatOf (players r)) next
    ∧ ∀ B (K : Z → option B),
        (nextActiveUnpassed r from ≫= λ n1,
           (if n1 =? -1 then findNextActive r 0 else Some n1) ≫= K) = K next.
Proof.
  intros Hf Ha. destruct (nextActiveUnpassed_scan r from Hf) as (n1 & Hn1 & Hcase).
  destruct Hcase as [[-> _]|(i & _ & _ & (p & Hp & He & _) & _)].
  - destruct (findNextActive_alive r 0) as (next & Hnext & Hal); [done|done|].
    exists next. split; [done|]. intros B K. rewrite Hn1, bind_Some_eq. cbn.
    by rewrite Hnext.
  - assert (n1 ≠ -1) as Hne%Z.eqb_neq.
    { intros ->. unfold getP in Hp. by case_decide. }
    exists n1. split; [by apply (aliveAt_seats _ _ p)|].
    intros B K. rewrite Hn1, bind_Some_eq. cbv beta. by rewrite Hne.
Qed.

Lemma ginv_advancePlacing now w :
  GInv w → phase (room w) = Placing →
  ∃ w', advancePlacing now w = Some w' ∧ GInv w' ∧ phase (room w') = Placing.
Proof.
  intros Hg Hph. pose proof (ginv_tok w Hg) as Htok. unfold advancePlacing.
  destruct Hg as [Hc Hp]. unfold PhaseInv in Hp. cbn in Hp. rewrite Hph in Hp.
  destruct Hp as (Ha & Hpend & Hrev & Hbal & Htot & Hcur & Hfp).
  destruct (nextSeat_alive (room w) (currentPlayer (room w))) as (next & Hal & ->).
  { destruct Hcur as (s & Hs%lookupZ_Some & _). lia. }
  { lia. }
  cbv zeta. wsimpl.
  match goal with |- context [if ?b then _ else _] => destruct b eqn:Hb end.
  - bcast. rewrite bind_Some_eq. cbv beta.
    eexists. split; [reflexivity|]. split; [|by wsimpl].
    unfold GInv, gameOf. wsimpl. split; [core_same Hc|].
    unfold PhaseInv. cbn. rewrite Hph. by rewrite app_nil_r.
  - bcast. eexists. split; [reflexivity|]. split; [|by wsimpl].
    unfold GInv, gameOf. wsimpl. split; [core_same Hc|].
    unfold PhaseInv. cbn. by rewrite Hph.
Qed.

(** *** One seat changed *)

Lemma lookup_alter_cases {A} (g : A → A) (i j : nat) (l : list A) x' :
  alter g i l !! j = Some x' →
  (j = i ∧ ∃ x, l !! i = Some x ∧ x' = g x) ∨ (j ≠ i ∧ l !! j = Some x').
Proof.
  destruct (decide (j = i)) as [->|Hne].
  - rewrite list_lookup_alter_eq. destruct (l !! i) as [x|]; [|done].
    intros [= <-]. left. eauto.
  - rewrite list_lookup_alter_ne by done. eauto.
Qed.

Lemma aliveSeats_alter_length (g : Seat → Seat) (i : nat) ss :
  (∀ s, ss !! i = Some s → s_elim (g s) = s_elim s) →
  length (aliveSeats (alter g i ss)) = length (aliveSeats ss).
Proof.
  unfold aliveSeats. revert i. induction ss as [|s ss IH]; intros i Hg; [done|].
  destruct i as [|i]; cbn.
  - rewrite (Hg s eq_refl). by destruct (s_elim s).
  - destruct (s_elim s); cbn; rewrite (IH i); auto.
Qed.

Lemma aliveAt_alter (g : Seat → Seat) (i : nat) ss j :
  (∀ s, ss !! i = Some s → s_elim (g s) = s_elim s) →
  aliveAt ss j → aliveAt (alter g i ss) j.
Proof.
  intros Hg (s & [Hj Hs]%lookupZ_Some & He). unfold aliveAt.
  destruct (decide (Z.to_nat j = i)) as [<-|Hne].
  - exists (g s). split; [|by rewrite Hg].
    apply lookupZ_Some. split; [done|]. by rewrite list_lookup_alter_eq, Hs.
  - exists s. split; [|done].
    apply lookupZ_Some. split; [done|]. by rewrite list_lookup_alter_ne.
Qed.

Lemma CoreInv_alter g g' (f : Seat → Seat) (i : nat) :
  CoreInv g → g_seats g' = alter f i (g_seats g) →
  (∀ s, g_seats g !! i = Some s →
        s_elim (f s) = false ∧ s_elim s = false ∧ s_cards (f s) ≠ []) →
  g_started g' = g_started g →
  timersOk (g_timer g') (g_timers g') →
  g_round g' = g_round g → g_nrs g' < Z.of_nat (length (g_seats g)) → CoreInv g'.
Proof.
  intros [? ? ? ? Hcards Helim] Hs Hf Hst Ht Hr Hn.
  constructor; rewrite ?Hs, ?Hst, ?Hr, ?length_alter; auto.
  - intros j s' [(-> & s & Hi & ->)|(_ & Hj)]%lookup_alter_cases He; [|eauto].
    by apply Hf.
  - intros j s' [(-> & s & Hi & ->)|(_ & Hj)]%lookup_alter_cases He; [|eauto].
    destruct (Hf s Hi) as [? _]. congruence.
Qed.

Lemma allPlaced_seats ps :
  forallb (λ pl, eliminated pl || (0 <? Z.of_nat (length (stack pl)))) ps = true →
  ∀ (j : nat) s, map seatOf ps !! j = Some s → s_elim s = false → s_stack s ≠ [].
Proof.
  intros H j s Hs He. apply list_lookup_fmap_Some in Hs as (p & -> & Hp).
  rewrite forallb_forall in H. specialize (H p). cbn in *.
  rewrite He in H. cbn in H. intros Hnil. rewrite Hnil in H. cbn in H.
  enough (false = true) by done. apply H.
  apply list_elem_of_In. by eapply list_elem_of_lookup_2.
Qed.

Lemma balanced_place ss (i k : nat) s card :
  seatsBalanced ss [] → ss !! i = Some s → (k < length (s_hand s))%nat →
  seatsBalanced (alter (placeSeat k card) i ss) [].
Proof.
  intros Hb Hs Hk j s' [(-> & s0 & Hi & ->)|(_ & Hj)]%lookup_alter_cases He; [|eauto].
  assert (s0 = s) as -> by congruence. specialize (Hb i s Hs He).
  cbn. rewrite length_delete, length_app by (by apply lookup_lt_is_Some_2). cbn. lia.
Qed.

Lemma ginv_handlePlace now w i cardIndex :
  GInv w → ∃ w', handlePlace now w i cardIndex = Some w' ∧ GInv w'.
Proof.
  intros Hg. pose proof (ginv_tok w Hg) as Htok. unfold handlePlace.
  early. early.
  apply bool_decide_eq_true_1 in Heqb. apply Z.eqb_eq in Heqb0.
  pose proof Hg as [Hc Hph]. unfold PhaseInv in Hph. cbn in Hph. rewrite Heqb in Hph.
  destruct Hph as (Ha & Hpend & Hrev & Hbal & Htot & Hcur & Hfp).
  pose proof Hcur as (s & Hs & He). rewrite lookupZ_map, Heqb0 in Hs.
  rewrite getP_lookupZ.
  destruct (lookupZ (players (room w)) i) as [p|] eqn:Hp; [|done].
  injection Hs as <-. cbn in He.
  rewrite bind_Some_eq. cbv beta. early.
  apply orb_false_iff in Heqb1 as [Hlo%Z.ltb_ge Hhi%Z.leb_gt].
  destruct (lookup_lt_is_Some_2 (hand p) (Z.to_nat cardIndex)) as [card Hcard]; [lia|].
  rewrite Hcard, bind_Some_eq. cbv beta zeta.
  apply lookupZ_Some in Hp as [Hi Hp].
  set (X := onRoom (addLog _) _).
  assert (map seatOf (players (room X))
          = alter (placeSeat (Z.to_nat cardIndex) card) (Z.to_nat i)
                  (map seatOf (players (room w)))) as Hseats.
  { unfold X. wsimpl. unfold updP. cbn. by apply seats_alter. }
  assert (Hsi : map seatOf (players (room w)) !! Z.to_nat i = Some (seatOf p)).
  { by rewrite list_lookup_fmap, Hp. }
  assert (GInv X ∧ phase (room X) = Placing ∧ firstPlacement (room X) = firstPlacement (room w))
    as (HX & HphX & HfpX).
  { split; [|by unfold X; wsimpl].
    unfold GInv, gameOf. rewrite Hseats. unfold X. wsimpl. unfold updP. cbn.
    rewrite seats_alter with (g := placeSeat (Z.to_nat cardIndex) card) by done.
    split.
    - eapply (CoreInv_alter _ _ _ _ Hc); cbn; [reflexivity| |done|apply Hc|done|apply Hc].
      intros s. rewrite Hsi. intros [= <-]. cbn. split_and!; [done..|].
      destruct Hc as [_ _ _ _ Hcards _]. by apply (Hcards _ _ Hsi).
    - unfold PhaseInv. cbn. rewrite Heqb. split_and!; try done.
      + by rewrite aliveSeats_alter_length.
      + apply (balanced_place _ _ _ (seatOf p)); [done|done|cbn; lia].
      + rewrite <-Heqb0. by apply aliveAt_alter.
      + intros Hf j s' [(-> & s0 & _ & ->)|(_ & Hj)]%lookup_alter_cases He'.
        * cbn. by destruct (s_stack s0).
        * by eapply Hfp. }
  clearbody X.
  match goal with |- context [if ?b then _ else _] => destruct b eqn:Hb end.
  - destruct (ginv_advancePlacing now (onRoom (set_firstPlacement false) X))
      as (w' & -> & ? & _); [|done|eauto].
    destruct HX as [HcX HpX]. unfold GInv, gameOf. wsimpl. split; [core_same HcX|].
    unfold PhaseInv in *. cbn in *. rewrite HphX in *.
    destruct HpX as (? & ? & ? & ? & ? & ? & ?). split_and!; try done.
    intros _. by apply allPlaced_seats.
  - destruct (ginv_advancePlacing now X) as (w' & -> & ? & _); eauto.
Qed.

Lemma revCount_snoc rev t (j : nat) :
  revCount (rev ++ [t]) j = (revCount rev j + if (t =? Z.of_nat j)%Z then 1 else 0)%nat.
Proof.
  unfold revCount. rewrite List.filter_app, length_app. cbn.
  by destruct (t =? Z.of_nat j).
Qed.

Lemma length_removelast {A} (l : list A) : l ≠ [] → length l = S (length (removelast l)).
Proof.
  intros Hl. destruct (exists_last Hl) as (l' & x & ->).
  rewrite removelast_last, length_app. cbn. lia.
Qed.

Lemma balanced_pop ss rev (t : nat) s :
  seatsBalanced ss rev → ss !! t = Some s → s_stack s ≠ [] →
  seatsBalanced (alter popSeat t ss) (rev ++ [Z.of_nat t]).
Proof.
  intros Hb Hs Hne j s' [(-> & s0 & Hi & ->)|(Hjt & Hj)]%lookup_alter_cases He.
  - assert (s0 = s) as -> by congruence. specialize (Hb t s Hs He).
    rewrite revCount_snoc, Z.eqb_refl. cbn.
    rewrite (length_removelast (s_stack s)) in Hb by done. lia.
  - specialize (Hb j s' Hj He). rewrite revCount_snoc.
    destruct (Z.eqb_spec (Z.of_nat t) (Z.of_nat j)); [lia|]. lia.
Qed.

Lemma ginv_handleFlip w f t :
  GInv w → ∃ w', handleFlip w f t = Some w' ∧ GInv w'.
Proof.
  intros Hg. pose proof (ginv_tok w Hg) as Htok. unfold handleFlip.
  early. early. early. early.
  apply bool_decide_eq_true_1 in Heqb. apply Z.eqb_eq in Heqb1, Heqb2.
  pose proof Hg as [Hc Hph]. unfold PhaseInv in Hph. cbn in Hph. rewrite Heqb in Hph.
  destruct Hph as (Ha & Hpend & Htim & Hbal & Htot & Hhb & Hcur).
  pose proof Hhb as (s & Hs & He). rewrite lookupZ_map, <-Heqb1 in Hs.
  rewrite !getP_lookupZ.
  destruct (lookupZ (players (room w)) f) as [flipper|] eqn:Hf; [|done].
  injection Hs as <-. cbn in He.
  destruct (lookupZ (players (room w)) t) as [target|] eqn:Ht;
    [|by (eexists; split; [reflexivity|])].
  early. apply orb_false_iff in Heqb3 as [Het Hst%Z.eqb_neq].
  match goal with |- ∃ w', (?m ≫= _) = _ ∧ _ =>
    assert (∃ b, m = Some b) as [b ->] by (destruct (negb (t =? f)); cbn; eauto) end.
  rewrite bind_Some_eq. cbv beta. early.
  assert (stack target ≠ []) as Hne by (intros E; rewrite E in Hst; done).
  destruct (exists_last Hne) as (st' & card & Hstack).
  assert (last (stack target) = Some card) as -> by (rewrite Hstack; apply last_snoc).
  rewrite bind_Some_eq. cbv beta zeta.
  rewrite bind_Some_eq. cbv beta.
  apply lookupZ_Some in Ht as [Ht0 Ht].
  assert (Hst' : map seatOf (players (room w)) !! Z.to_nat t = Some (seatOf target)).
  { by rewrite list_lookup_fmap, Ht. }
  assert (Hr : Z.of_nat (Z.to_nat t) = t) by lia.
  assert (HcA : ∀ g', g_seats g' = alter popSeat (Z.to_nat t) (map seatOf (players (room w))) →
            g_started g' = started (room w) → g_timer g' = turnTimer (room w) →
            g_timers g' = timers w → g_round g' = roundNum (room w) →
            g_nrs g' = nextRoundStarter (room w) → CoreInv g').
  { intros g' E1 E2 E3 E4 E5 E6.
    eapply (CoreInv_alter _ _ _ _ Hc); cbn; [exact E1| |done| |done|].
    - intros s. rewrite Hst'. intros [= <-]. cbn. split_and!; [done..|].
      destruct Hc as [_ _ _ _ Hcards _]. by apply (Hcards _ _ Hst').
    - rewrite E3, E4. apply Hc.
    - rewrite E6. apply Hc. }
  assert (HaA : (2 ≤ length (aliveSeats (alter popSeat (Z.to_nat t)
                                            (map seatOf (players (room w))))))%nat).
  { by rewrite aliveSeats_alter_length. }
  assert (HhA : aliveAt (alter popSeat (Z.to_nat t) (map seatOf (players (room w))))
                        (highestBidder (room w))).
  { by apply aliveAt_alter. }
  repeat match goal with |- context [if ?b then _ else _] => destruct b end;
    bcast; rewrite ?bind_Some_eq; cbv beta;
    (eexists; split; [reflexivity|]);
    unfold GInv, gameOf; wsimpl; unfold updP; cbn;
    rewrite ?(seats_alter _ popSeat) by done;
    (split; [by apply HcA|]); unfold PhaseInv; cbn; rewrite ?Heqb, ?Hpend, ?map_app; cbn.
  - split_and!; [done..|]. left. exists t. split_and!; try done.
    + by rewrite Heqb1.
    + unfold lookupZ. case_decide; [|lia].
      by rewrite list_lookup_alter_eq, Hst'.
  - split_and!; [done..|]. right. left. by rewrite Heqb1.
  - split_and!; try done. rewrite <-Hr at 2. by apply (balanced_pop _ _ _ (seatOf target)).
Qed.

Lemma aliveAt_lt ss i : aliveAt ss i → 0 ≤ i < Z.of_nat (length ss).
Proof. intros (s & Hs & _). split; [by apply lookupZ_Some in Hs as [? _]|by eapply lookupZ_lt]. Qed.

Lemma ginv_challengeSuccess w i :
  CoreInv (gameOf w) → phase (room w) = FlipResult →
  pendingRes w = [] → timers w = [] →
  (2 ≤ length (aliveSeats (map seatOf (players (room w)))))%nat →
  aliveAt (map seatOf (players (room w))) i →
  ∃ w', challengeSuccess w i = Some w' ∧ GInv w'.
Proof.
  intros Hc Hph Hpend Htim Ha Hi. assert (timers_ok w) as Htok by apply Hc.
  unfold challengeSuccess.
  pose proof Hi as (s & Hs & He). rewrite lookupZ_map in Hs.
  rewrite getP_lookupZ.
  destruct (lookupZ (players (room w)) i) as [p|] eqn:Hp; [|done].
  rewrite bind_Some_eq. cbv beta zeta.
  pose proof (aliveAt_lt _ _ Hi) as Hlt.
  set (X := onRoom (addLog _) _).
  assert (CoreInv (gameOf X)) as HcX.
  { unfold gameOf, X. wsimpl. unfold updP. cbn. rewrite seats_alter_same by done.
    core_same Hc. }
  assert (map seatOf (players (room X)) = map seatOf (players (room w))) as Hseats.
  { unfold X. wsimpl. unfold updP. cbn. by rewrite seats_alter_same. }
  assert (phase (room X) = FlipResult ∧ pendingRes X = [] ∧ timers X = []
          ∧ highestBidder (room X) = highestBidder (room w)) as (HphX & HpX & HtX & HhX).
  { unfold X. by wsimpl. }
  clearbody X.
  match goal with |- context [if ?b then _ else _] => destruct b end.
  - destruct (ginv_gameOver X i) as (w' & -> & ? & _); eauto.
    rewrite getP_lookupZ. apply lookupZ_is_Some. by rewrite <-(length_map seatOf), Hseats.
  - bcast. rewrite bind_Some_eq. cbv beta. eexists. split; [reflexivity|].
    unfold GInv, gameOf. wsimpl. split; [core_same HcX|].
    unfold PhaseInv. cbn. rewrite HphX, HpX, Hseats. cbn. split_and!; auto.
Qed.

Lemma CoreInv_alter_gen g g' (f : Seat → Seat) (i : nat) :
  CoreInv g → g_seats g' = alter f i (g_seats g) →
  (∀ s, g_seats g !! i = Some s →
        (s_elim (f s) = false → s_cards (f s) ≠ [])
        ∧ (s_elim (f s) = true → s_cards (f s) = [] ∧ s_hand (f s) = [] ∧ s_stack (f s) = [])) →
  g_started g' = g_started g →
  timersOk (g_timer g') (g_timers g') →
  g_round g' = g_round g → g_nrs g' < Z.of_nat (length (g_seats g)) → CoreInv g'.
Proof.
  intros [? ? ? ? Hcards Helim] Hs Hf Hst Ht Hr Hn.
  constructor; rewrite ?Hs, ?Hst, ?Hr, ?length_alter; auto.
  - intros j s' [(-> & s & Hi & ->)|(_ & Hj)]%lookup_alter_cases He; [|eauto].
    by apply Hf.
  - intros j s' [(-> & s & Hi & ->)|(_ & Hj)]%lookup_alter_cases He; [|eauto].
    by apply Hf.
Qed.

Lemma aliveSeats_alter_ge (g : Seat → Seat) (i : nat) ss :
  (length (aliveSeats ss) ≤ S (length (aliveSeats (alter g i ss))))%nat.
Proof.
  unfold aliveSeats. revert i. induction ss as [|s ss IH]; intros i; [cbn; lia|].
  destruct i as [|i]; cbn.
  - destruct (s_elim s), (s_elim (g s)); cbn; lia.
  - specialize (IH i). destruct (s_elim s); cbn; lia.
Qed.

Lemma firstAlive_is_Some r :
  (0 < length (aliveSeats (map seatOf (players r))))%nat →
  is_Some (getP r (findIndex (λ pl, negb (eliminated pl)) (players r))).
Proof.
  intros Ha. destruct (findIndex_cases (λ pl, negb (eliminated pl)) (players r))
    as [[_ Hall]|(i & p & -> & Hp & _)].
  - apply aliveSeats_exists in Ha as (s & (p & -> & Hp)%list_elem_of_fmap & He).
    apply Hall in Hp. cbn in He. rewrite He in Hp. done.
  - rewrite getP_of_nat. eauto.
Qed.

Lemma ginv_removal_end X :
  CoreInv (gameOf X) → phase (room X) = FlipResult ∨ phase (room X) = Penalty →
  pendingRes X = [] → timers X = [] → penaltyPlayer (room X) = -1 →
  (1 ≤ length (aliveSeats (map seatOf (players (room X)))))%nat →
  ∃ w', (if Z.of_nat (length (activePlayers (room X))) <=? 1
         then gameOver X (findIndex (λ pl, negb (eliminated pl)) (players (room X)))
         else w ← broadcastState X; Some (schedule DStartRound w)) = Some w' ∧ GInv w'.
Proof.
  intros Hc Hph Hpend Htim Hpp Ha. assert (timers_ok X) as Htok by apply Hc.
  rewrite activePlayers_seats.
  destruct (Z.leb_spec (Z.of_nat (length (aliveSeats (map seatOf (players (room X)))))) 1).
  - destruct (ginv_gameOver X (findIndex (λ pl, negb (eliminated pl)) (players (room X))))
      as (w' & -> & ? & _); eauto.
    apply firstAlive_is_Some. lia.
  - bcast. rewrite bind_Some_eq. cbv beta. eexists. split; [reflexivity|].
    unfold GInv, gameOf. wsimpl. split; [core_same Hc|].
    unfold PhaseInv. cbn. rewrite Hpend. cbn.
    destruct Hph as [-> | ->]; (split_and!; [lia|done|auto]).
Qed.

Lemma ginv_doCardRemoval rnd w i chosen :
  CoreInv (gameOf w) → phase (room w) = FlipResult ∨ phase (room w) = Penalty →
  pendingRes w = [] → timers w = [] →
  (2 ≤ length (aliveSeats (map seatOf (players (room w)))))%nat →
  aliveAt (map seatOf (players (room w))) i →
  ∃ w', doCardRemoval rnd w i chosen = Some w' ∧ GInv w'.
Proof.
  intros Hc Hph Hpend Htim Ha Hi. assert (timers_ok w) as Htok by apply Hc.
  unfold doCardRemoval.
  pose proof Hi as (s & Hs & He). rewrite lookupZ_map in Hs.
  destruct (lookupZ (players (room w)) i) as [p|] eqn:Hp; [|done].
  injection Hs as <-. cbn in He.
  rewrite <-getP_lookupZ in Hp. rewrite Hp.
  rewrite bind_Some_eq. cbv beta zeta.
  pose proof (aliveAt_lt _ _ Hi) as Hlt.
  assert (Hsi : map seatOf (players (room w)) !! Z.to_nat i = Some (seatOf p)).
  { apply getP_Some in Hp as [_ Hp]. by rewrite list_lookup_fmap, Hp. }
  assert (cards p ≠ []) as Hcards.
  { destruct Hc as [_ _ _ _ Hcd _]. by apply (Hcd _ _ Hsi). }
  assert ((0 <? Z.of_nat (length (cards p))) = true) as ->.
  { apply Z.ltb_lt. destruct (cards p); [done|cbn; lia]. }
  set (k := if (0 <=? chosen) && _ then _ else _).
  set (W1 := onRoom (addLog _) _).
  assert (getP (room W1) i = Some (set_cards (delete k (cards p)) p)) as Hp1.
  { unfold W1. rewrite !room_onRoom.
    change (getP (addLog ?m ?r) i) with (getP r i).
    exact (getP_updP_eq (room w) i (λ p0, set_cards (delete k (cards p0)) p0) p Hp). }
  rewrite Hp1, bind_Some_eq. cbv beta.
  assert (Hnrs : nextRoundStarter (room w) < Z.of_nat (length (map seatOf (players (room w)))))
    by apply Hc.
  match goal with |- context [activePlayers (room ?x)] => set (X := x) end.
  assert (∃ F, map seatOf (players (room X)) = alter F (Z.to_nat i) (map seatOf (players (room w)))
               ∧ (s_elim (F (seatOf p)) = false → s_cards (F (seatOf p)) ≠ [])
               ∧ (s_elim (F (seatOf p)) = true →
                  s_cards (F (seatOf p)) = [] ∧ s_hand (F (seatOf p)) = []
                  ∧ s_stack (F (seatOf p)) = [])) as (F & Hseats & HF1 & HF2).
  { unfold X, W1. cbn [cards set_cards].
    destruct (Z.eqb_spec (Z.of_nat (length (delete k (cards p)))) 0) as [E|E].
    - exists (λ s, elimSeat (removeCard k s)). split; [|split; [done|]].
      + wsimpl. unfold updP. cbn. rewrite list_alter_alter_eq.
        by apply seats_alter.
      + intros _. cbn. split_and!; [|done..].
        destruct (delete k (cards p)); [done|cbn in E; lia].
    - exists (removeCard k). split; [|split].
      + wsimpl. unfold updP. cbn. by apply seats_alter.
      + intros _. cbn. intros E'. rewrite E' in E. done.
      + cbn. congruence. }
  assert (started (room X) = started (room w) ∧ roundNum (room X) = roundNum (room w)
          ∧ nextRoundStarter (room X) = nextRoundStarter (room w)
          ∧ turnTimer (room X) = turnTimer (room w) ∧ timers X = timers w
          ∧ phase (room X) = phase (room w) ∧ pendingRes X = pendingRes w
          ∧ penaltyPlayer (room X) = -1) as (E1 & E2 & E3 & E4 & E5 & E6 & E7 & E8).
  { unfold X, W1. cbn [cards set_cards].
    destruct (Z.of_nat (length (delete k (cards p))) =? 0); by wsimpl. }
  clearbody X. clear W1 Hp1.
  apply ginv_removal_end; try congruence.
  - eapply (CoreInv_alter_gen _ _ _ _ Hc); cbn; [exact Hseats| |done| |done|].
    + intros s. rewrite Hsi. by intros [= <-].
    + rewrite E4, E5. apply Hc.
    + by rewrite E3.
  - rewrite Hseats. pose proof (aliveSeats_alter_ge F (Z.to_nat i) (map seatOf (players (room w)))).
    lia.
Qed.

Lemma ginv_penalize rnd w loser skuller :
  CoreInv (gameOf w) → phase (room w) = FlipResult →
  pendingRes w = [] → timers w = [] →
  (2 ≤ length (aliveSeats (map seatOf (players (room w)))))%nat →
  loser = highestBidder (room w) → currentPlayer (room w) = highestBidder (room w) →
  aliveAt (map seatOf (players (room w))) loser →
  is_Some (lookupZ (map seatOf (players (room w))) skuller) →
  ∃ w', penalize rnd w loser skuller = Some w' ∧ GInv w'.
Proof.
  intros Hc Hph Hpend Htim Ha Hhb Hcur Hi [sk Hsk]. assert (timers_ok w) as Htok by apply Hc.
  unfold penalize. cbv zeta. wsimpl.
  pose proof Hi as (s & Hs & He). rewrite lookupZ_map in Hs.
  destruct (lookupZ (players (room w)) loser) as [p|] eqn:Hp; [|done].
  rewrite bind_Some_eq. cbv beta.
  pose proof (aliveAt_lt _ _ Hi) as Hlt. pose proof (lookupZ_lt _ _ _ Hsk) as Hlt'.
  assert (Hn : (if loser =? skuller then loser else skuller)
               < Z.of_nat (length (map seatOf (players (room w)))))
    by (destruct (loser =? skuller); lia).
  match goal with |- context [if ?b then _ else _] => destruct b end.
  - bcast. eexists. split; [reflexivity|].
    unfold GInv, gameOf. wsimpl. split; [core_same Hc|].
    unfold PhaseInv. cbn. rewrite Hpend. split_and!; [done..|]. left.
    rewrite <-Hhb. split_and!; try done. by rewrite Hhb.
  - apply ginv_doCardRemoval; try done; [|by left].
    unfold gameOf. wsimpl. core_same Hc.
Qed.

Lemma ginv_handlePenaltyDiscard rnd w i cardIndex :
  GInv w → is_Some (getP (room w) i) →
  ∃ w', handlePenaltyDiscard rnd w i cardIndex = Some w' ∧ GInv w'.
Proof.
  intros Hg [p Hp]. unfold handlePenaltyDiscard.
  early. early. getp Hp. early.
  apply bool_decide_eq_true_1 in Heqb. apply Z.eqb_eq in Heqb0.
  destruct Hg as [Hc Hph]. unfold PhaseInv in Hph. cbn in Hph. rewrite Heqb in Hph.
  destruct Hph as (Ha & Htim & [(Hpend & Hpp & Hcur & Hal)|[_ Hpp]]).
  - apply ginv_doCardRemoval; try done; [by right|]. congruence.
  - apply getP_Some in Hp as [? _]. lia.
Qed.

Lemma autoPassAll_frame {A} (proj : Room → A) r :
  (∀ m r, proj (addLog m r) = proj r) → (∀ ps r, proj (set_players ps r) = proj r) →
  proj (autoPassAll r) = proj r.
Proof. intros H1 H2. unfold autoPassAll. cbv zeta. by rewrite foldl_addLog_frame, H2. Qed.

Lemma seats_autoPassAll r :
  map seatOf (players (autoPassAll r)) = map seatOf (players r).
Proof.
  unfold autoPassAll. cbv zeta. rewrite (foldl_addLog_frame players) by done. cbn.
  apply seats_imap_same. intros i p. by destruct (canStillBid r i p).
Qed.

Lemma gameOf_autoPassAll w : gameOf (onRoom autoPassAll w) = gameOf w.
Proof.
  unfold gameOf. cbv zeta. rewrite !room_onRoom, seats_autoPassAll.
  rewrite !(autoPassAll_frame _ (room w)) by done. done.
Qed.

Lemma ginv_runCallback now cb w :
  GInv w → ∃ w', runCallback now cb w = Some w' ∧ GInv w'.
Proof.
  intros Hg. destruct cb as [fp|next|]; unfold runCallback.
  - early. apply orb_false_iff in Heqb as [Hph Hcur].
    apply negb_false_iff in Hph, Hcur.
    apply bool_decide_eq_true_1 in Hph. apply Z.eqb_eq in Hcur.
    pose proof Hg as [_ Hp]. unfold PhaseInv in Hp. cbn in Hp. rewrite Hph in Hp.
    destruct Hp as (_ & _ & _ & _ & _ & (s & Hs & _) & _).
    rewrite lookupZ_map, Hcur, <-getP_lookupZ in Hs.
    destruct (getP (room w) fp) as [p|]; [|done]. rewrite bind_Some_eq. cbv beta.
    destruct (0 <? _); [by apply ginv_handlePlace|eauto].
  - early. apply orb_false_iff in Heqb as [Hph Hcur].
    apply negb_false_iff in Hph, Hcur.
    apply bool_decide_eq_true_1 in Hph. apply Z.eqb_eq in Hcur.
    pose proof Hg as [_ Hp]. unfold PhaseInv in Hp. cbn in Hp. rewrite Hph in Hp.
    destruct Hp as (_ & _ & _ & _ & _ & (s & Hs & _) & _).
    rewrite lookupZ_map, Hcur, <-getP_lookupZ in Hs. cbv zeta.
    destruct (getP (room w) next) as [p|]; [|done].
    match goal with |- ∃ w', (?m ≫= _) = _ ∧ _ =>
      assert (∃ b, m = Some b) as [b ->]
        by (destruct (negb (firstPlacement (room w))); cbn; eauto) end.
    rewrite bind_Some_eq. cbv beta.
    destruct b; [by apply ginv_handleStartBid|].
    rewrite bind_Some_eq. cbv beta.
    destruct (0 <? _); [by apply ginv_handlePlace|eauto].
  - early. apply bool_decide_eq_true_1 in Heqb.
    apply ginv_checkBiddingEnd.
    + unfold GInv. by rewrite gameOf_autoPassAll.
    + rewrite room_onRoom. by rewrite (autoPassAll_frame phase).
Qed.

Lemma ginv_fireTimer now w k :
  GInv w → ∃ w', fireTimer now w k = Some w' ∧ GInv w'.
Proof.
  intros Hg. unfold fireTimer.
  destruct (timers w !! k) as [[h cb]|] eqn:Hk; [|eauto]. cbv zeta.
  apply ginv_runCallback.
  destruct Hg as [Hc Hp]. pose proof (ci_timers _ Hc) as Ht. cbn in Ht.
  unfold timersOk in Ht.
  destruct (turnTimer (room w)) as [h'|] eqn:Hh; [|by rewrite Ht in Hk].
  destruct Ht as [cb' Ht]. rewrite Ht in Hk.
  destruct k as [|k]; [|done]. cbn in Hk.
  unfold GInv, gameOf. wsimpl. rewrite Ht. cbn.
  split; [core_same Hc|].
  unfold PhaseInv in *. cbn in *. rewrite Ht in Hp.
  destruct (phase (room w)); try done; intuition (try done).
Qed.

Lemma ginv_drop_other w k d :
  GInv w → deferred w !! k = Some d → resolution d = false →
  GInv (set_deferred (delete k (deferred w)) w).
Proof.
  intros Hg Hk Hd. unfold GInv, gameOf. cbn.
  by rewrite (pendingRes_delete_other w k d).
Qed.

Lemma ginv_runDeferred_at now rnd w k d :
  GInv w → deferred w !! k = Some d →
  ∃ w', runDeferred now rnd d (set_deferred (delete k (deferred w)) w) = Some w' ∧ GInv w'.
Proof.
  intros Hg Hk. set (W := set_deferred _ w).
  destruct (resolution d) eqn:Hd.
  - assert (∀ d', pendingRes w = [d'] → d' = d ∧ pendingRes W = []) as Hone.
    { intros d' Hd'. by apply (pendingRes_delete_res w k d d'). }
    assert (pendingRes w ≠ []) as Hne.
    { intros E. by rewrite (pendingRes_nil_other w k d Hk E) in Hd. }
    assert (gameOf W = gameOf w ∨ True) as _ by by right.
    assert (room W = room w ∧ timers W = timers w) as [Er Et] by done.
    destruct Hg as [Hc Hp]. unfold PhaseInv in Hp. cbn in Hp.
    assert (CoreInv (gameOf W)) as HcW by (unfold gameOf, W; cbn; core_same Hc).
    destruct (phase (room w)) eqn:Hph; try (by destruct Hp as (? & ? & ?)); try done.
    + destruct Hp as (Ha & Htim & [(t & Hpend & Hcur & Hal & Ht)|[[Hpend Hal]|Hpend]]);
        destruct (Hone _ Hpend) as [<- HpW]; cbn.
      * apply ginv_penalize; rewrite ?Er, ?Et; done.
      * apply ginv_challengeSuccess; rewrite ?Er, ?Et; done.
      * destruct (ginv_startRound now W) as (w' & -> & ? & _); eauto.
        rewrite activePlayers_seats, Er. done.
    + destruct Hp as (Ha & Htim & [(Hpend & _)|[Hpend Hpp]]); [done|].
      destruct (Hone _ Hpend) as [<- HpW]; cbn.
      destruct (ginv_startRound now W) as (w' & -> & ? & _); eauto.
      rewrite activePlayers_seats, Er. done.
    + by destruct Hp.
  - pose proof (ginv_drop_other w k d Hg Hk Hd) as HW. fold W in HW. clearbody W.
    destruct d as [next| | |]; try done. unfold runDeferred.
    destruct (_ && _); [by apply ginv_handleStartBid|eauto].
Qed.

Lemma ginv_fireDeferred now rnd w k :
  GInv w → ∃ w', fireDeferred now rnd w k = Some w' ∧ GInv w'.
Proof.
  intros Hg. unfold fireDeferred.
  destruct (deferred w !! k) as [d|] eqn:Hk; [|eauto].
  by apply ginv_runDeferred_at.
Qed.

Lemma ginv_withSeat w sid (k : Z → option World) :
  GInv w → (∀ i, is_Some (getP (room w) i) → ∃ w', k i = Some w' ∧ GInv w') →
  ∃ w', withSeat w sid k = Some w' ∧ GInv w'.
Proof.
  intros Hg Hk. unfold withSeat. early. cbv zeta.
  destruct (playerIndex_range (room w) sid) as [->|(p & Hp & _)]; [eauto|].
  early. apply Hk. eauto.
Qed.

(** A room update that leaves the game view as it is. *)
Lemma ginv_cosmetic X w :
  gameOf X = gameOf w → GInv w →
  ∃ w', broadcastState X = Some w' ∧ GInv w'.
Proof.
  intros Hf Hg. bcast. eexists. split; [reflexivity|]. unfold GInv.
  change (gameOf (set_outbox ?o ?x)) with (gameOf x). by rewrite Hf.
Qed.

Lemma gameOf_updP_same f i w :
  (∀ p, seatOf (f p) = seatOf p) → gameOf (onRoom (updP i f) w) = gameOf w.
Proof.
  intros Hf. unfold gameOf. cbv zeta. rewrite room_onRoom. unfold updP. cbn.
  by rewrite seats_alter_same.
Qed.

Lemma ginv_onChatMessage now w sid msg :
  GInv w → ∃ w', onChatMessage now w sid msg = Some w' ∧ GInv w'.
Proof.
  intros Hg. unfold onChatMessage. cbv zeta.
  destruct (playerIndex_range (room w) sid) as [->|(p & Hp & _)]; [eauto|].
  early. getp Hp. early. early.
  apply (ginv_cosmetic _ w); [|done].
  unfold gameOf. cbv zeta. rewrite !room_onRoom. unfold updP. cbn.
  by rewrite seats_alter_same.
Qed.

Lemma ginv_onDougLose w sid :
  GInv w → ∃ w', onDougLose w sid = Some w' ∧ GInv w'.
Proof.
  intros Hg. unfold onDougLose. cbv zeta.
  destruct (playerIndex_range (room w) sid) as [->|(p & Hp & _)]; [eauto|].
  early. getp Hp. early.
  bcast. eexists. split; [reflexivity|]. exact Hg.
Qed.

Lemma ginv_onDisconnect w sid :
  GInv w → ∃ w', onDisconnect w sid = Some w' ∧ GInv w'.
Proof.
  intros Hg. unfold onDisconnect. cbv zeta.
  destruct (playerIndex_range (room w) sid) as [->|(p & Hp & _)]; [eauto|].
  early. assert (started (room w) = true) as -> by apply Hg. cbn [negb].
  getp Hp.
  apply (ginv_cosmetic _ w); [|done].
  unfold gameOf. cbv zeta. rewrite !room_onRoom. unfold updP. cbn.
  by rewrite seats_alter_same.
Qed.

Lemma ginv_joinFound w roomCode sid nm :
  GInv w → ∃ rw, joinFound w roomCode sid nm = Some rw ∧ GInv (snd rw).
Proof.
  intros Hg. unfold joinFound. cbv zeta.
  assert (started (room w) = true) as -> by apply Hg.
  destruct (list_find _ _) as [[i existing]|]; [|eauto].
  destruct (ginv_cosmetic (onRoom (updP (Z.of_nat i) (λ p, set_connected true (set_pid sid p))) w) w)
    as (w' & -> & ?); [by apply gameOf_updP_same|done|].
  rewrite bind_Some_eq. eauto.
Qed.

Lemma ginv_onStartGame now w sid :
  GInv w → onStartGame now w sid = Some w.
Proof. intros Hg. unfold onStartGame. by assert (started (room w) = true) as -> by apply Hg. Qed.

Lemma ginv_dispatch now rnd w ev :
  GInv w → isReset ev = false → ∃ w', dispatch now rnd w ev = Some w' ∧ GInv w'.
Proof.
  intros Hg Hev. destruct ev; try done; unfold dispatch.
  - destruct (ginv_joinFound w (code (room w)) socketId nm Hg) as ([r w'] & -> & ?). eauto.
  - rewrite ginv_onStartGame by done. eauto.
  - apply ginv_withSeat; [done|]. intros i _. by apply ginv_handlePlace.
  - apply ginv_withSeat; [done|]. intros i _. by apply ginv_handleStartBid.
  - apply ginv_withSeat; [done|]. intros i Hi. by apply ginv_handleRaiseBid.
  - apply ginv_withSeat; [done|]. intros i Hi. by apply ginv_handlePass.
  - apply ginv_withSeat; [done|]. intros i _. by apply ginv_handleFlip.
  - apply ginv_withSeat; [done|]. intros i Hi. by apply ginv_handlePenaltyDiscard.
  - by apply ginv_onChatMessage.
  - by apply ginv_onDougLose.
  - by apply ginv_onDisconnect.
  - by apply ginv_fireTimer.
  - by apply ginv_fireDeferred.
Qed.

Lemma ginv_step now rnd w ev :
  GInv w → isReset ev = false → ∃ w', step now rnd w ev = Some w' ∧ GInv w'.
Proof. intros Hg Hev. unfold step. by apply ginv_dispatch. Qed.

Lemma startRound_stale now w :
  Z.of_nat (length (players (room w))) ≤ nextRoundStarter (room w) →
  startRound now w = None.
Proof.
  intros Hn. unfold startRound. cbv zeta. wsimpl.
  assert ((0 <=? nextRoundStarter (room w)) = true) as -> by (apply Z.leb_le; lia).
  assert (lookupZ (players (room w)) (nextRoundStarter (room w)) = None) as ->; [|done].
  unfold lookupZ. case_decide; [|done]. apply lookup_ge_None. lia.
Qed.

Lemma aliveSeats_all ss :
  (∀ s, s ∈ ss → s_elim s = false) → aliveSeats ss = ss.
Proof.
  unfold aliveSeats. induction ss as [|s ss IH]; intros H; [done|]. cbn.
  rewrite (H s) by left. cbn. rewrite IH; [done|]. intros s' Hs'. apply H. by right.
Qed.

Lemma ginv_startGame now w w' :
  quiescent w → (2 ≤ length (players (room w)))%nat →
  startGame now w = Some w' → GInv w'.
Proof.
  intros [Hd Htok] Hlen H. unfold startGame in H. cbv zeta in H.
  set (X := onRoom (addLog _) _) in H.
  assert (map seatOf (players (room X))
          = map (λ s, mkSeat [Rose; Rose; Rose; Skull] (s_hand s) (s_stack s) false)
                (map seatOf (players (room w)))) as Hseats.
  { unfold X. wsimpl. by apply seats_map. }
  assert (started (room X) = true ∧ roundNum (room X) = 0 ∧ pendingRes X = []
          ∧ turnTimer (room X) = turnTimer (room w) ∧ timers X = timers w
          ∧ nextRoundStarter (room X) = nextRoundStarter (room w)
          ∧ length (players (room X)) = length (players (room w)))
    as (E1 & E2 & E3 & E4 & E5 & E6 & E7).
  { unfold X. wsimpl. unfold pendingRes. rewrite Hd, length_map. done. }
  clearbody X.
  destruct (Z.le_gt_cases (Z.of_nat (length (players (room X)))) (nextRoundStarter (room X)))
    as [Hst|Hn].
  { by rewrite startRound_stale in H. }
  destruct (ginv_startRound now X) as (w'' & Hw'' & Hg & _); [| |done|congruence].
  - constructor; cbn; rewrite ?Hseats, ?length_map, ?E4, ?E5 in *; try done; try lia.
    + intros i s (s0 & -> & _)%list_lookup_fmap_Some _. done.
    + intros i s (s0 & -> & _)%list_lookup_fmap_Some. done.
  - rewrite activePlayers_seats, Hseats, aliveSeats_all, !length_map; [done|].
    intros s (s0 & -> & _)%list_elem_of_fmap. done.
Qed.

Lemma inGame_GInv w : inGame w → GInv w.
Proof.
  induction 1 as [now rnd w sid w' Hq Hns Hstep Hst|now rnd w ev w' _ IH Hev Hstep].
  - unfold step, dispatch, onStartGame in Hstep. cbn in Hstep. rewrite Hns in Hstep.
    destruct (negb (bool_decide _)); [simplify_eq/=; congruence|].
    destruct (Z.ltb_spec (Z.of_nat (length (players (room w)))) 2);
      [simplify_eq/=; congruence|].
    eapply ginv_startGame; [| |exact Hstep]; [|cbn; lia].
    destruct Hq. by split.
  - destruct (ginv_step now rnd w ev IH Hev) as (w'' & Hw'' & Hg). congruence.
Qed.
(** * What holds in every world of a game *)

Lemma inGame_runEvents now rnd evs : ∀ w w',
  inGame w → forallb (λ ev, negb (isReset ev)) evs = true →
  runEvents now rnd w evs = Some w' → inGame w'.
Proof.
  unfold runEvents. induction evs as [|ev evs IH]; intros w w' Hw Hevs H.
  - cbn in H. by injection H as <-.
  - cbn in Hevs. apply andb_true_iff in Hevs as [Hev Hevs]. cbn in H.
    destruct (step now rnd w ev) as [w1|] eqn:Hstep.
    + apply (IH w1 w'); [|done|done].
      apply (game_step now rnd w ev w1); [done| |done]. by destruct (isReset ev).
    + exfalso. clear -H. induction evs as [|e es IHes]; [done|]. by apply IHes.
Qed.

Lemma demoPlacing_inGame : inGame demoPlacing.
Proof.
  apply (game_start 1000 0 demoLobby "a"); [|reflexivity|vm_compute; reflexivity|reflexivity].
  split; [reflexivity|]. vm_compute. reflexivity.
Qed.

Lemma demoFlipping_inGame : inGame demoFlipping.
Proof.
  apply (inGame_runEvents 1000 0 [EPlaceCard "a" 0; EPlaceCard "b" 0; EStartBid "a" 2]
           demoPlacing); [apply demoPlacing_inGame|reflexivity|vm_compute; reflexivity].
Qed.

(** X6. In the placing, bidding and flipping phases of a game the cached
    table count is the number of tokens on the stacks. *)
Theorem game_cache_consistent w :
  inGame w → tablePhase (phase (room w)) = true → cacheOk (room w).
Proof.
  intros Hg%inGame_GInv Hph. destruct Hg as [_ Hp]. unfold cacheOk.
  rewrite countOnTable_seats. unfold PhaseInv in Hp. cbn in Hp.
  destruct (phase (room w)); try done; tauto.
Qed.



(** X9. A game is started and in a phase; until it is over at least two
    seats are still in it. *)
Theorem game_two_survivors w :
  inGame w →
  started (room w) = true ∧ phase (room w) ≠ PNone
  ∧ (phase (room w) ≠ GameOver → twoAlive (room w)).
Proof.
  intros Hg%inGame_GInv. destruct Hg as [Hc Hp]. split; [apply Hc|].
  unfold twoAlive. rewrite activePlayers_seats.
  unfold PhaseInv in Hp. cbn in Hp.
  destruct (phase (room w)); try done; (split; [done|]); intros _; tauto.
Qed.

(** X10. In a game an eliminated seat owns nothing (no tokens, empty hand,
    empty stack) and a seat still in the game owns at least one token. *)
Theorem game_seat_tokens w (i : nat) p :
  inGame w → players (room w) !! i = Some p →
  if eliminated p then cards p = [] ∧ hand p = [] ∧ stack p = [] else cards p ≠ [].
Proof.
  intros Hg%inGame_GInv Hi. destruct Hg as [[_ _ _ _ Hcards Helim] _].
  assert (map seatOf (players (room w)) !! i = Some (seatOf p)) as Hs
    by (by rewrite list_lookup_fmap, Hi).
  destruct (eliminated p) eqn:He.
  - by apply (Helim i (seatOf p)).
  - by apply (Hcards i (seatOf p)).
Qed.

(** X11. The seat that holds the turn is a seat still in the game: the
    current player while placing; the highest bidder, who is the current
    player, while flipping. *)
Theorem game_turn_owner w :
  inGame w →
  (phase (room w) = Placing → seatOK (room w) (currentPlayer (room w)))
  ∧ (phase (room w) = Flipping →
     seatOK (room w) (highestBidder (room w))
     ∧ currentPlayer (room w) = highestBidder (room w)).
Proof.
  intros Hg%inGame_GInv. destruct Hg as [_ Hp]. unfold PhaseInv in Hp. cbn in Hp.
  split; intros Hph; rewrite Hph in Hp.
  - apply seatOK_aliveAt. tauto.
  - split; [apply seatOK_aliveAt|]; tauto.
Qed.

(** X12. At most one resolution delay (penalty, challenge success or next
    round) is pending in a game: exactly one in the flip-result phase,
    none or the next round in the penalty phase, none in any other phase. *)
Theorem game_one_resolution w :
  inGame w →
  match phase (room w) with
  | FlipResult => length (pendingRes w) = 1%nat
  | Penalty => pendingRes w = [] ∨ pendingRes w = [DStartRound]
  | _ => pendingRes w = []
  end.
Proof.
  intros Hg%inGame_GInv. destruct Hg as [_ Hp]. unfold PhaseInv in Hp. cbn in Hp.
  destruct (phase (room w)); try done; try tauto.
  destruct Hp as (_ & _ & [(t & -> & _)|[[-> _]| ->]]); done.
Qed.


(** X14. Outside the placing and bidding phases of a game no deadline is
    pending. *)
Theorem game_deadline_only_in_turns w :
  inGame w → phase (room w) ≠ Placing → phase (room w) ≠ Bidding →
  timers w = [] ∧ turnTimer (room w) = None.
Proof.
  intros Hg%inGame_GInv H1 H2. destruct Hg as [Hc Hp].
  pose proof (ci_timers _ Hc) as Ht. cbn in Ht. unfold timersOk in Ht.
  assert (timers w = []) as Htim.
  { unfold PhaseInv in Hp. cbn in Hp. destruct (phase (room w)); try done; tauto. }
  split; [done|]. destruct (turnTimer (room w)); [|done].
  destruct Ht as [cb Ht]. congruence.
Qed.

(** X15. While placing in a game, once the first placement round is over
    every seat still in the game has a token on its stack. *)
Theorem game_all_placed w (i : nat) p :
  inGame w → phase (room w) = Placing → firstPlacement (room w) = false →
  players (room w) !! i = Some p → eliminated p = false → stack p ≠ [].
Proof.
  intros Hg%inGame_GInv Hph Hfp Hi He. destruct Hg as [_ Hp].
  unfold PhaseInv in Hp. cbn in Hp. rewrite Hph in Hp.
  destruct Hp as (_ & _ & _ & _ & _ & _ & Hall).
  apply (Hall Hfp i (seatOf p)); [|done]. by rewrite list_lookup_fmap, Hi.
Qed.
(** * Handlers on their own *)

Ltac bcast_in H :=
  match type of H with broadcastState ?x = Some ?w' =>
    let vs := fresh "vs" in let Hb := fresh "Hb" in
    destruct (broadcastState_spec x) as (vs & Hb & _);
    rewrite Hb in H; apply (inj Some) in H; subst w' end.

Lemma startRound_effects now w w' :
  startRound now w = Some w' → 0 ≤ roundNum (room w) →
  phase (room w') = Placing ∧ roundNum (room w') = roundNum (room w) + 1
  ∧ players (room w') = map (λ p, if eliminated p then p
                                   else set_passed false (set_stack [] (set_hand (cards p) p)))
                            (players (room w))
  ∧ started (room w') = started (room w)
  ∧ turnDeadline (room w') = now + 20 * 1000
  ∧ (seatOK (room w') (currentPlayer (room w'))
     ∨ (currentPlayer (room w') = -1 ∧ ∀ p, p ∈ players (room w') → eliminated p = true)).
Proof.
  intros H Hrn. unfold startRound in H. cbv zeta in H.
  apply bind_Some in H as (first & Hfirst & H). bcast_in H.
  wsimpl. split_and!; try done.
  rewrite !room_onRoom in Hfirst.
  set (r1 := set_players _ _) in Hfirst.
  assert (players r1 = map (λ p, if eliminated p then p
                                 else set_passed false (set_stack [] (set_hand (cards p) p)))
                           (players (room w))) as Hps by (unfold r1; by wsimpl).
  assert (roundNum r1 - 1 = roundNum (room w)) as Hr1 by (unfold r1; wsimpl; lia).
  clearbody r1. unfold seatOK. wsimpl. rewrite <-lookupZ_map, <-Hps.
  assert (findNextActive r1 ((roundNum r1 - 1) `rem` Z.of_nat (length (players r1))) = Some first
          → (∃ p, lookupZ (players r1) first = Some p ∧ eliminated p = false)
            ∨ first = -1 ∧ ∀ p, p ∈ players r1 → eliminated p = true) as Hrot.
  { intros Hf. rewrite Hr1 in Hf.
    destruct (findNextActive_scan r1 (roundNum (room w) `rem` Z.of_nat (length (players r1))))
      as (res & Hres & Hcase).
    { destruct (players r1); cbn [length]; [by rewrite Z.rem_0_r_ext|]. apply Z.rem_nonneg; lia. }
    assert (res = first) as -> by congruence.
    destruct Hcase as [?|(_ & _ & _ & Hok & _)]; [by right|by left]. }
  destruct (0 <=? nextRoundStarter r1); [|by apply Hrot].
  apply bind_Some in Hfirst as (p & Hp & Hfirst).
  destruct (eliminated p) eqn:He; cbn in Hfirst; [by apply Hrot|].
  left. exists p. by simplify_eq.
Qed.

(** X16. An accepted start-game: only the host of a room with at least
    two seats starts it; every seat is dealt three roses and a skull, holds
    them all in hand with nothing on the table, no wins and no elimination;
    round 1 is in its placing phase, a seat holds the turn, and the turn
    deadline is 20 seconds away. *)
Theorem startGame_deals now rnd w sid w' :
  started (room w) = false →
  step now rnd w (EStartGame sid) = Some w' → started (room w') = true →
  sid = hostId (room w) ∧ (2 ≤ length (players (room w)))%nat
  ∧ phase (room w') = Placing ∧ roundNum (room w') = 1
  ∧ players (room w')
    = map (λ p, set_passed false (set_stack [] (set_hand [Rose; Rose; Rose; Skull]
             (set_eliminated false (set_wins 0 (set_cards [Rose; Rose; Rose; Skull] p))))))
          (players (room w))
  ∧ seatOK (room w') (currentPlayer (room w'))
  ∧ turnDeadline (room w') = now + 20 * 1000.
Proof.
  intros Hns H Hst. unfold step, dispatch, onStartGame in H. cbn in H. rewrite Hns in H.
  destruct (bool_decide (sid = hostId (room w))) eqn:Hh; cbn in H;
    [|simplify_eq/=; congruence].
  apply bool_decide_eq_true_1 in Hh.
  destruct (Z.ltb_spec (Z.of_nat (length (players (room w)))) 2);
    [simplify_eq/=; congruence|].
  split; [done|]. split; [lia|].
  unfold startGame in H. cbv zeta in H.
  apply startRound_effects in H; [|by wsimpl].
  destruct H as (Hph & Hrn & Hps & _ & Hdl & Hcur). wsimpl in Hrn. wsimpl in Hps.
  rewrite map_map in Hps. cbn in Hps.
  split_and!; try done.
  destruct Hcur as [?|[_ Hall]]; [done|]. exfalso.
  destruct (players (room w)) as [|p ps] eqn:E; [cbn in *; lia|].
  rewrite Hps in Hall. specialize (Hall _ (list_elem_of_here _ _)). done.
Qed.

(** X17. A start-game on a room whose remembered next-round starter is
    not a seat any more (the index is beyond the seats) throws: the host's
    start reaches [room.players[room.nextRoundStarter].eliminated] on an
    undefined seat. *)
Theorem startGame_stale_starter_throws now rnd w :
  started (room w) = false → (2 ≤ length (players (room w)))%nat →
  Z.of_nat (length (players (room w))) ≤ nextRoundStarter (room w) →
  step now rnd w (EStartGame (hostId (room w))) = None.
Proof.
  intros Hns Hlen Hn. unfold step, dispatch, onStartGame. cbn. rewrite Hns.
  rewrite bool_decide_eq_true_2 by done. cbn.
  destruct (Z.ltb_spec (Z.of_nat (length (players (room w)))) 2); [lia|].
  unfold startGame. cbv zeta. apply startRound_stale. wsimpl. by rewrite length_map.
Qed.
(** X18. A host reset puts the room back in the lobby with every seat
    emptied, but it neither cancels the pending deadline and presentation
    delays nor forgets the next-round starter; a reset asked by anyone else
    changes nothing. *)
Theorem playAgain_keeps_pending now rnd w sid w' :
  step now rnd w (EPlayAgain sid) = Some w' →
  if bool_decide (sid = hostId (room w)) then
    started (room w') = false ∧ phase (room w') = PNone ∧ log (room w') = [LReset]
    ∧ revealedCards (room w') = []
    ∧ players (room w')
      = map (λ p, set_passed false (set_eliminated false (set_wins 0
               (set_stack [] (set_hand [] (set_cards [] p)))))) (players (room w))
    ∧ timers w' = timers w ∧ deferred w' = deferred w
    ∧ turnTimer (room w') = turnTimer (room w)
    ∧ nextRoundStarter (room w') = nextRoundStarter (room w)
  else w' = set_outbox [] w.
Proof.
  intros H. unfold step, dispatch, onPlayAgain in H. cbn [room set_outbox] in H.
  destruct (bool_decide (sid = hostId (room w))); cbn [negb] in H; [|by simplify_eq].
  cbv zeta in H. bcast_in H. wsimpl. done.
Qed.
(** X19. The chat rate limit: after a chat message that was accepted at
    time [t] (not the epoch), any message of the same socket that arrives
    less than one second later, whatever its text, is dropped, leaving the
    room as it was and sending nothing. *)
Theorem chat_second_message_dropped now t rnd w sid m1 m2 w1 :
  step t rnd w (EChatMessage sid m1) = Some w1 → outbox w1 ≠ [] →
  t ≠ 0 → now - t < 1000 →
  step now rnd w1 (EChatMessage sid m2) = Some (set_outbox [] w1).
Proof.
  intros H Hout Ht Hnow. unfold step, dispatch, onChatMessage in H.
  cbn [room set_outbox] in H. cbv zeta in H.
  destruct (playerIndex (room w) sid =? -1) eqn:Hi; [by simplify_eq|].
  apply bind_Some in H as (p & Hp & H).
  destruct (bool_decide (sanitizeHtml (slice0 200 (trim m1)) = "")); [by simplify_eq|].
  destruct (match lastChatTime p with Some _ => _ | None => _ end); [by simplify_eq|].
  bcast_in H. clear Hout.
  unfold step, dispatch, onChatMessage. cbv zeta.
  autorewrite with wsimp.
  change (playerIndex (addLog ?m ?r) sid) with (playerIndex r sid).
  rewrite playerIndex_updP by done. rewrite Hi.
  change (lookupZ (players (addLog ?m ?r)) ?i) with (getP r i).
  rewrite (getP_updP_eq (room w) _ (set_lastChatTime (Some t)) p Hp).
  rewrite bind_Some_eq. cbv beta.
  destruct (bool_decide _); [done|].
  cbn [lastChatTime set_lastChatTime].
  assert ((t =? 0) = false) as -> by (by apply Z.eqb_neq).
  assert ((now - t <? 1000) = true) as -> by (by apply Z.ltb_lt).
  done.
Qed.
Lemma stackCount_sum ps : ∀ (h : nat → Player → View.player),
  (∀ i p, View.stackCount (h i p) = Z.of_nat (length (stack p))) →
  foldr (λ vp s, View.stackCount vp + s) 0 (imap h ps) = sumStacks (map seatOf ps).
Proof.
  induction ps as [|p ps IH]; intros h Hh; [done|].
  change (map seatOf (p :: ps)) with (seatOf p :: map seatOf ps).
  rewrite sumStacks_cons. cbn. rewrite Hh. f_equal. apply IH. intros i q. apply Hh.
Qed.

Lemma view_cache r sid v :
  stateForPlayer r sid = Some v → cacheOk r → viewCacheOk v.
Proof.
  unfold stateForPlayer, cacheOk, viewCacheOk. cbv zeta. intros H Hc.
  apply bind_Some in H as (pc & _ & H). injection H as <-. cbn.
  rewrite Hc, countOnTable_seats. symmetry.
  by apply stackCount_sum.
Qed.

(** X20. A broadcast never throws and sends exactly one state message per
    seat, in seat order, each addressed to the seat's socket and carrying
    that socket's own projection of the room; the room itself is untouched. *)
Theorem broadcast_reaches_every_seat w :
  ∃ vs, broadcastState w = Some (set_outbox (outbox w ++ vs) w)
    ∧ Forall2 (λ p e, ∃ v, e = EmitGameState (pid p) v
                           ∧ stateForPlayer (room w) (pid p) = Some v)
              (players (room w)) vs.
Proof.
  destruct (broadcastState_spec w) as (vs & Hb & _). exists vs. split; [done|].
  unfold broadcastState in Hb. apply bind_Some in Hb as (vs' & Hm & Hb).
  assert (vs' = vs) as ->.
  { injection Hb as Hb. by apply app_inv_head in Hb. }
  apply mapM_Some in Hm. eapply Forall2_impl; [exact Hm|].
  intros p e Hpe. cbn in Hpe. apply bind_Some in Hpe as (v & Hv & [= <-]). eauto.
Qed.

(** X21. Every state message sent while an event runs shows the room as
    the event leaves it: no handler changes the room after it has
    broadcast it. *)
Theorem events_send_final_views now rnd w ev w' :
  step now rnd w ev = Some w' → out_ok w'.
Proof. apply step_out_ok. Qed.

(** X22. In a game, every state message sent by an event that leaves the
    room in the placing, bidding or flipping phase carries a table count
    equal to the sum of the stack counts it shows. *)
Theorem game_views_cache_consistent now rnd w ev w' :
  inGame w → step now rnd w ev = Some w' →
  tablePhase (phase (room w')) = true →
  Forall (λ e, match e with EmitGameState _ v => viewCacheOk v | _ => True end) (outbox w').
Proof.
  intros Hg Hstep Hph. apply Forall_forall. intros [to v| |] Hin; [|done..].
  pose proof (step_out_ok now rnd w ev w' Hstep to v Hin) as Hv.
  apply (view_cache _ _ _ Hv).
  destruct (isReset ev) eqn:Hev.
  - destruct ev; try done. unfold step, dispatch, onPlayAgain in Hstep.
    cbn [room set_outbox] in Hstep.
    destruct (negb _); [simplify_eq/=|].
    + pose proof (inGame_GInv _ Hg) as [_ Hp]. unfold cacheOk. rewrite countOnTable_seats.
      unfold PhaseInv in Hp. cbn in Hp. cbn in Hph. destruct (phase (room w)); try done; tauto.
    + exfalso. cbv zeta in Hstep. bcast_in Hstep. revert Hph. by wsimpl.
  - pose proof (inGame_GInv _ (game_step now rnd w ev w' Hg Hev Hstep)) as [_ Hp].
    unfold cacheOk. rewrite countOnTable_seats. unfold PhaseInv in Hp. cbn in Hp.
    destruct (phase (room w')); try done; tauto.
Qed.
(** X23. A met challenge gives the seat one more win and makes it the
    next-round starter; the second win ends the game at once (the deadline
    is cancelled and the winner announced to the room), otherwise the next
    round is scheduled behind a presentation delay and the phase stays as
    it is.  On a seat that does not exist the handler throws. *)
Theorem challengeSuccess_outcome w i :
  match getP (room w) i with
  | None => challengeSuccess w i = None
  | Some p =>
      ∃ w', challengeSuccess w i = Some w'
        ∧ getP (room w') i = Some (set_wins (wins p + 1) p)
        ∧ (∀ j, j ≠ i → getP (room w') j = getP (room w) j)
        ∧ nextRoundStarter (room w') = i
        ∧ if 2 <=? wins p + 1
          then phase (room w') = GameOver ∧ deferred w' = deferred w
               ∧ turnTimer (room w') = None
               ∧ EmitGameOver (code (room w)) (name p) i ∈ outbox w'
          else phase (room w') = phase (room w)
               ∧ deferred w' = deferred w ++ [DStartRound]
  end.
Proof.
  destruct (getP (room w) i) as [p|] eqn:Hp; unfold challengeSuccess; rewrite Hp; [|done].
  rewrite bind_Some_eq. cbv beta zeta.
  assert (0 ≤ i) as Hi by (by apply getP_Some in Hp as [? _]).
  set (X := onRoom (addLog _) _).
  assert (getP (room X) i = Some (set_wins (wins p + 1) p)) as HpX.
  { unfold X. rewrite !room_onRoom.
    change (getP (addLog ?m (set_nextRoundStarter ?n ?r)) i) with (getP r i).
    exact (getP_updP_eq (room w) i (λ p, set_wins (wins p + 1) p) p Hp). }
  assert (∀ j, j ≠ i → getP (room X) j = getP (room w) j) as HjX.
  { intros j Hj. unfold X. rewrite !room_onRoom.
    change (getP (addLog ?m (set_nextRoundStarter ?n ?r)) j) with (getP r j).
    by apply getP_updP_ne. }
  assert (nextRoundStarter (room X) = i ∧ phase (room X) = phase (room w)
          ∧ deferred X = deferred w ∧ code (room X) = code (room w)
          ∧ outbox X = outbox w) as (E1 & E2 & E3 & E4 & E5) by done.
  clearbody X.
  destruct (2 <=? wins p + 1).
  - unfold gameOver. cbv zeta. rewrite !room_onRoom, room_clear.
    change (getP (set_phase ?a (set_turnDeadline ?b (set_turnTimer ?c ?r))) i) with (getP r i).
    rewrite HpX, bind_Some_eq. cbv beta. bcast.
    eexists. split; [reflexivity|]. wsimpl. rewrite <-!getP_lookupZ.
    change (getP (addLog ?m (set_phase ?a (set_turnDeadline ?b (set_turnTimer ?c ?r)))) ?j)
      with (getP r j).
    split_and!; try done.
    rewrite E4. apply elem_of_app. left. apply elem_of_app. right. by apply list_elem_of_here.
  - bcast. rewrite bind_Some_eq. cbv beta. eexists. split; [reflexivity|]. wsimpl.
    rewrite <-!getP_lookupZ. rewrite E3. done.
Qed.
(** * The rules, handler by handler *)

Lemma noBidders_allOthersPassed r :
  List.filter (λ ip, canStillBid r (fst ip) (snd ip)) (imap (λ i p, (i, p)) (players r)) = []
  ↔ allOthersPassed r.
Proof.
  unfold allOthersPassed. split.
  - intros Hnil i p Hp He Hi. destruct (passed p) eqn:Hpa; [done|]. exfalso.
    assert (In (i, p) (List.filter (λ ip, canStillBid r (fst ip) (snd ip))
                                   (imap (λ i p, (i, p)) (players r)))) as Hin.
    { apply filter_In. split.
      - apply list_elem_of_In, list_elem_of_lookup. exists i.
        by rewrite list_lookup_imap, Hp.
      - unfold canStillBid. cbn. rewrite He, Hpa. cbn. apply negb_true_iff. by apply Z.eqb_neq. }
    by rewrite Hnil in Hin.
  - intros Hall. destruct (List.filter _ _) as [|[i p] l] eqn:E; [done|]. exfalso.
    assert (In (i, p) (List.filter (λ ip, canStillBid r (fst ip) (snd ip))
                                   (imap (λ i p, (i, p)) (players r)))) as Hin
      by (rewrite E; by left).
    apply filter_In in Hin as [Hin Hc].
    apply list_elem_of_In, list_elem_of_lookup in Hin as [k Hk].
    rewrite list_lookup_imap in Hk.
    destruct (players r !! k) as [q|] eqn:Hq; [|done]. cbn in Hk. injection Hk as <- <-.
    unfold canStillBid in Hc. cbn in Hc.
    apply andb_true_iff in Hc as [[He Hpa]%andb_true_iff Hi].
    apply negb_true_iff in He, Hpa, Hi. apply Z.eqb_neq in Hi.
    rewrite (Hall k q Hq He Hi) in Hpa. done.
Qed.

Lemma startFlipping_effects w w' :
  startFlipping w = Some w' →
  phase (room w') = Flipping ∧ flipsRemaining (room w') = currentBid (room w)
  ∧ currentPlayer (room w') = highestBidder (room w) ∧ revealedCards (room w') = []
  ∧ turnTimer (room w') = None ∧ turnDeadline (room w') = 0
  ∧ players (room w') = players (room w) ∧ currentBid (room w') = currentBid (room w)
  ∧ highestBidder (room w') = highestBidder (room w)
  ∧ totalCoastersOnTable (room w') = totalCoastersOnTable (room w)
  ∧ deferred w' = deferred w.
Proof.
  intros H. unfold startFlipping in H. cbv zeta in H.
  apply bind_Some in H as (bidder & _ & H). bcast_in H. wsimpl. done.
Qed.

Lemma checkBiddingEnd_effects w w' :
  checkBiddingEnd w = Some w' →
  players (room w') = players (room w) ∧ currentBid (room w') = currentBid (room w)
  ∧ highestBidder (room w') = highestBidder (room w)
  ∧ totalCoastersOnTable (room w') = countOnTable (room w)
  ∧ deferred w' = deferred w
  ∧ (allOthersPassed (room w) ∨ countOnTable (room w) ≤ currentBid (room w) →
       phase (room w') = Flipping ∧ flipsRemaining (room w') = currentBid (room w)
       ∧ currentPlayer (room w') = highestBidder (room w) ∧ revealedCards (room w') = []
       ∧ turnTimer (room w') = None)
  ∧ (¬ allOthersPassed (room w) → currentBid (room w) < countOnTable (room w) →
       phase (room w') = phase (room w) ∧ flipsRemaining (room w') = flipsRemaining (room w)
       ∧ currentPlayer (room w') = currentPlayer (room w)
       ∧ revealedCards (room w') = revealedCards (room w)
       ∧ turnTimer (room w') = turnTimer (room w) ∧ timers w' = timers w).
Proof.
  intros H. unfold checkBiddingEnd in H. cbv zeta in H.
  rewrite !room_onRoom in H.
  cbn [players totalCoastersOnTable set_totalCoastersOnTable currentBid] in H.
  set (act := List.filter _ _) in H.
  assert (act = List.filter (λ ip, canStillBid (room w) (fst ip) (snd ip))
                            (imap (λ i p, (i, p)) (players (room w)))) as Hact by done.
  assert ((Z.of_nat (length act) =? 0) = true ↔ allOthersPassed (room w)) as Hb.
  { rewrite <-noBidders_allOthersPassed, <-Hact, Z.eqb_eq.
    destruct act; cbn; [done|]. split; [lia|done]. }
  clearbody act. clear Hact.
  destruct (Z.of_nat (length act) =? 0) eqn:E1;
    [|destruct (countOnTable (room w) <=? currentBid (room w)) eqn:E2]; cbn [orb] in H.
  - apply startFlipping_effects in H. revert H. wsimpl. rewrite <-countOnTable_seats.
    intros (? & ? & ? & ? & ? & ? & ? & ? & ? & ? & ?).
    split_and!; try done. intros Hn. exfalso. apply Hn, Hb. done.
  - apply startFlipping_effects in H. revert H. wsimpl. rewrite <-countOnTable_seats.
    intros (? & ? & ? & ? & ? & ? & ? & ? & ? & ? & ?).
    split_and!; try done. apply Z.leb_le in E2. lia.
  - bcast_in H. wsimpl. rewrite <-countOnTable_seats. split_and!; try done.
    apply Z.leb_gt in E2. intros [Ha%Hb|?]; [done|lia].
Qed.

Lemma allOthersPassed_dec r : allOthersPassed r ∨ ¬ allOthersPassed r.
Proof.
  destruct (List.filter (λ ip, canStillBid r (fst ip) (snd ip))
                        (imap (λ i p, (i, p)) (players r))) as [|x l] eqn:E.
  - left. by apply noBidders_allOthersPassed.
  - right. intros H%noBidders_allOthersPassed. congruence.
Qed.

Lemma bidding_core w w' :
  phase (room w) = Bidding → checkBiddingEnd w = Some w' →
  (phase (room w') = Flipping
   ↔ allOthersPassed (room w) ∨ countOnTable (room w) ≤ currentBid (room w))
  ∧ (phase (room w') = Flipping →
       flipsRemaining (room w') = currentBid (room w)
       ∧ currentPlayer (room w') = highestBidder (room w)
       ∧ revealedCards (room w') = [] ∧ turnTimer (room w') = None)
  ∧ (phase (room w') ≠ Flipping →
       phase (room w') = Bidding ∧ currentPlayer (room w') = currentPlayer (room w)
       ∧ turnTimer (room w') = turnTimer (room w) ∧ timers w' = timers w)
  ∧ players (room w') = players (room w) ∧ currentBid (room w') = currentBid (room w)
  ∧ highestBidder (room w') = highestBidder (room w)
  ∧ totalCoastersOnTable (room w') = countOnTable (room w).
Proof.
  intros Hph H. apply checkBiddingEnd_effects in H.
  destruct H as (Hps & Hbid & Hhb & Htot & _ & Hyes & Hno).
  destruct (allOthersPassed_dec (room w)) as [Ha|Ha];
    [|destruct (Z.le_gt_cases (countOnTable (room w)) (currentBid (room w))) as [Hle|Hgt]].
  - destruct (Hyes (or_introl Ha)) as (? & ? & ? & ? & ?).
    split; [tauto|]. split; [done|]. split; [congruence|]. done.
  - destruct (Hyes (or_intror Hle)) as (? & ? & ? & ? & ?).
    split; [tauto|]. split; [done|]. split; [congruence|]. done.
  - destruct (Hno Ha Hgt) as (Hp & ? & ? & ? & ? & ?). rewrite Hph in Hp.
    split; [|split; [congruence|split; [done|done]]].
    split; [congruence|]. intros [?|?]; [done|lia].
Qed.

(** X25. The end of the bidding: re-evaluated in phase bidding, the room
    moves to flipping exactly when every non-eliminated seat other than
    the highest bidder has passed or the bid has reached the number of
    tokens on the table; entering flipping sets the flips to make to the
    bid, gives the turn to the highest bidder, clears the reveal list and
    cancels the deadline; otherwise the phase, the turn and the deadline
    stay.  Seats, bid and highest bidder are never touched and the cached
    table count is recomputed. *)
Theorem bidding_ends_iff w w' :
  phase (room w) = Bidding → checkBiddingEnd w = Some w' →
  (phase (room w') = Flipping
   ↔ allOthersPassed (room w) ∨ countOnTable (room w) ≤ currentBid (room w))
  ∧ (phase (room w') = Flipping →
       flipsRemaining (room w') = currentBid (room w)
       ∧ currentPlayer (room w') = highestBidder (room w)
       ∧ revealedCards (room w') = [] ∧ turnTimer (room w') = None)
  ∧ (phase (room w') ≠ Flipping →
       phase (room w') = Bidding ∧ currentPlayer (room w') = currentPlayer (room w)
       ∧ turnTimer (room w') = turnTimer (room w) ∧ timers w' = timers w)
  ∧ players (room w') = players (room w) ∧ currentBid (room w') = currentBid (room w)
  ∧ highestBidder (room w') = highestBidder (room w)
  ∧ totalCoastersOnTable (room w') = countOnTable (room w).
Proof. apply bidding_core. Qed.


(** X26. A pass is applied exactly when the phase is bidding and the seat
    has not passed, is not eliminated and is not the highest bidder: then
    the seat is marked passed, nothing else of the seats, the bid or the
    highest bidder changes, and the room moves to flipping exactly when all
    the other seats have now passed or the bid has reached the table count.
    Any other pass leaves the room exactly as it was. *)
Theorem pass_applied_iff_legal w i w' :
  handlePass w i = Some w' →
  if passLegal (room w) i then
    players (room w') = alter (set_passed true) (Z.to_nat i) (players (room w))
    ∧ currentBid (room w') = currentBid (room w)
    ∧ highestBidder (room w') = highestBidder (room w)
    ∧ (phase (room w') = Flipping
       ↔ allOthersPassed (updP i (set_passed true) (room w))
         ∨ countOnTable (room w) ≤ currentBid (room w))
  else w' = w.
Proof.
  intros H. unfold handlePass in H. unfold passLegal.
  destruct (bool_decide (phase (room w) = Bidding)) eqn:Hph; cbn [negb andb] in *;
    [|by simplify_eq].
  apply bool_decide_eq_true_1 in Hph.
  apply bind_Some in H as (p & Hp & H). rewrite Hp.
  destruct (passed p) eqn:Hpa; cbn [negb andb orb] in *; [by simplify_eq|].
  destruct (eliminated p) eqn:He; cbn [negb andb orb] in *; [by simplify_eq|].
  destruct (i =? highestBidder (room w)) eqn:Hi; cbn [negb andb] in *; [by simplify_eq|].
  cbv zeta in H.
  match type of H with checkBiddingEnd ?x = _ =>
    assert (phase (room x) = Bidding) as HX by (by wsimpl);
    destruct (bidding_core x w' HX H) as (Hiff & _ & _ & Hps & Hbid & Hhb & _); clear HX end.
  revert Hiff Hps Hbid Hhb. rewrite !room_onRoom.
  change (allOthersPassed (addLog ?m ?r)) with (allOthersPassed r).
  change (countOnTable (addLog ?m (updP ?j ?f ?r))) with (countOnTable (updP j f r)).
  intros Hiff Hps Hbid Hhb.
  assert (countOnTable (updP i (set_passed true) (room w)) = countOnTable (room w)) as Hc.
  { rewrite !countOnTable_seats. unfold updP. cbn. by rewrite seats_alter_same. }
  rewrite Hc in Hiff. done.
Qed.


Lemma gameOver_effects w i w' :
  gameOver w i = Some w' →
  ∃ winner, getP (room w) i = Some winner
    ∧ phase (room w') = GameOver ∧ players (room w') = players (room w)
    ∧ turnTimer (room w') = None ∧ deferred w' = deferred w
    ∧ nextRoundStarter (room w') = nextRoundStarter (room w)
    ∧ penaltyPlayer (room w') = penaltyPlayer (room w)
    ∧ EmitGameOver (code (room w)) (name winner) i ∈ outbox w'.
Proof.
  intros H. unfold gameOver in H. cbv zeta in H.
  apply bind_Some in H as (winner & Hw & H). bcast_in H.
  revert Hw. wsimpl. intros Hw. exists winner. split_and!; try done.
  apply elem_of_app. left. apply elem_of_app. right. by apply list_elem_of_here.
Qed.


Lemma doCardRemoval_effects rnd w i chosen w' p :
  doCardRemoval rnd w i chosen = Some w' → getP (room w) i = Some p → cards p ≠ [] →
  ∃ k, (k < length (cards p))%nat
    ∧ (0 ≤ chosen < Z.of_nat (length (cards p)) → k = Z.to_nat chosen)
    ∧ players (room w') = alter (afterRemoval k) (Z.to_nat i) (players (room w))
    ∧ penaltyPlayer (room w') = -1
    ∧ nextRoundStarter (room w') = nextRoundStarter (room w)
    ∧ if Z.of_nat (length (activePlayers (room w'))) <=? 1
      then phase (room w') = GameOver ∧ deferred w' = deferred w
           ∧ ∃ winner, EmitGameOver (code (room w)) (name winner)
                         (findIndex (λ pl, negb (eliminated pl)) (players (room w')))
                         ∈ outbox w'
                       ∧ winner ∈ players (room w') ∧ eliminated winner = false
      else phase (room w') = phase (room w) ∧ deferred w' = deferred w ++ [DStartRound].
Proof.
  intros H Hp Hc. unfold doCardRemoval in H. rewrite Hp, bind_Some_eq in H.
  cbv beta zeta in H.
  assert ((0 <? Z.of_nat (length (cards p))) = true) as E.
  { apply Z.ltb_lt. destruct (cards p); [done|cbn; lia]. }
  rewrite E in H.
  set (k := if (0 <=? chosen) && _ then _ else _) in H.
  assert (k < length (cards p))%nat as Hk.
  { unfold k. destruct ((0 <=? chosen) && _) eqn:Eb.
    - apply andb_true_iff in Eb as [?%Z.leb_le ?%Z.ltb_lt]. lia.
    - apply Nat.mod_upper_bound. destruct (cards p); [done|cbn; lia]. }
  assert (0 ≤ chosen < Z.of_nat (length (cards p)) → k = Z.to_nat chosen) as Hch.
  { intros [? ?]. unfold k.
    assert ((0 <=? chosen) = true) as -> by (by apply Z.leb_le).
    assert ((chosen <? Z.of_nat (length (cards p))) = true) as -> by (by apply Z.ltb_lt).
    done. }
  clearbody k. exists k. split; [done|]. split; [done|].
  set (W1 := onRoom (addLog _) _) in H.
  assert (getP (room W1) i = Some (set_cards (delete k (cards p)) p)) as Hp1.
  { unfold W1. rewrite !room_onRoom.
    change (getP (addLog ?m ?r) i) with (getP r i).
    exact (getP_updP_eq (room w) i (λ p0, set_cards (delete k (cards p0)) p0) p Hp). }
  rewrite Hp1, bind_Some_eq in H. cbv beta in H.
  match type of H with context [activePlayers (room ?x)] => set (X := x) in H end.
  assert (players (room X) = alter (afterRemoval k) (Z.to_nat i) (players (room w))
          ∧ penaltyPlayer (room X) = -1
          ∧ nextRoundStarter (room X) = nextRoundStarter (room w)
          ∧ phase (room X) = phase (room w) ∧ deferred X = deferred w
          ∧ code (room X) = code (room w)) as (E1 & E2 & E3 & E4 & E5 & E6).
  { unfold X, W1, afterRemoval. cbn [cards set_cards].
    destruct (Z.of_nat (length (delete k (cards p))) =? 0) eqn:Ez.
    - wsimpl. unfold updP. cbn. rewrite list_alter_alter_eq. split_and!; try done.
      apply list_alter_ext; [|done]. intros q Hq. cbn.
      apply getP_Some in Hp as [_ Hp]. assert (q = p) as -> by congruence.
      by rewrite Ez.
    - wsimpl. unfold updP. cbn. split_and!; try done.
      apply list_alter_ext; [|done]. intros q Hq. cbn.
      apply getP_Some in Hp as [_ Hp]. assert (q = p) as -> by congruence.
      by rewrite Ez. }
  clearbody X. clear W1 Hp1.
  destruct (Z.of_nat (length (activePlayers (room X))) <=? 1) eqn:Ea.
  - apply gameOver_effects in H as (winner & Hw & ? & Hps & ? & ? & ? & ? & Hin).
    unfold activePlayers. rewrite Hps. fold (activePlayers (room X)). rewrite Ea.
    split_and!; try congruence. exists winner. rewrite <-E6. split; [done|].
    destruct (findIndex_cases (λ pl, negb (eliminated pl)) (players (room X)))
      as [[Hm _]|(j & x & Hj & Hx & Hf & _)].
    + rewrite Hm in Hw. unfold getP in Hw. by case_decide.
    + rewrite Hj, getP_of_nat in Hw. assert (x = winner) as -> by congruence.
      split; [by eapply list_elem_of_lookup_2|]. by apply negb_true_iff.
  - apply bind_Some in H as (w1 & Hb & [= <-]). bcast_in Hb.
    unfold activePlayers. cbn [room schedule set_deferred set_outbox players deferred].
    fold (activePlayers (room X)). rewrite Ea. split_and!; try done. cbn. by rewrite E5.
Qed.

(** X28. The penalty for a revealed skull, on a loser who still owns
    tokens.  The next-round starter is always the seat whose skull it was.
    On the loser's own skull with more than one token left the room enters
    the penalty phase with the loser as penalty player, and nothing is
    removed or scheduled yet.  Otherwise one token of the loser is removed
    at once; a loser left without tokens is eliminated with hand and stack
    cleared; the penalty player is reset; and the game is over, announced
    with a non-eliminated seat as winner, exactly when at most one seat
    survives, else the next round is scheduled and the phase stays. *)
Theorem penalize_outcome rnd w loser skuller w' p :
  penalize rnd w loser skuller = Some w' → getP (room w) loser = Some p → cards p ≠ [] →
  nextRoundStarter (room w') = skuller
  ∧ if (loser =? skuller) && (1 <? Z.of_nat (length (cards p))) then
      phase (room w') = Penalty ∧ penaltyPlayer (room w') = loser
      ∧ players (room w') = players (room w) ∧ deferred w' = deferred w
    else
      ∃ k, (k < length (cards p))%nat
        ∧ players (room w') = alter (afterRemoval k) (Z.to_nat loser) (players (room w))
        ∧ penaltyPlayer (room w') = -1
        ∧ if Z.of_nat (length (activePlayers (room w'))) <=? 1
          then phase (room w') = GameOver ∧ deferred w' = deferred w
               ∧ ∃ winner, EmitGameOver (code (room w)) (name winner)
                             (findIndex (λ pl, negb (eliminated pl)) (players (room w')))
                             ∈ outbox w'
                           ∧ winner ∈ players (room w') ∧ eliminated winner = false
          else phase (room w') = phase (room w) ∧ deferred w' = deferred w ++ [DStartRound].
Proof.
  intros H Hp Hc. unfold penalize in H. cbv zeta in H.
  rewrite room_onRoom in H.
  change (getP (set_nextRoundStarter ?n ?r) loser) with (getP r loser) in H.
  rewrite Hp, bind_Some_eq in H. cbv beta in H.
  assert ((if loser =? skuller then loser else skuller) = skuller) as Hn.
  { destruct (Z.eqb_spec loser skuller); congruence. }
  rewrite Hn in H.
  destruct ((loser =? skuller) && _) eqn:Eb.
  - bcast_in H. wsimpl. apply andb_true_iff in Eb as [?%Z.eqb_eq _]. done.
  - eapply doCardRemoval_effects in H; [|exact Hp|done].
    destruct H as (k & Hk & _ & Hps & Hpp & Hnrs & Hend).
    split; [done|]. exists k. split_and!; try done.
Qed.



Lemma advancePlacing_effects now w w' :
  advancePlacing now w = Some w' →
  players (room w') = players (room w) ∧ phase (room w') = phase (room w)
  ∧ firstPlacement (room w') = firstPlacement (room w)
  ∧ totalCoastersOnTable (room w') = totalCoastersOnTable (room w)
  ∧ (∃ n1, nextActiveUnpassed (room w) (currentPlayer (room w)) = Some n1
           ∧ (if n1 =? -1 then findNextActive (room w) 0 else Some n1)
             = Some (currentPlayer (room w')))
  ∧ ((turnDeadline (room w') = now + 20 * 1000 ∧ deferred w' = deferred w
      ∧ ∃ h, turnTimer (room w') = Some h)
     ∨ (turnTimer (room w') = None
        ∧ deferred w' = deferred w ++ [DForceBid (currentPlayer (room w'))]
        ∧ firstPlacement (room w) = false
        ∧ ∃ np, getP (room w) (currentPlayer (room w')) = Some np ∧ hand np = [])).
Proof.
  intros H. unfold advancePlacing in H.
  apply bind_Some in H as (n1 & Hn1 & H). apply bind_Some in H as (next & Hnext & H).
  cbv zeta in H. rewrite !room_onRoom in H.
  change (getP (set_currentPlayer ?c ?r) ?i) with (getP r i) in H.
  cbn [phase firstPlacement set_currentPlayer] in H.
  destruct (match getP (room w) next with Some _ => _ | None => _ end) eqn:Em.
  - apply bind_Some in H as (w1 & Hb & [= <-]). bcast_in Hb. wsimpl.
    rewrite <-!getP_lookupZ. split_and!; try done; [eauto|]. right.
    destruct (getP (room w) next) as [np|] eqn:Hnp; [|done].
    apply andb_true_iff in Em as [[[_ Hh]%andb_true_iff _]%andb_true_iff Hfp].
    apply negb_true_iff in Hfp. apply Z.eqb_eq in Hh.
    split_and!; try done. exists np. split; [done|]. destruct (hand np); [done|cbn in Hh; lia].
  - bcast_in H. wsimpl. split_and!; try done; [eauto|]. left. eauto.
Qed.



Lemma seatFree_ext r r' i : players r' = players r → seatFree r i → seatFree r' i.
Proof. intros E (p & Hp & ?). exists p. split; [|done]. unfold getP in *. by rewrite E. Qed.

Lemma seatBusy_ext r r' i : players r' = players r → seatBusy r i → seatBusy r' i.
Proof. intros E (p & Hp & ?). exists p. split; [|done]. unfold getP in *. by rewrite E. Qed.



(** * Examples for the seat scans and the structural invariant *)

Lemma findNextActive_example :
  ∃ res, findNextActive (room demoPlacing) 1 = Some res ∧ res = 1.
Proof.
  destruct (findNextActive_first_alive (room demoPlacing) 1) as (res & H & _); [lia|].
  exists res. split; [exact H|]. vm_compute in H. by injection H as <-.
Defined.

Lemma nextActiveUnpassed_example :
  ∃ res, nextActiveUnpassed (room demoPlacing) (-1) = Some res ∧ res = 0.
Proof.
  destruct (nextActiveUnpassed_first_free (room demoPlacing) (-1)) as (res & H & _); [lia|].
  exists res. split; [exact H|]. vm_compute in H. by injection H as <-.
Defined.

Lemma room_well_formed_example :
  (length (log (room demoPlacing)) ≤ 100)%nat
  ∧ (length (players (room demoPlacing)) ≤ 6)%nat
  ∧ NoDup (map name (players (room demoPlacing))).
Proof. apply room_stays_well_formed. apply demoPlacing_reachable. Defined.

(** * Examples for the game invariant *)

Lemma demoAllPlaced_inGame : inGame demoAllPlaced.
Proof.
  apply (inGame_runEvents 1000 0 [EPlaceCard "a" 0; EPlaceCard "b" 0] demoPlacing);
    [apply demoPlacing_inGame|reflexivity|vm_compute; reflexivity].
Qed.

Lemma demoBidding_inGame : inGame demoBidding.
Proof.
  apply (game_step 1500 0 demoAllPlaced (EStartBid "a" 1));
    [apply demoAllPlaced_inGame|reflexivity|vm_compute; reflexivity].
Qed.

Lemma demoFlipped_inGame : inGame demoFlipped.
Proof.
  apply (game_step 2000 0 demoFlipping (EFlipCoaster "a" 0));
    [apply demoFlipping_inGame|reflexivity|vm_compute; reflexivity].
Qed.

Lemma demoFlipResult_inGame : inGame demoFlipResult.
Proof.
  apply (game_step 2500 0 demoFlipped (EFlipCoaster "a" 1));
    [apply demoFlipped_inGame|reflexivity|vm_compute; reflexivity].
Qed.

Lemma game_cache_example :
  totalCoastersOnTable (room demoFlipped) = 1 ∧ cacheOk (room demoFlipped).
Proof.
  split; [reflexivity|].
  apply game_cache_consistent; [apply demoFlipped_inGame|reflexivity].
Defined.



Lemma game_survivors_example :
  started (room demoFlipResult) = true ∧ phase (room demoFlipResult) ≠ PNone
  ∧ (phase (room demoFlipResult) ≠ GameOver → twoAlive (room demoFlipResult)).
Proof. apply game_two_survivors. apply demoFlipResult_inGame. Defined.

Lemma game_seat_example :
  cards (mkPlayer "b" "Bob" [Rose; Rose; Rose; Skull] [Rose; Rose; Skull] [Rose]
                  0 false false true 1 None) ≠ [].
Proof.
  apply (game_seat_tokens demoFlipped 1
           (mkPlayer "b" "Bob" [Rose; Rose; Rose; Skull] [Rose; Rose; Skull] [Rose]
                     0 false false true 1 None));
    [apply demoFlipped_inGame|vm_compute; reflexivity].
Defined.

Lemma game_turn_example :
  seatOK (room demoFlipped) (highestBidder (room demoFlipped))
  ∧ currentPlayer (room demoFlipped) = highestBidder (room demoFlipped).
Proof.
  destruct (game_turn_owner demoFlipped demoFlipped_inGame) as [_ H].
  apply H. reflexivity.
Defined.

Lemma game_resolution_example : length (pendingRes demoFlipResult) = 1%nat.
Proof. apply (game_one_resolution demoFlipResult). apply demoFlipResult_inGame. Defined.


Lemma game_deadline_example :
  timers demoFlipped = [] ∧ turnTimer (room demoFlipped) = None.
Proof.
  apply game_deadline_only_in_turns; [apply demoFlipped_inGame|..]; vm_compute; discriminate.
Defined.

Lemma game_all_placed_example :
  stack (mkPlayer "b" "Bob" [Rose; Rose; Rose; Skull] [Rose; Rose; Skull] [Rose]
                  0 false false true 1 None) ≠ [].
Proof.
  apply (game_all_placed demoAllPlaced 1
           (mkPlayer "b" "Bob" [Rose; Rose; Rose; Skull] [Rose; Rose; Skull] [Rose]
                     0 false false true 1 None));
    [apply demoAllPlaced_inGame|reflexivity|reflexivity|vm_compute; reflexivity|reflexivity].
Defined.

(** * Examples for the handlers *)

Lemma reachable_runEvents now rnd evs : ∀ w w',
  reachable w → runEvents now rnd w evs = Some w' → reachable w'.
Proof.
  unfold runEvents. induction evs as [|ev evs IH]; intros w w' Hw H.
  - cbn in H. by injection H as <-.
  - cbn in H. destruct (step now rnd w ev) as [w1|] eqn:Hstep.
    + apply (IH w1 w'); [|done]. by apply (reach_step now rnd w ev w1).
    + exfalso. clear -H. induction evs as [|e es IHes]; [done|]. by apply IHes.
Qed.

Lemma demoLobby_reachable : reachable demoLobby.
Proof.
  apply (reach_step 0 0 demoCreated (EJoin "b" "Bob")); [|vm_compute; reflexivity].
  apply (reach_create "ABCD" "a" "Ann"). vm_compute. reflexivity.
Qed.

Lemma demoStale_reachable : reachable demoStale.
Proof.
  apply (reachable_runEvents 1000 0
           [EJoin "c" "Cy"; EStartGame "a";
            EPlaceCard "a" 0; EPlaceCard "b" 0; EPlaceCard "c" 0;
            EPlaceCard "a" 0; EPlaceCard "b" 0; EStartBid "c" 1;
            EPass "a"; EPass "b"; EFlipCoaster "c" 2; EDeferred 0;
            EPlayAgain "a"; EDisconnect "c"] demoLobby);
    [apply demoLobby_reachable|vm_compute; reflexivity].
Qed.

Lemma startGame_deals_example :
  phase (room demoPlacing) = Placing ∧ roundNum (room demoPlacing) = 1
  ∧ seatOK (room demoPlacing) (currentPlayer (room demoPlacing))
  ∧ turnDeadline (room demoPlacing) = 21000.
Proof.
  destruct (startGame_deals 1000 0 demoLobby "a" demoPlacing)
    as (_ & _ & ? & ? & _ & ? & ?); [reflexivity|vm_compute; reflexivity|reflexivity|].
  done.
Defined.

Lemma startGame_stale_example :
  reachable demoStale ∧ step 1000 0 demoStale (EStartGame "a") = None.
Proof.
  split; [apply demoStale_reachable|].
  apply (startGame_stale_starter_throws 1000 0 demoStale);
    [reflexivity|vm_compute; lia|vm_compute; discriminate].
Defined.

Lemma playAgain_example :
  ∃ w', step 3000 0 demoFlipResult (EPlayAgain "a") = Some w'
    ∧ started (room w') = false ∧ deferred w' = [DChallengeSuccess 0].
Proof.
  destruct (step 3000 0 demoFlipResult (EPlayAgain "a")) as [w'|] eqn:E; [|by vm_compute in E].
  exists w'. split; [done|].
  pose proof (playAgain_keeps_pending 3000 0 demoFlipResult "a" w' E) as H.
  change (bool_decide ("a" = hostId (room demoFlipResult))) with true in H.
  destruct H as (Hs & _ & _ & _ & _ & _ & Hd & _).
  split; [exact Hs|]. rewrite Hd. vm_compute. reflexivity.
Defined.

Lemma chat_example :
  step 5999 0 demoChat (EChatMessage "b" "again") = Some (set_outbox [] demoChat).
Proof.
  apply (chat_second_message_dropped 5999 5000 0 demoPlacing "b" " <b>hi</b> " "again");
    [vm_compute; reflexivity|vm_compute; discriminate|lia|lia].
Defined.

Lemma final_views_example : out_ok demoFlipped.
Proof.
  apply (events_send_final_views 2000 0 demoFlipping (EFlipCoaster "a" 0)).
  vm_compute. reflexivity.
Defined.

Lemma game_views_example :
  length (outbox demoFlipped) = 2%nat
  ∧ Forall (λ e, match e with EmitGameState _ v => viewCacheOk v | _ => True end)
           (outbox demoFlipped).
Proof.
  split; [reflexivity|].
  apply (game_views_cache_consistent 2000 0 demoFlipping (EFlipCoaster "a" 0));
    [apply demoFlipping_inGame|vm_compute; reflexivity|reflexivity].
Defined.

Lemma seats_stable_example :
  map name (players (room demoFlipped)) = ["Ann"; "Bob"]
  ∧ hostId (room demoFlipped) = "a"
  ∧ map pid (players (room demoFlipped)) = ["a"; "b"].
Proof.
  destruct (seats_change_only_by_join_and_leave 2000 0 demoFlipping
              (EFlipCoaster "a" 0) demoFlipped) as (Hn & Hh & Hp);
    [vm_compute; reflexivity|by left|].
  rewrite Hn, Hh, (Hp eq_refl). clear. vm_compute. repeat split.
Defined.

(** * Examples for the rules *)

Lemma bidding_ends_example :
  ∃ w', checkBiddingEnd demoBidTwo = Some w'
    ∧ phase (room w') = Flipping ∧ flipsRemaining (room w') = 2
    ∧ currentPlayer (room w') = 0.
Proof.
  destruct (checkBiddingEnd demoBidTwo) as [w'|] eqn:E; [|by vm_compute in E].
  exists w'. split; [reflexivity|].
  assert (phase (room demoBidTwo) = Bidding) as Hph by (vm_compute; reflexivity).
  destruct (bidding_ends_iff demoBidTwo w' Hph E) as (Hiff & Hflip & _).
  assert (phase (room w') = Flipping) as Hf.
  { apply Hiff. right. clear. vm_compute. discriminate. }
  split; [exact Hf|]. destruct (Hflip Hf) as (-> & -> & _). clear. vm_compute. repeat split.
Defined.

Lemma pass_example :
  ∃ w', handlePass demoBidding 1 = Some w'
    ∧ map passed (players (room w')) = [false; true]
    ∧ highestBidder (room w') = 0.
Proof.
  destruct (handlePass demoBidding 1) as [w'|] eqn:E; [|by vm_compute in E].
  exists w'. split; [reflexivity|].
  pose proof (pass_applied_iff_legal demoBidding 1 w' E) as H.
  assert (passLegal (room demoBidding) 1 = true) as HL by (vm_compute; reflexivity).
  rewrite HL in H. destruct H as (-> & _ & -> & _). clear. vm_compute. repeat split.
Defined.


Lemma penalize_example :
  ∃ w', penalize 0 demoFlipResult 0 0 = Some w'
    ∧ nextRoundStarter (room w') = 0 ∧ phase (room w') = Penalty
    ∧ penaltyPlayer (room w') = 0.
Proof.
  destruct (penalize 0 demoFlipResult 0 0) as [w'|] eqn:E; [|by vm_compute in E].
  exists w'. split; [reflexivity|].
  destruct (penalize_outcome 0 demoFlipResult 0 0 w'
              (mkPlayer "a" "Ann" [Rose; Rose; Rose; Skull] [Rose; Rose; Skull] []
                        0 false false true 0 None) E) as [Hn H];
    [vm_compute; reflexivity|discriminate|].
  cbn in H. destruct H as (Hph & Hpp & _). exact (conj Hn (conj Hph Hpp)).
Defined.


